(** * Emergency-resource allocation scripts: a shallow embedding

    The development follows the Python scripts under [src/code]:

    - [aed_final_optimization.py]   the proportional device allocation,
    - [aed_balanced_simple.py]      the tiered device allocation,
    - [real_aed_optimization_with_area.py]  coverage matrix and MILP deployment,
    - [volunteer_analysis_latest.py], [optimized_volunteer_assignment_simple.py]
                                     the two responder assignment programs,
    - [risk_model_paper_aligned.py], [optimized_risk_model_with_area.py]
                                     feature preparation and normalisation.

    Conventions.  Python integers are [Z]; a sum of a numpy [int64]
    column wraps around ([int64]).  Python and numpy floats are exact
    rationals [Q]: the rounding of binary64 arithmetic is left out, except
    where a result hinges on it (Scenario A is also evaluated on primitive
    floats); the special values of a division by zero are kept (type
    [fval]).  Where a statement depends on the order that [np.argsort]
    gives to equal scores, or on the exact value of a share, it is made for
    every order and every vector of shares.  A pandas [Series] keeps its index labels next to its
    values, because the scripts read one by label.  Exceptions are values
    of [result].  The calls to geopy and to the PuLP solver are
    parameters. *)

From Stdlib Require Import ZArith QArith Qround Qabs Lia Lqa List Permutation Floats.
From stdpp Require Import base list strings gmap.
Import ListNotations.

#[local] Open Scope Z_scope.

(** ** Python exceptions and the error monad *)

(** An exception is identified by the name of its class and carries the
    offending key or a short message. *)
Inductive exn : Type :=
  | Exn (class_name : string) (arg : string).

Inductive result (A : Type) : Type :=
  | Ok (a : A)
  | Raise (e : exn).
Arguments Ok {A} a.
Arguments Raise {A} e.

#[global] Instance result_ret : MRet result := fun _ a => Ok a.
#[global] Instance result_bind : MBind result := fun _ _ k m =>
  match m with
  | Ok a => k a
  | Raise e => Raise e
  end.

Definition ZeroDivisionError : exn := Exn "ZeroDivisionError" "integer modulo by zero".
Definition IndexError (i : nat) : exn := Exn "IndexError" "index out of bounds".
Definition KeyError (k : string) : exn := Exn "KeyError" k.

(** The class of the exception a computation ended with, if any. *)
Definition raised_class {A} (r : result A) : option string :=
  match r with
  | Ok _ => None
  | Raise (Exn c _) => Some c
  end.

(** ** Numbers *)

(** [int(x)] on a float: truncation toward zero. *)
Definition py_int (q : Q) : Z :=
  if Qle_bool 0 q then Qfloor q else - Qfloor (- q).

Definition Zsum (l : list Z) : Z := fold_right Z.add 0 l.

(** The value a numpy [int64] holds after an addition or subtraction whose
    exact result is [z]: the arithmetic wraps around silently. *)
Definition int64 (z : Z) : Z := (z + 2 ^ 63) mod 2 ^ 64 - 2 ^ 63.
Definition Qsum (l : list Q) : Q := fold_right Qplus 0%Q l.

(** ** A fragment of numpy and pandas *)

Module Np.

(** [a[idx] += k] on an integer array; out of range raises. *)
Definition iadd (a : list Z) (idx : nat) (k : Z) : result (list Z) :=
  match a !! idx with
  | Some v => Ok (<[idx := v + k]> a)
  | None => Raise (IndexError idx)
  end.

(** Insertion of a (position, key) pair in a list sorted by key; the new
    pair goes before the first pair whose key is not smaller. *)
Fixpoint insert_key (x : nat * Q) (l : list (nat * Q)) : list (nat * Q) :=
  match l with
  | [] => [x]
  | y :: l' => if Qle_bool (snd x) (snd y) then x :: l else y :: insert_key x l'
  end.

Definition sort_keys (l : list (nat * Q)) : list (nat * Q) :=
  fold_right insert_key [] l.

(** [np.argsort(v)]: the positions of [v] in increasing order of value.
    numpy's default sort leaves the order of equal values open; this
    function keeps equal values in their original order.  Statements about
    which of several equal scores comes first are therefore made for every
    order the sort may return ([AedFinal.remainder_pass],
    [AedBalanced.allocation_by]), not for this one. *)
Definition argsort (v : list Q) : list nat :=
  map fst (sort_keys (combine (seq 0 (length v)) v)).

End Np.

Module Pd.

(** A Series: index labels and values, position by position. *)
Record Series (A : Type) : Type := mkSeries { index : list nat; values : list A }.
Arguments mkSeries {A} index values.
Arguments index {A} s.
Arguments values {A} s.

(** A column of a frame read from a file has the labels 0, 1, ... *)
Definition of_values {A} (v : list A) : Series A :=
  mkSeries (seq 0 (length v)) v.

(** [np.argsort(s)] on a Series is [s.argsort()]: a Series of positions
    under the labels of [s]. *)
Definition argsort (s : Series Q) : Series nat :=
  mkSeries (index s) (Np.argsort (values s)).

(** [s[::-1]]: the slice reverses labels and values together. *)
Definition reversed {A} (s : Series A) : Series A :=
  mkSeries (rev (index s)) (rev (values s)).

Fixpoint get_loc (labels : list nat) (k : nat) : option nat :=
  match labels with
  | [] => None
  | l :: rest => if Nat.eqb l k then Some 0%nat else S <$> get_loc rest k
  end.

(** [s[k]] with an integer [k]: on a Series whose index holds integers
    pandas looks [k] up among the labels, not among the positions. *)
Definition getitem {A} (s : Series A) (k : nat) : result A :=
  match get_loc (index s) k with
  | Some pos =>
      match values s !! pos with
      | Some v => Ok v
      | None => Raise (KeyError "label")
      end
  | None => Raise (KeyError "label")
  end.

Definition len {A} (s : Series A) : nat := length (values s).

End Pd.

(** ** Subzone records *)

Record subzone : Type := mkSubzone {
  AED_count : Z;
  normalized_risk_score : Q;
  area_weight : Q;
  latitude : Q;
  longitude : Q
}.

(** [subzone_data['normalized_risk_score'] * subzone_data['area_weight']];
    a float is read as the rational it holds and the product is exact,
    where binary64 rounds it.  [AED_count] is an [int64] column. *)
Definition priority_score (s : subzone) : Q :=
  (normalized_risk_score s * area_weight s)%Q.

Definition priority_scores (subzone_data : list subzone) : list Q :=
  map priority_score subzone_data.

(** ** aed_final_optimization.py *)

Module AedFinal.

(** Lines 93-100: the truncated proportional share of each subzone. *)
Definition proportional_allocation (remaining_aeds : Z) (priority_sum : Q)
    (scores : list Q) : list Z :=
  map (fun p =>
         if Qlt_le_dec 0 priority_sum
         then py_int (inject_Z remaining_aeds * (p / priority_sum))
         else 0) scores.

(** Lines 96-97 as binary64 arithmetic performs them, before [int]. *)
Definition binary64_share (remaining_aeds score priority_sum : float) : float :=
  PrimFloat.mul remaining_aeds (PrimFloat.div score priority_sum).

(** Lines 113-116: one unit per round, at [priority_indices[i % len]]. *)
Fixpoint distribute (priority_indices : Pd.Series nat) (rounds : list nat)
    (base_allocation : list Z) : result (list Z) :=
  match rounds with
  | [] => Ok base_allocation
  | i :: rest =>
      match Pd.len priority_indices with
      | O => Raise ZeroDivisionError
      | S _ =>
          idx ← Pd.getitem priority_indices (Nat.modulo i (Pd.len priority_indices));
          a ← Np.iadd base_allocation idx 1;
          distribute priority_indices rest a
      end
  end.

(** Lines 80-104: base allocation plus proportional shares. *)
Definition after_proportional (total_aeds : Z) (scores : list Q) : list Z :=
  let n_subzones := length scores in
  let base_allocation := repeat 1 n_subzones in
  let remaining_aeds := total_aeds - Z.of_nat n_subzones in
  let priority_sum := Qsum scores in
  zip_with Z.add base_allocation
    (proportional_allocation remaining_aeds priority_sum scores).

(** The allocation computed from the priority scores (lines 80-116). *)
Definition allocate (total_aeds : Z) (scores : list Q) : result (list Z) :=
  let priority_indices := Pd.reversed (Pd.argsort (Pd.of_values scores)) in
  let base_allocation := after_proportional total_aeds scores in
  let actual_total := Zsum base_allocation in
  let remaining_after_proportional := total_aeds - actual_total in
  if 0 <? remaining_after_proportional
  then distribute priority_indices
         (seq 0 (Z.to_nat remaining_after_proportional)) base_allocation
  else Ok base_allocation.

(** [final_aed_allocation] with the local constant [total_aeds] taken as
    an argument; the value returned is the column [optimized_aeds]. *)
Definition final_aed_allocation_with (total_aeds : Z)
    (subzone_data : list subzone) : result (list Z) :=
  allocate total_aeds (priority_scores subzone_data).

Definition total_aeds : Z := 6613.

Definition final_aed_allocation (subzone_data : list subzone) : result (list Z) :=
  final_aed_allocation_with total_aeds subzone_data.

(** Lines 106-116 on what the lines before them left: [order] is the array
    that [np.argsort] returned on line 87, with equal scores in whatever
    order the sort put them, and [base_allocation] the vector after line
    104, with the shares as line 97 computed them. *)
Definition remainder_pass (total_aeds : Z) (order : list nat)
    (base_allocation : list Z) : result (list Z) :=
  let priority_indices := Pd.reversed (Pd.of_values order) in
  let actual_total := Zsum base_allocation in
  let remaining_after_proportional := total_aeds - actual_total in
  if 0 <? remaining_after_proportional
  then distribute priority_indices
         (seq 0 (Z.to_nat remaining_after_proportional)) base_allocation
  else Ok base_allocation.

End AedFinal.

(** ** aed_balanced_simple.py *)

Module AedBalanced.

(** [priority_rank <= n_subzones * fraction].  The products by 0.2 and 0.5
    are exact here; against a whole rank the binary64 products decide the
    same way. *)
Definition rank_le (priority_rank n_subzones : nat) (fraction : Q) : bool :=
  Qle_bool (inject_Z (Z.of_nat priority_rank)) (inject_Z (Z.of_nat n_subzones) * fraction).

(** Lines 71-77: the tier of the rank decides how many extra units the
    subzone may take. *)
Definition extra_aeds (n_subzones priority_rank : nat) (remaining_aeds : Z) : Z :=
  if rank_le priority_rank n_subzones (2 # 10) then Z.min remaining_aeds 5
  else if rank_le priority_rank n_subzones (5 # 10) then Z.min remaining_aeds 3
  else Z.min remaining_aeds 1.

(** Lines 65-80: the loop over [enumerate(priority_indices)]; the first
    equation of the non-empty case is the [break]. *)
Fixpoint tier_loop (n_subzones : nat) (items : list (nat * nat))
    (base_allocation : list Z) (remaining_aeds : Z) : result (list Z * Z) :=
  match items with
  | [] => Ok (base_allocation, remaining_aeds)
  | (i, idx) :: rest =>
      if remaining_aeds <=? 0 then Ok (base_allocation, remaining_aeds)
      else
        let extra := extra_aeds n_subzones (i + 1) remaining_aeds in
        a ← Np.iadd base_allocation idx extra;
        tier_loop n_subzones rest a (remaining_aeds - extra)
  end.

Definition enumerate {A} (l : list A) : list (nat * A) :=
  combine (seq 0 (length l)) l.

(** Lines 52-80 for a given order of the subzones: [priority_indices] is
    what [np.argsort(priority_scores)[::-1]] holds, with equal scores in
    whatever order the sort put them.  [total_aeds] is an [int64], and so
    is the difference of line 54. *)
Definition allocation_by (priority_indices : list nat) (n_subzones : nat)
    (total_aeds : Z) : result (list Z) :=
  let base_allocation := repeat 1 n_subzones in
  let remaining_aeds := int64 (total_aeds - Z.of_nat n_subzones) in
  if 0 <? remaining_aeds then
    st ← tier_loop n_subzones (enumerate priority_indices)
           base_allocation remaining_aeds;
    Ok (fst st)
  else Ok base_allocation.

(** Lines 43-80: the allocation vector.  The sum of line 43 is the sum of
    an [int64] column. *)
Definition allocation (subzone_data : list subzone) : result (list Z) :=
  let total_aeds := int64 (Zsum (map AED_count subzone_data)) in
  let n_subzones := length subzone_data in
  let scores := priority_scores subzone_data in
  let priority_indices := Pd.reversed (Pd.argsort (Pd.of_values scores)) in
  allocation_by (Pd.values priority_indices) n_subzones total_aeds.

(** Lines 83-86. *)
Definition coverage_effect (subzone_data : list subzone) (base_allocation : list Z) : list Q :=
  zip_with (fun a s => (inject_Z a * normalized_risk_score s * area_weight s)%Q)
    base_allocation subzone_data.

(** Lines 37-94.  The messages of lines 88-92 evaluate
    [max(base_allocation)], which raises on an empty vector. *)
Definition balanced_aed_allocation (subzone_data : list subzone)
    : result (list Z * list Q) :=
  a ← allocation subzone_data;
  match a with
  | [] => Raise (Exn "ValueError" "max() arg is an empty sequence")
  | _ :: _ => Ok (a, coverage_effect subzone_data a)
  end.

(** The per-tier maxima of the report (lines 162-164), and what one pass
    of the loop can hand out at most: the maxima of all ranks. *)
Definition tier_cap (n_subzones priority_rank : nat) : Z :=
  if rank_le priority_rank n_subzones (2 # 10) then 5
  else if rank_le priority_rank n_subzones (5 # 10) then 3
  else 1.

Definition tier_capacity (n_subzones : nat) : Z :=
  Zsum (map (fun i => tier_cap n_subzones (i + 1)) (seq 0 n_subzones)).

End AedBalanced.

(** ** Matrices filled by two nested loops *)

Module Matrix.

(** [m[i, j] = v] *)
Definition set {A} (m : list (list A)) (i j : nat) (v : A) : list (list A) :=
  alter (fun row => <[j := v]> row) i m.

Definition get {A} (m : list (list A)) (i j : nat) : option A :=
  row ← m !! i; row !! j.

(** [for i in range(n): for j in range(k): if <cond>: m[i, j] = <value>],
    on a matrix that starts filled with [init]; [body i j] is the value
    assigned at [(i, j)], if any. *)
Definition inner_loop {A} (k : nat) (body : nat -> nat -> option A) (i : nat)
    (m : list (list A)) : list (list A) :=
  fold_left (fun m j => match body i j with Some v => set m i j v | None => m end)
    (seq 0 k) m.

Definition fill {A} (n k : nat) (init : A) (body : nat -> nat -> option A)
    : list (list A) :=
  fold_left (fun m i => inner_loop k body i m) (seq 0 n) (repeat (repeat init k) n).

End Matrix.

(** ** Linear programs handed to PuLP *)

Module Lp.

Inductive category : Type := LpInteger | LpBinary.
Inductive sense : Type := LpConstraintLE | LpConstraintEQ.

(** [lpSum(terms) <= rhs] or [lpSum(terms) == rhs]. *)
Record constraint (V : Type) : Type := mkConstraint {
  terms : list V; csense : sense; rhs : Z
}.
Arguments mkConstraint {V} terms csense rhs.
Arguments terms {V} c.
Arguments csense {V} c.
Arguments rhs {V} c.

(** Variables of one category (integer variables have [lowBound=0]), a
    weighted objective to maximise, and the constraints in the order they
    are added. *)
Record problem (V : Type) : Type := mkProblem {
  variables : list V;
  cat : category;
  objective : list (V * Q);
  constraints : list (constraint V)
}.
Arguments mkProblem {V} variables cat objective constraints.
Arguments variables {V} p.
Arguments cat {V} p.
Arguments objective {V} p.
Arguments constraints {V} p.

(** What [prob.solve()] leaves behind: [prob.status] and the value of each
    variable.  The values of integer and binary variables are integral
    floats, kept here as integers. *)
Record outcome (V : Type) : Type := mkOutcome {
  status : Z;
  value : V -> Z
}.
Arguments mkOutcome {V} status value.
Arguments status {V} o.
Arguments value {V} o.

Definition lpSum {V} (x : V -> Z) (vs : list V) : Z := Zsum (map x vs).

Definition in_category (c : category) (v : Z) : Prop :=
  match c with
  | LpInteger => 0 <= v
  | LpBinary => v = 0 \/ v = 1
  end.

Definition holds {V} (x : V -> Z) (c : constraint V) : Prop :=
  match csense c with
  | LpConstraintLE => lpSum x (terms c) <= rhs c
  | LpConstraintEQ => lpSum x (terms c) = rhs c
  end.

(** A feasible point of the program. *)
Definition feasible {V} (p : problem V) (x : V -> Z) : Prop :=
  (forall v, In v (variables p) -> in_category (cat p) (x v)) /\
  Forall (holds x) (constraints p).

Definition objective_value {V} (p : problem V) (x : V -> Z) : Q :=
  Qsum (map (fun t => (inject_Z (x (fst t)) * snd t)%Q) (objective p)).

(** A solution the solver may report with status 1 (optimal). *)
Definition optimal {V} (p : problem V) (x : V -> Z) : Prop :=
  feasible p x /\
  forall y, feasible p y -> (objective_value p y <= objective_value p x)%Q.

End Lp.

(** ** Scripts that measure distances and call the solver *)

Record volunteer : Type := mkVolunteer {
  v_latitude : Q;
  v_longitude : Q;
  availability : Z;
  response_time : Q
}.

(** One row of the assignment table: positions of the subzone and of the
    volunteer in their frames, and the reported figures. *)
Record assignment : Type := mkAssignment {
  a_subzone : nat;
  a_volunteer : nat;
  a_distance : Q;
  a_response_time : Q;
  a_priority : Q
}.

Definition point : Type := Q * Q.

Definition subzone_point (s : subzone) : point := (latitude s, longitude s).
Definition volunteer_point (v : volunteer) : point := (v_latitude v, v_longitude v).

Section Externals.

(** [geodesic(p1, p2).meters] of geopy. *)
Variable geodesic : point -> point -> Q.

(** ** real_aed_optimization_with_area.py *)

(** Lines 42-55: what the loop body assigns at [(i, j)]. *)
Definition coverage_body (subzone_data : list subzone) (coverage_radius : Q)
    (i j : nat) : option Z :=
  if bool_decide (i <> j) then
    match subzone_data !! i, subzone_data !! j with
    | Some si, Some sj =>
        let distance := geodesic (subzone_point si) (subzone_point sj) in
        if Qle_bool distance coverage_radius then Some 1 else None
    | _, _ => None
    end
  else None.

Definition create_coverage_matrix (subzone_data : list subzone)
    (coverage_radius : Q) : list (list Z) :=
  let n := length subzone_data in
  Matrix.fill n n 0 (coverage_body subzone_data coverage_radius).

(** [coverage_matrix[i, j] == 1] *)
Definition covers (coverage_matrix : list (list Z)) (i j : nat) : bool :=
  match Matrix.get coverage_matrix i j with
  | Some v => v =? 1
  | None => false
  end.

(** Lines 73-87.  In this script [risk_scores] is the column
    [normalized_density], which line 27 copies to [area_weight]. *)
Definition deployment_problem (subzone_data : list subzone)
    (coverage_matrix : list (list Z)) (total_aeds : Z) : Lp.problem nat :=
  let n := length subzone_data in
  Lp.mkProblem (seq 0 n) Lp.LpInteger
    (flat_map (fun i =>
       match subzone_data !! i with
       | Some s =>
           map (fun j => (j, (area_weight s * area_weight s)%Q))
             (List.filter (covers coverage_matrix i) (seq 0 n))
       | None => []
       end) (seq 0 n))
    [ Lp.mkConstraint (seq 0 n) Lp.LpConstraintEQ total_aeds ].

(** Lines 100-104. *)
Definition deployment_effect (subzone_data : list subzone)
    (coverage_matrix : list (list Z)) (deployment : list Z) : list Q :=
  let n := length subzone_data in
  imap (fun i s =>
          let covered_times :=
            Zsum (map (fun j => default 0 (deployment !! j))
                    (List.filter (covers coverage_matrix i) (seq 0 n))) in
          (inject_Z covered_times * area_weight s * area_weight s)%Q)
    subzone_data.




(** ** The distance matrix of both assignment scripts *)

(** An entry is [None] for [np.inf]. *)
Definition distance_body (subzone_data : list subzone) (volunteer_data : list volunteer)
    (max_distance : Q) (i j : nat) : option (option Q) :=
  match subzone_data !! i, volunteer_data !! j with
  | Some s, Some v =>
      if availability v =? 1 then
        let distance := geodesic (subzone_point s) (volunteer_point v) in
        if Qle_bool distance max_distance then Some (Some distance) else None
      else None
  | _, _ => None
  end.

Definition create_distance_matrix (subzone_data : list subzone)
    (volunteer_data : list volunteer) (max_distance : Q) : list (list (option Q)) :=
  Matrix.fill (length subzone_data) (length volunteer_data) None
    (distance_body subzone_data volunteer_data max_distance).

End Externals.

(** [distance_matrix[i, j]] when it is not [np.inf]. *)
Definition finite_distance (distance_matrix : list (list (option Q))) (i j : nat)
    : option Q :=
  d ← Matrix.get distance_matrix i j; d.

Definition reachable (distance_matrix : list (list (option Q))) (i j : nat) : bool :=
  bool_decide (is_Some (finite_distance distance_matrix i j)).

(** ** volunteer_analysis_latest.py *)

Module VolunteerLatest.

(** Lines 101-124. *)
Definition assignment_problem (subzone_data : list subzone)
    (volunteer_data : list volunteer) (distance_matrix : list (list (option Q)))
    : Lp.problem (nat * nat) :=
  let n_subzones := length subzone_data in
  let n_volunteers := length volunteer_data in
  Lp.mkProblem
    (flat_map (fun i => map (fun j => (i, j)) (seq 0 n_volunteers)) (seq 0 n_subzones))
    Lp.LpBinary
    (flat_map (fun i =>
       flat_map (fun j =>
         match subzone_data !! i, finite_distance distance_matrix i j with
         | Some s, Some d => [((i, j), (priority_score s * (1 / (d + 1)))%Q)]
         | _, _ => []
         end) (seq 0 n_volunteers)) (seq 0 n_subzones))
    (map (fun j =>
            Lp.mkConstraint
              (map (fun i => (i, j))
                 (List.filter (fun i => reachable distance_matrix i j) (seq 0 n_subzones)))
              Lp.LpConstraintLE 1) (seq 0 n_volunteers)
     ++
     map (fun i =>
            Lp.mkConstraint
              (map (fun j => (i, j))
                 (List.filter (fun j => reachable distance_matrix i j) (seq 0 n_volunteers)))
              Lp.LpConstraintLE 3) (seq 0 n_subzones)).

(** Lines 136-149. *)
Definition extract (subzone_data : list subzone) (volunteer_data : list volunteer)
    (distance_matrix : list (list (option Q))) (x : nat * nat -> Z) : list assignment :=
  flat_map (fun i =>
    flat_map (fun j =>
      match subzone_data !! i, volunteer_data !! j, finite_distance distance_matrix i j with
      | Some s, Some v, Some d =>
          if x (i, j) =? 1
          then [mkAssignment i j d (response_time v) (priority_score s)]
          else []
      | _, _, _ => []
      end) (seq 0 (length volunteer_data))) (seq 0 (length subzone_data)).

Definition optimize_volunteer_assignment
    (solve : Lp.problem (nat * nat) -> Lp.outcome (nat * nat))
    (subzone_data : list subzone) (volunteer_data : list volunteer)
    (distance_matrix : list (list (option Q))) : list assignment :=
  let prob := assignment_problem subzone_data volunteer_data distance_matrix in
  extract subzone_data volunteer_data distance_matrix (Lp.value (solve prob)).

End VolunteerLatest.

(** ** optimized_volunteer_assignment_simple.py *)

Module VolunteerSimple.

(** Lines 122-123. *)
Definition valid_pairs (n_subzones n_volunteers : nat)
    (distance_matrix : list (list (option Q))) : list (nat * nat) :=
  flat_map (fun i =>
    map (fun j => (i, j))
      (List.filter (fun j => reachable distance_matrix i j) (seq 0 n_volunteers)))
    (seq 0 n_subzones).

(** Lines 119-147.  Lines 149-160 only count subzones for a message and
    add nothing to the program. *)
Definition assignment_problem (subzone_data : list subzone)
    (volunteer_data : list volunteer) (distance_matrix : list (list (option Q)))
    : Lp.problem (nat * nat) :=
  let n_subzones := length subzone_data in
  let n_volunteers := length volunteer_data in
  let pairs := valid_pairs n_subzones n_volunteers distance_matrix in
  Lp.mkProblem pairs Lp.LpBinary
    (flat_map (fun ij =>
       match subzone_data !! fst ij, volunteer_data !! snd ij with
       | Some s, Some v =>
           [(ij, (normalized_risk_score s * area_weight s * (1 / response_time v))%Q)]
       | _, _ => []
       end) pairs)
    (flat_map (fun j =>
       match volunteer_data !! j with
       | Some v =>
           if availability v =? 1 then
             let valid_assignments :=
               map (fun i => (i, j))
                 (List.filter (fun i => reachable distance_matrix i j) (seq 0 n_subzones)) in
             match valid_assignments with
             | [] => []
             | _ :: _ => [Lp.mkConstraint valid_assignments Lp.LpConstraintLE 1]
             end
           else []
       | None => []
       end) (seq 0 n_volunteers)).

(** Lines 172-186. *)
Definition extract (subzone_data : list subzone) (volunteer_data : list volunteer)
    (distance_matrix : list (list (option Q))) (x : nat * nat -> Z) : list assignment :=
  flat_map (fun ij =>
    match subzone_data !! fst ij, volunteer_data !! snd ij,
          finite_distance distance_matrix (fst ij) (snd ij) with
    | Some s, Some v, Some d =>
        if x ij =? 1
        then [mkAssignment (fst ij) (snd ij) d (response_time v)
                (normalized_risk_score s * area_weight s)%Q]
        else []
    | _, _, _ => []
    end) (valid_pairs (length subzone_data) (length volunteer_data) distance_matrix).

Definition optimize_volunteer_assignment
    (solve : Lp.problem (nat * nat) -> Lp.outcome (nat * nat))
    (subzone_data : list subzone) (volunteer_data : list volunteer)
    (distance_matrix : list (list (option Q))) : option (list assignment) :=
  let prob := assignment_problem subzone_data volunteer_data distance_matrix in
  let solved := solve prob in
  if Lp.status solved =? 1
  then Some (extract subzone_data volunteer_data distance_matrix (Lp.value solved))
  else None.

End VolunteerSimple.

(** Responders a subzone receives, and subzones a responder is sent to. *)
Definition assigned_to_subzone (i : nat) (assignments : list assignment) : nat :=
  length (List.filter (fun a => Nat.eqb (a_subzone a) i) assignments).

Definition assigned_of_volunteer (j : nat) (assignments : list assignment) : nat :=
  length (List.filter (fun a => Nat.eqb (a_volunteer a) j) assignments).

(** ** Float columns: values with the special cases of division *)

Inductive fval : Type :=
  | Fin (q : Q)
  | PosInf
  | NegInf
  | NaN.

Module F.

Definition zero : fval := Fin 0.

Definition neg (a : fval) : fval :=
  match a with
  | Fin q => Fin (- q)
  | PosInf => NegInf
  | NegInf => PosInf
  | NaN => NaN
  end.

Definition add (a b : fval) : fval :=
  match a, b with
  | NaN, _ | _, NaN => NaN
  | Fin x, Fin y => Fin (x + y)
  | PosInf, NegInf | NegInf, PosInf => NaN
  | PosInf, _ | _, PosInf => PosInf
  | NegInf, _ | _, NegInf => NegInf
  end.

Definition sub (a b : fval) : fval := add a (neg b).

Definition sign (q : Q) : comparison := (q ?= 0)%Q.

Definition signed_inf (c : comparison) : fval :=
  match c with
  | Gt => PosInf
  | Lt => NegInf
  | Eq => NaN
  end.

Definition flip (c : comparison) : comparison := CompOpp c.

Definition mul (a b : fval) : fval :=
  match a, b with
  | NaN, _ | _, NaN => NaN
  | Fin x, Fin y => Fin (x * y)
  | PosInf, Fin y | Fin y, PosInf => signed_inf (sign y)
  | NegInf, Fin y | Fin y, NegInf => signed_inf (flip (sign y))
  | PosInf, PosInf | NegInf, NegInf => PosInf
  | PosInf, NegInf | NegInf, PosInf => NegInf
  end.

(** Division of floats as numpy does it: a zero divisor gives NaN for a
    zero dividend and an infinity otherwise (the sign of a zero is not
    modelled). *)
Definition div (a b : fval) : fval :=
  match a, b with
  | NaN, _ | _, NaN => NaN
  | Fin x, Fin y =>
      if Qeq_bool y 0 then signed_inf (sign x) else Fin (x / y)
  | Fin _, (PosInf | NegInf) => zero
  | (PosInf | NegInf), (PosInf | NegInf) => NaN
  | PosInf, Fin y => match sign y with Lt => NegInf | _ => PosInf end
  | NegInf, Fin y => match sign y with Lt => PosInf | _ => NegInf end
  end.

Definition is_nan (a : fval) : bool :=
  match a with NaN => true | _ => false end.

(** [a <= b]; false when either side is NaN. *)
Definition leb (a b : fval) : bool :=
  match a, b with
  | NaN, _ | _, NaN => false
  | NegInf, _ | _, PosInf => true
  | Fin x, Fin y => Qle_bool x y
  | _, _ => false
  end.

(** [Series.min()] and [Series.max()]: NaN entries are skipped, and a
    Series without any other entry gives NaN. *)
Definition min2 (a b : fval) : fval :=
  if is_nan a then b else if is_nan b then a else if leb a b then a else b.
Definition max2 (a b : fval) : fval :=
  if is_nan a then b else if is_nan b then a else if leb a b then b else a.

Definition min (l : list fval) : fval := fold_right min2 NaN l.
Definition max (l : list fval) : fval := fold_right max2 NaN l.

(** [(s - s.min()) / (s.max() - s.min())] *)
Definition min_max_scaled (s : list fval) : list fval :=
  let lo := min s in
  let hi := max s in
  map (fun x => div (sub x lo) (sub hi lo)) s.

Definition of_Z (z : Z) : fval := Fin (inject_Z z).

End F.

(** aed_balanced_simple.py, [load_data], line 30: the column
    [normalized_risk_score] from the column [risk_score]. *)
Definition load_data_normalized_risk_score (risk_score : list fval) : list fval :=
  F.min_max_scaled risk_score.

(** risk_model_paper_aligned.py, [predict_risk_scores], lines 251-254: the
    column [risk_score_normalized] from the predictions. *)
Definition predict_risk_scores_normalized (risk_predictions : list fval) : list fval :=
  F.min_max_scaled risk_predictions.

(** ** Data frames *)

Inductive column : Type :=
  | NumCol (v : list fval)
  | StrCol (v : list string).

Record DataFrame : Type := mkFrame {
  n_rows : nat;
  columns : gmap string column
}.

Module Frame.

(** [df[name]] *)
Definition get (df : DataFrame) (name : string) : result column :=
  match columns df !! name with
  | Some c => Ok c
  | None => Raise (KeyError name)
  end.

(** [df[name]] used in arithmetic. *)
Definition get_num (df : DataFrame) (name : string) : result (list fval) :=
  c ← get df name;
  match c with
  | NumCol v => Ok v
  | StrCol _ => Raise (Exn "TypeError" name)
  end.

(** [df[name] = c] *)
Definition set (df : DataFrame) (name : string) (c : column) : DataFrame :=
  mkFrame (n_rows df) (<[name := c]> (columns df)).

Definition set_num (df : DataFrame) (name : string) (v : list fval) : DataFrame :=
  set df name (NumCol v).

(** [name in df.columns] *)
Definition has (df : DataFrame) (name : string) : bool :=
  bool_decide (is_Some (columns df !! name)).

(** [df[names]]: the columns in the order asked for. *)
Fixpoint select (df : DataFrame) (names : list string) : result (list (string * column)) :=
  match names with
  | [] => Ok []
  | name :: rest =>
      c ← get df name;
      cs ← select df rest;
      Ok ((name, c) :: cs)
  end.

Definition fillna (z : fval) (c : column) : column :=
  match c with
  | NumCol v => NumCol (map (fun x => if F.is_nan x then z else x) v)
  | StrCol v => StrCol v
  end.

End Frame.

Definition scale (k : Q) (v : list fval) : list fval := map (F.mul (Fin k)) v.
Definition clip_low (lo : fval) (v : list fval) : list fval :=
  map (fun x => if F.is_nan x then x else F.max2 lo x) v.
Definition clip_high (hi : fval) (v : list fval) : list fval :=
  map (fun x => if F.is_nan x then x else F.min2 hi x) v.

(** [.astype(int)] *)
Definition astype_int (v : list fval) : result (list Z) :=
  mapM (fun x => match x with
                 | Fin q => Ok (py_int q)
                 | _ => Raise (Exn "ValueError" "cannot convert non-finite values to integer")
                 end) v.

(** ** risk_model_paper_aligned.py *)

Module RiskModel.

(** Lines 39-76.  [od_matrix] is the matrix drawn on line 53. *)
Definition create_mobility_features (od_matrix : list (list Z)) (pop_df : DataFrame)
    : result DataFrame :=
  let df := pop_df in
  let n_subzones := n_rows df in
  let od := imap (fun i row => <[i := 0]> row) od_matrix in
  let total_outflow := map Zsum od in
  let total_inflow :=
    map (fun j => Zsum (map (fun row => default 0 (row !! j)) od)) (seq 0 n_subzones) in
  let total_mobility := zip_with Z.add total_outflow total_inflow in
  top ← match total_mobility with
        | [] => Raise (Exn "ValueError" "zero-size array to reduction operation maximum")
        | t :: ts => Ok (fold_right Z.max t ts)
        end;
  let mobility_intensity := map (fun t => F.div (F.of_Z t) (F.of_Z top)) total_mobility in
  population ← Frame.get_num df "Total_Total";
  let risk_exposure :=
    zip_with (fun t p => F.div (F.mul (F.of_Z t) p) (Fin 1000)) total_mobility population in
  let df := Frame.set_num df "total_mobility" (map F.of_Z total_mobility) in
  let df := Frame.set_num df "mobility_intensity" mobility_intensity in
  let df := Frame.set_num df "risk_exposure" risk_exposure in
  Ok df.

(** Lines 78-129.  [noise] is the normal draw of line 94 and
    [random_factor] the Poisson draw of line 111. *)
Definition create_paper_features (noise : list Q) (random_factor : list Z)
    (df : DataFrame) : result DataFrame :=
  P ← Frame.get_num df "Total_Total";
  let df := Frame.set_num df "P_i" P in
  E ← Frame.get_num df "elderly_ratio";
  let df := Frame.set_num df "E_i" E in
  L ← Frame.get_num df "low_income_ratio";
  let df := Frame.set_num df "L_i" L in
  let H := zip_with F.add (scale (1 # 1000) (zip_with F.mul P E)) (map Fin noise) in
  let df := Frame.set_num df "H_i" (clip_low F.zero H) in
  HDB ← Frame.get_num df "hdb_ratio";
  let df := Frame.set_num df "HDB_i" HDB in
  let df := Frame.set_num df "V_i"
              (zip_with F.add (scale (7 # 10) L) (scale (3 # 10) HDB)) in
  let df := Frame.set_num df "ED_i" (zip_with F.mul E P) in
  let base_ohca := scale (1 # 10000) (zip_with F.mul P E) in
  counts ← astype_int (zip_with F.add base_ohca (map F.of_Z random_factor));
  let ohca_count := clip_high (Fin 1000) (clip_low F.zero (map F.of_Z counts)) in
  let df := Frame.set_num df "ohca_count" ohca_count in
  let replaced := map (fun p => match p with
                                | Fin q => if Qeq_bool q 0 then Fin 1 else p
                                | _ => p
                                end) P in
  let df := Frame.set_num df "ohca_rate" (zip_with F.div ohca_count replaced) in
  RE ← Frame.get_num df "risk_exposure";
  let df := Frame.set_num df "RE_i" RE in
  TM ← Frame.get_num df "total_mobility";
  let df := Frame.set_num df "TM_i" TM in
  MI ← Frame.get_num df "mobility_intensity";
  let df := Frame.set_num df "MI_i" MI in
  Ok df.

(** Line 142. *)
Definition feature_columns : list string :=
  ["P_i"; "E_i"; "L_i"; "H_i"; "HDB_i"; "V_i"; "ED_i"; "RE_i"; "TM_i"; "MI_i"].

(** Lines 144-153: the check of the feature list.  A feature that is not
    a column becomes a column of zeros. *)
Definition check_features (df : DataFrame) : DataFrame * list string :=
  let available_features := List.filter (Frame.has df) feature_columns in
  let missing_features := List.filter (fun c => negb (Frame.has df c)) feature_columns in
  match missing_features with
  | [] => (df, available_features)
  | _ :: _ =>
      (fold_left (fun df feature =>
                    Frame.set_num df feature (repeat F.zero (n_rows df)))
         missing_features df,
       feature_columns)
  end.

(** What [prepare_features] stores in the object and returns. *)
Record prepared : Type := mkPrepared {
  features : list (string * column);
  target : column;
  subzone_codes : column;
  frame : DataFrame
}.

(** Lines 131-162. *)
Definition prepare_features (od_matrix : list (list Z)) (noise : list Q)
    (random_factor : list Z) (pop_df : DataFrame) : result prepared :=
  df ← create_mobility_features od_matrix pop_df;
  df ← create_paper_features noise random_factor df;
  let '(df, available_features) := check_features df in
  feats ← Frame.select df available_features;
  tgt ← Frame.get df "ohca_count";
  codes ← Frame.get df "subzone_code";
  Ok (mkPrepared feats tgt codes df).

End RiskModel.

(** ** optimized_risk_model_with_area.py *)

Module RiskModelArea.

(** Lines 24-28. *)
Definition features : list string :=
  ["Total_Total"; "volunteers_count"; "hdb_ratio"; "elderly_ratio";
   "low_income_ratio"; "AED_count"; "area_weight"].

Definition num_of (X : list (string * column)) (name : string) : result (list fval) :=
  match list_find (fun nc => fst nc = name) X with
  | Some (_, (_, NumCol v)) => Ok v
  | Some (_, (_, StrCol _)) => Raise (Exn "TypeError" name)
  | None => Raise (KeyError name)
  end.

Definition one_minus (v : list fval) : list fval := map (fun x => F.sub (Fin 1) x) v.

(** Lines 9-58; [noise] is the draw of line 47.  The value is the triple
    [(X, y, data)]. *)
Definition load_and_prepare_data (noise : list Q) (data : DataFrame)
    : result (list (string * column) * list fval * DataFrame) :=
  population ← Frame.get_num data "Total_Total";
  let data := Frame.set_num data "population_density" population in
  let top := F.max population in
  let data := Frame.set_num data "area_weight" (map (fun p => F.div p top) population) in
  selected ← Frame.select data features;
  let X := map (fun nc => (fst nc, Frame.fillna F.zero (snd nc))) selected in
  total ← num_of X "Total_Total";
  elderly ← num_of X "elderly_ratio";
  low_income ← num_of X "low_income_ratio";
  hdb ← num_of X "hdb_ratio";
  area ← num_of X "area_weight";
  let risk_factors :=
    zip_with F.add
      (zip_with F.add
         (zip_with F.add
            (zip_with F.add
               (scale (3 # 10) total)
               (scale (25 # 100) (scale 10000 elderly)))
            (scale (25 # 100) (scale 10000 low_income)))
         (scale (1 # 10) (scale 5000 (one_minus hdb))))
      (scale (1 # 10) (scale 3000 (one_minus area))) in
  let y := map (fun v => if F.is_nan v then v else F.max2 v F.zero)
             (zip_with F.add risk_factors (map Fin noise)) in
  Ok (X, y, data).

End RiskModelArea.

(** ** risk_model_paper_aligned.py, [create_heatmap] *)

(** Lines 303-307: one round of the loop that lays the scores out on the
    grid. *)
Definition heatmap_step (risk_values : list fval) (grid_size : nat)
    (grid_matrix : list (list fval)) (i : nat) : list (list fval) :=
  let row := (i / grid_size)%nat in
  let col := (i mod grid_size)%nat in
  if (row <? grid_size)%nat && (col <? grid_size)%nat then
    match risk_values !! i with
    | Some v => Matrix.set grid_matrix row col v
    | None => grid_matrix
    end
  else grid_matrix.

(** Lines 298-307.  [grid_size] is [int(np.ceil(np.sqrt(n_subzones)))];
    the binary64 square root gives the exact ceiling for every count below
    2^52. *)
Definition heatmap_grid (risk_values : list fval) : list (list fval) :=
  let n_subzones := length risk_values in
  let grid_size := Nat.sqrt_up n_subzones in
  fold_left (heatmap_step risk_values grid_size) (seq 0 n_subzones)
    (repeat (repeat F.zero grid_size) grid_size).

(** ** Notions used in the statements *)

(** The sum of the tier maxima of the ranks a list of loop items runs
    through. *)
Definition caps_of (n : nat) (items : list (nat * nat)) : Z :=
  Zsum (map (fun it => AedBalanced.tier_cap n (fst it + 1)) items).

(** One assignment of the body of the two nested loops. *)
Definition matrix_step {A} (body : nat -> nat -> option A) (m : list (list A))
    (ij : nat * nat) : list (list A) :=
  match body (fst ij) (snd ij) with
  | Some v => Matrix.set m (fst ij) (snd ij) v
  | None => m
  end.

(** The pair of positions an assignment row stands for. *)
Definition key (a : assignment) : nat * nat := (a_subzone a, a_volunteer a).

(** The reachable pairs on which a solution has value 1. *)
Definition chosen (n_subzones n_volunteers : nat)
    (distance_matrix : list (list (option Q))) (x : nat * nat -> Z) : list (nat * nat) :=
  List.filter (fun ij => x ij =? 1)
    (VolunteerSimple.valid_pairs n_subzones n_volunteers distance_matrix).

(** The reachable pairs of one subzone, and of one responder. *)
Definition row_pairs (m : nat) (dm : list (list (option Q))) (i : nat) : list (nat * nat) :=
  map (fun j => (i, j)) (List.filter (fun j => reachable dm i j) (seq 0 m)).

Definition col_pairs (n : nat) (dm : list (list (option Q))) (j : nat) : list (nat * nat) :=
  map (fun i => (i, j)) (List.filter (fun i => reachable dm i j) (seq 0 n)).

(** The columns of the input file that feature preparation reads. *)
Definition raw_input_columns : list string :=
  ["Total_Total"; "elderly_ratio"; "low_income_ratio"; "hdb_ratio"; "subzone_code"].

(** The columns among them that the arithmetic reads. *)
Definition numeric_input_columns : list string :=
  ["Total_Total"; "elderly_ratio"; "low_income_ratio"; "hdb_ratio"].

(** A column that, where the frame has it, holds finite numbers. *)
Definition finite_numeric (df : DataFrame) (c : string) : Prop :=
  forall col, columns df !! c = Some col -> exists qs, col = NumCol (map Fin qs).

(** The exception classes that the modelled pandas and numpy calls raise. *)
Definition library_exception (e : exn) : Prop :=
  match e with
  | Exn c _ => c = "KeyError" \/ c = "TypeError" \/ c = "ValueError"
  end.

(** ** Test data *)

(** Scenario A of the specification: three subzones with priority scores
    0.1, 0.5 and 0.9, two devices each. *)
Definition scenario_A : list subzone :=
  [ mkSubzone 2 (1 # 10) 1 0 0; mkSubzone 2 (5 # 10) 1 0 0; mkSubzone 2 (9 # 10) 1 0 0 ].

(** A stand-in for the geodesic distance on small areas, in metres. *)
Definition flat_distance (p q : point) : Q :=
  (111000 * (Qabs (fst p - fst q) + Qabs (snd p - snd q)))%Q.

Definition two_subzones : list subzone :=
  [ mkSubzone 3 (1 # 2) 1 (13 # 10) (1038 # 10);
    mkSubzone 1 (1 # 4) (1 # 2) (13001 # 10000) (1038 # 10) ].

Definition one_subzone : list subzone :=
  [ mkSubzone 3 (1 # 2) 1 (13 # 10) (1038 # 10) ].

Definition four_volunteers : list volunteer :=
  [ mkVolunteer (13 # 10) (1038 # 10) 1 2; mkVolunteer (13 # 10) (1038 # 10) 1 3;
    mkVolunteer (13 # 10) (1038 # 10) 1 4; mkVolunteer (13 # 10) (1038 # 10) 1 5 ].

Definition two_volunteers : list volunteer :=
  [ mkVolunteer (13 # 10) (1038 # 10) 1 2; mkVolunteer (13001 # 10000) (1038 # 10) 1 3 ].



(** A solver that reports every pair as chosen, and one that sends
    volunteer [j] to subzone [j]. *)
Definition solver_all : Lp.problem (nat * nat) -> Lp.outcome (nat * nat) :=
  fun _ => Lp.mkOutcome 1 (fun _ => 1).

Definition solver_diagonal : Lp.problem (nat * nat) -> Lp.outcome (nat * nat) :=
  fun _ => Lp.mkOutcome 1 (fun ij => if Nat.eqb (fst ij) (snd ij) then 1 else 0).

Definition frame_of (n : nat) (cols : list (string * column)) : DataFrame :=
  mkFrame n (list_to_map cols).

(** Two subzones; the column [hdb_ratio] is absent. *)
Definition frame_without_hdb : DataFrame :=
  frame_of 2
    [ ("subzone_code", StrCol ["AMSZ01"; "AMSZ02"]);
      ("Total_Total", NumCol [Fin 1000; Fin 2000]);
      ("elderly_ratio", NumCol [Fin (1 # 10); Fin (2 # 10)]);
      ("low_income_ratio", NumCol [Fin (3 # 10); Fin (1 # 10)]);
      ("volunteers_count", NumCol [Fin 4; Fin 9]);
      ("AED_count", NumCol [Fin 3; Fin 1]) ].

(** The draw of the mobility matrix for two subzones. *)
Definition od_draw : list (list Z) := [[5; 3]; [2; 7]].

(** ** Notions used in the further statements *)

(** How many of the rounds [k] of the remainder pass read position [i] at
    label [k mod n] of the order Series; [order] is [np.argsort] of the
    scores. *)
Definition hits (order : list nat) (n i : nat) (rounds : list nat) : nat :=
  length (List.filter (fun k => bool_decide (order !! (Nat.modulo k n) = Some i)) rounds).


(** ** Further test data *)

(** Three subzones whose priority scores are all zero. *)
Definition three_zero_scores : list subzone :=
  [ mkSubzone 4 0 1 0 0; mkSubzone 4 (1 # 2) 0 0 0; mkSubzone 3 0 0 0 0 ].

(** Three subzones, only the last with a positive priority score. *)
Definition one_scored_subzone : list subzone :=
  [ mkSubzone 0 0 1 0 0; mkSubzone 0 0 1 0 0; mkSubzone 0 1 1 0 0 ].

(** An assignment row names a subzone and an available responder of the
    frames, with the distance between them, which is within the radius. *)
Definition within_reach (geodesic : point -> point -> Q) (subzone_data : list subzone)
    (volunteer_data : list volunteer) (max_distance : Q) (a : assignment) : Prop :=
  exists s v,
    subzone_data !! a_subzone a = Some s /\
    volunteer_data !! a_volunteer a = Some v /\
    availability v = 1 /\
    a_distance a = geodesic (subzone_point s) (volunteer_point v) /\
    (a_distance a <= max_distance)%Q /\
    a_response_time a = response_time v.

(** The responders with [availability == 1]. *)
Definition available_count (volunteer_data : list volunteer) : nat :=
  length (List.filter (fun v => availability v =? 1) volunteer_data).

(** One available responder far from [two_subzones], and one on the spot
    who is not available. *)
Definition far_volunteers : list volunteer :=
  [ mkVolunteer 2 104 1 2; mkVolunteer (13 # 10) (1038 # 10) 0 3 ].

(** Two subzones with every column the scripts read. *)
Definition frame_complete : DataFrame :=
  frame_of 2
    [ ("subzone_code", StrCol ["AMSZ01"; "AMSZ02"]);
      ("Total_Total", NumCol [Fin 1000; Fin 2000]);
      ("elderly_ratio", NumCol [Fin (1 # 10); Fin (2 # 10)]);
      ("low_income_ratio", NumCol [Fin (3 # 10); Fin (1 # 10)]);
      ("hdb_ratio", NumCol [Fin (8 # 10); Fin (9 # 10)]);
      ("volunteers_count", NumCol [Fin 4; Fin 9]);
      ("AED_count", NumCol [Fin 3; Fin 1]) ].

(** A column without missing values, and a value that is not negative
    (NaN is neither). *)
Definition no_nan (c : column) : Prop :=
  match c with
  | NumCol v => Forall (fun x => F.is_nan x = false) v
  | StrCol _ => True
  end.

Definition not_negative (x : fval) : Prop := x = NaN \/ F.leb F.zero x = true.

(** NaN, or a number of the unit interval. *)
Definition nan_or_unit (x : fval) : Prop :=
  x = NaN \/ exists q, x = Fin q /\ (0 <= q <= 1)%Q.

(** * Properties *)

(** ** Integer and rational sums *)

Lemma Zsum_app (a b : list Z) : Zsum (a ++ b) = Zsum a + Zsum b.
Proof. induction a as [|x a IH]; simpl; lia. Qed.

Lemma Zsum_repeat (k : Z) (n : nat) : Zsum (repeat k n) = k * Z.of_nat n.
Proof. induction n as [|n IH]; simpl repeat; simpl Zsum; lia. Qed.

Lemma Zsum_zip_add (a b : list Z) :
  length a = length b -> Zsum (zip_with Z.add a b) = Zsum a + Zsum b.
Proof.
  revert b; induction a as [|x a IH]; intros [|y b] Hlen; simpl in *; try lia.
  rewrite IH by lia. lia.
Qed.

Lemma Zsum_insert (a : list Z) (i : nat) (v w : Z) :
  a !! i = Some v -> Zsum (<[i := w]> a) = Zsum a - v + w.
Proof.
  revert i; induction a as [|x a IH]; intros [|i] H; simpl in *; try discriminate.
  - injection H as ->. lia.
  - rewrite (IH _ H). lia.
Qed.

Lemma Zsum_nonneg (a : list Z) : Forall (fun x => 0 <= x) a -> 0 <= Zsum a.
Proof. induction 1; simpl; lia. Qed.

Lemma py_int_floor (q : Q) : (0 <= q)%Q -> py_int q = Qfloor q.
Proof.
  intros H. unfold py_int.
  destruct (Qle_bool 0 q) eqn:E; [reflexivity|].
  apply Qle_bool_iff in H. congruence.
Qed.

Lemma py_int_bounds (q : Q) :
  (0 <= q)%Q -> 0 <= py_int q /\ (inject_Z (py_int q) <= q)%Q.
Proof.
  intros H. rewrite (py_int_floor q H). split.
  - change 0 with (Qfloor 0). apply Qfloor_resp_le, H.
  - apply Qfloor_le.
Qed.

#[global] Instance py_int_proper : Proper (Qeq ==> eq) py_int.
Proof.
  intros a b Hab. unfold py_int.
  assert (Qle_bool 0 a = Qle_bool 0 b) as ->.
  { destruct (Qle_bool 0 a) eqn:Ea, (Qle_bool 0 b) eqn:Eb; try reflexivity.
    - apply Qle_bool_iff in Ea. rewrite Hab in Ea. apply Qle_bool_iff in Ea. congruence.
    - apply Qle_bool_iff in Eb. rewrite <- Hab in Eb. apply Qle_bool_iff in Eb. congruence. }
  destruct (Qle_bool 0 b); [apply Qfloor_comp, Hab|].
  f_equal. apply Qfloor_comp. rewrite Hab. reflexivity.
Qed.

Lemma Qsum_nonneg (l : list Q) : Forall (fun p => (0 <= p)%Q) l -> (0 <= Qsum l)%Q.
Proof. induction 1; simpl; lra. Qed.

Lemma Qsum_proper (l1 l2 : list Q) : Forall2 Qeq l1 l2 -> (Qsum l1 == Qsum l2)%Q.
Proof. induction 1 as [|x y l1 l2 Hxy _ IH]; simpl; [reflexivity|]. rewrite Hxy, IH. reflexivity. Qed.

(** ** The order of the subzones *)

Lemma insert_key_perm (x : nat * Q) (l : list (nat * Q)) :
  Permutation (Np.insert_key x l) (x :: l).
Proof.
  induction l as [|y l IH]; simpl; [reflexivity|].
  destruct (Qle_bool (snd x) (snd y)); [reflexivity|].
  rewrite IH. apply perm_swap.
Qed.

Lemma sort_keys_perm (l : list (nat * Q)) : Permutation (Np.sort_keys l) l.
Proof.
  induction l as [|x l IH]; simpl; [reflexivity|].
  rewrite insert_key_perm, IH. reflexivity.
Qed.

Lemma map_fst_combine_seq {A} (v : list A) (s : nat) :
  map fst (combine (seq s (length v)) v) = seq s (length v).
Proof.
  revert s; induction v as [|x v IH]; intros s; simpl; [reflexivity|].
  f_equal. apply IH.
Qed.

Lemma argsort_perm (v : list Q) : Permutation (Np.argsort v) (seq 0 (length v)).
Proof.
  unfold Np.argsort. rewrite <- (map_fst_combine_seq v 0%nat) at 2.
  apply Permutation_map, sort_keys_perm.
Qed.

Lemma argsort_length (v : list Q) : length (Np.argsort v) = length v.
Proof. rewrite (Permutation_length (argsort_perm v)). apply length_seq. Qed.

Lemma argsort_bound (v : list Q) (idx : nat) :
  In idx (Np.argsort v) -> (idx < length v)%nat.
Proof.
  intros H. apply (Permutation_in _ (argsort_perm v)) in H.
  apply in_seq in H. lia.
Qed.

Lemma get_loc_In (labels : list nat) (k : nat) :
  In k labels -> exists pos, Pd.get_loc labels k = Some pos /\ (pos < length labels)%nat.
Proof.
  induction labels as [|l labels IH]; simpl; [tauto|].
  intros H. destruct (Nat.eqb l k) eqn:E.
  - exists 0%nat. split; [reflexivity|lia].
  - destruct H as [H|H]; [apply Nat.eqb_neq in E; congruence|].
    destruct (IH H) as (pos & -> & Hlt). exists (S pos). split; [reflexivity|lia].
Qed.

(** The order Series built on line 87 (and on line 62 of the balanced
    script) answers every label below the number of subzones with a
    position of the allocation vector. *)
Lemma priority_indices_getitem (scores : list Q) (k : nat) :
  (k < length scores)%nat ->
  exists idx,
    Pd.getitem (Pd.reversed (Pd.argsort (Pd.of_values scores))) k = Ok idx /\
    (idx < length scores)%nat.
Proof.
  intros Hk. unfold Pd.getitem, Pd.reversed, Pd.argsort, Pd.of_values; simpl.
  destruct (get_loc_In (rev (seq 0 (length scores))) k) as (pos & -> & Hpos).
  { apply in_rev. rewrite rev_involutive. apply in_seq. lia. }
  rewrite length_rev, length_seq in Hpos.
  destruct (rev (Np.argsort scores) !! pos) as [idx|] eqn:E.
  - exists idx. split; [reflexivity|].
    apply argsort_bound, in_rev, list_elem_of_In, list_elem_of_lookup. eauto.
  - apply lookup_ge_None in E. rewrite length_rev, argsort_length in E. lia.
Qed.

Lemma priority_indices_len (scores : list Q) :
  Pd.len (Pd.reversed (Pd.argsort (Pd.of_values scores))) = length scores.
Proof. unfold Pd.len; simpl. rewrite length_rev. apply argsort_length. Qed.

(** ** Updates of the allocation vector *)

Lemma iadd_ok (a : list Z) (idx : nat) (k : Z) :
  (idx < length a)%nat ->
  exists a', Np.iadd a idx k = Ok a' /\ length a' = length a /\
             Zsum a' = Zsum a + k /\
             (forall lo, 0 <= k -> Forall (fun x => lo <= x) a -> Forall (fun x => lo <= x) a').
Proof.
  intros Hidx. unfold Np.iadd.
  destruct (a !! idx) as [v|] eqn:E.
  2:{ apply lookup_ge_None in E. lia. }
  eexists; split; [reflexivity|]. split; [apply length_insert|]. split.
  - rewrite (Zsum_insert _ _ _ _ E). lia.
  - intros lo Hk Hall. apply Forall_insert; [exact Hall|].
    assert (lo <= v); [|lia].
    rewrite Forall_forall in Hall. apply Hall, list_elem_of_lookup. eauto.
Qed.

Lemma distribute_ok (scores : list Q) (rounds : list nat) (base : list Z) :
  scores <> [] -> length base = length scores ->
  exists a,
    AedFinal.distribute (Pd.reversed (Pd.argsort (Pd.of_values scores))) rounds base = Ok a /\
    length a = length scores /\
    Zsum a = Zsum base + Z.of_nat (length rounds) /\
    (forall lo, Forall (fun x => lo <= x) base -> Forall (fun x => lo <= x) a).
Proof.
  intros Hne. revert base.
  induction rounds as [|i rounds IH]; intros base Hlen; simpl.
  - exists base. repeat split; auto. lia.
  - rewrite priority_indices_len.
    destruct (length scores) as [|m] eqn:En.
    { destruct scores; [congruence|discriminate]. }
    rewrite <- En in *.
    destruct (priority_indices_getitem scores (i `mod` length scores)%nat) as (idx & -> & Hidx).
    { apply Nat.mod_upper_bound. lia. }
    simpl. destruct (iadd_ok base idx 1) as (a' & -> & Hlen' & Hsum' & Hall'); [lia|].
    simpl. destruct (IH a') as (a & Ha & Hl & Hs & Hall); [lia|].
    exists a. split; [exact Ha|]. split; [exact Hl|]. split; [lia|].
    intros lo Hb. apply Hall, Hall'; [lia|exact Hb].
Qed.

(** ** The proportional shares *)

Lemma share_nonneg (r : Z) (S p : Q) :
  0 <= r -> (0 < S)%Q -> (0 <= p)%Q -> (0 <= inject_Z r * (p / S))%Q.
Proof.
  intros Hr HS Hp.
  apply Qmult_le_0_compat.
  - change 0%Q with (inject_Z 0). rewrite <- Zle_Qle. exact Hr.
  - apply Qle_shift_div_l; [exact HS|]. lra.
Qed.

Lemma shares_sum (r : Z) (S : Q) (l : list Q) :
  0 <= r -> (0 < S)%Q -> Forall (fun p => (0 <= p)%Q) l ->
  (inject_Z (Zsum (map (fun p => py_int (inject_Z r * (p / S))) l))
   <= inject_Z r * (Qsum l / S))%Q.
Proof.
  intros Hr HS. induction 1 as [|p l Hp _ IH]; simpl.
  - unfold Qdiv. rewrite Qmult_0_l, Qmult_0_r. apply Qle_refl.
  - rewrite inject_Z_plus.
    pose proof (py_int_bounds _ (share_nonneg r S p Hr HS Hp)) as [_ Hle].
    assert ((inject_Z r * ((p + Qsum l) / S) ==
             inject_Z r * (p / S) + inject_Z r * (Qsum l / S))%Q) as ->.
    { field. lra. }
    lra.
Qed.

Lemma proportional_allocation_length (r : Z) (S : Q) (scores : list Q) :
  length (AedFinal.proportional_allocation r S scores) = length scores.
Proof. apply length_map. Qed.

Lemma proportional_allocation_nonneg (r : Z) (S : Q) (scores : list Q) :
  0 <= r -> Forall (fun p => (0 <= p)%Q) scores ->
  Forall (fun x => 0 <= x) (AedFinal.proportional_allocation r S scores).
Proof.
  intros Hr Hall. unfold AedFinal.proportional_allocation.
  apply Forall_map. eapply Forall_impl; [exact Hall|].
  intros p Hp. simpl. destruct (Qlt_le_dec 0 S) as [HS|HS]; [|lia].
  apply py_int_bounds, share_nonneg; assumption.
Qed.

Lemma proportional_allocation_sum (r : Z) (scores : list Q) :
  0 <= r -> Forall (fun p => (0 <= p)%Q) scores ->
  Zsum (AedFinal.proportional_allocation r (Qsum scores) scores) <= r.
Proof.
  intros Hr Hall. unfold AedFinal.proportional_allocation.
  destruct (Qlt_le_dec 0 (Qsum scores)) as [HS|HS].
  - rewrite Zle_Qle. eapply Qle_trans; [apply shares_sum; assumption|].
    assert ((inject_Z r * (Qsum scores / Qsum scores) == inject_Z r)%Q) as ->.
    { field. lra. }
    apply Qle_refl.
  - assert (Zsum (map (fun _ : Q => 0) scores) = 0) as ->; [|exact Hr].
    clear. induction scores; simpl; lia.
Qed.

Lemma after_proportional_facts (total_aeds : Z) (scores : list Q) :
  Z.of_nat (length scores) <= total_aeds ->
  Forall (fun p => (0 <= p)%Q) scores ->
  length (AedFinal.after_proportional total_aeds scores) = length scores /\
  Forall (fun x => 1 <= x) (AedFinal.after_proportional total_aeds scores) /\
  Zsum (AedFinal.after_proportional total_aeds scores) <= total_aeds.
Proof.
  intros HB Hall. unfold AedFinal.after_proportional.
  set (r := total_aeds - Z.of_nat (length scores)).
  assert (0 <= r) as Hr by (unfold r; lia).
  pose proof (proportional_allocation_nonneg r (Qsum scores) scores Hr Hall) as Hnn.
  pose proof (proportional_allocation_sum r scores Hr Hall) as Hsum.
  pose proof (proportional_allocation_length r (Qsum scores) scores) as Hlen.
  split; [|split].
  - rewrite length_zip_with, repeat_length, Hlen. lia.
  - revert Hnn Hlen. generalize (AedFinal.proportional_allocation r (Qsum scores) scores).
    generalize (length scores). clear.
    intros n l Hnn. revert n. induction Hnn as [|x l Hx _ IH]; intros [|n] Hlen;
      simpl in *; try discriminate; constructor; [lia|].
    apply IH. lia.
  - rewrite Zsum_zip_add by (rewrite repeat_length, Hlen; reflexivity).
    rewrite Zsum_repeat. subst r. lia.
Qed.

(** The proportional variant hands out the whole budget. *)
Lemma allocate_total (total_aeds : Z) (scores : list Q) :
  scores <> [] ->
  Z.of_nat (length scores) <= total_aeds ->
  Forall (fun p => (0 <= p)%Q) scores ->
  exists a,
    AedFinal.allocate total_aeds scores = Ok a /\
    length a = length scores /\
    Forall (fun x => 1 <= x) a /\
    Zsum a = total_aeds.
Proof.
  intros Hne HB Hall. unfold AedFinal.allocate.
  destruct (after_proportional_facts total_aeds scores HB Hall) as (Hlen & Hge & Hsum).
  destruct (0 <? total_aeds - Zsum (AedFinal.after_proportional total_aeds scores)) eqn:E.
  - destruct (distribute_ok scores
                (seq 0 (Z.to_nat (total_aeds - Zsum (AedFinal.after_proportional total_aeds scores))))
                (AedFinal.after_proportional total_aeds scores) Hne Hlen)
      as (a & -> & Hl & Hs & Hlo).
    exists a. split; [reflexivity|]. split; [exact Hl|]. split; [apply Hlo, Hge|].
    rewrite Hs, length_seq. apply Z.ltb_lt in E. lia.
  - exists (AedFinal.after_proportional total_aeds scores).
    split; [reflexivity|]. split; [exact Hlen|]. split; [exact Hge|].
    apply Z.ltb_ge in E. lia.
Qed.

(** ** The tiered loop *)

Lemma tier_cap_pos (n rank : nat) : 1 <= AedBalanced.tier_cap n rank.
Proof.
  unfold AedBalanced.tier_cap.
  destruct (AedBalanced.rank_le rank n (2 # 10)); [lia|].
  destruct (AedBalanced.rank_le rank n (5 # 10)); lia.
Qed.

Lemma extra_aeds_min (n rank : nat) (r : Z) :
  AedBalanced.extra_aeds n rank r = Z.min r (AedBalanced.tier_cap n rank).
Proof.
  unfold AedBalanced.extra_aeds, AedBalanced.tier_cap.
  destruct (AedBalanced.rank_le rank n (2 # 10)); [reflexivity|].
  destruct (AedBalanced.rank_le rank n (5 # 10)); reflexivity.
Qed.

Lemma caps_of_nonneg (n : nat) (items : list (nat * nat)) : 0 <= caps_of n items.
Proof.
  unfold caps_of. induction items as [|it items IH]; simpl; [lia|].
  pose proof (tier_cap_pos n (fst it + 1)). lia.
Qed.

Lemma tier_loop_ok (n : nat) (items : list (nat * nat)) (base : list Z) (r : Z) :
  0 <= r ->
  Forall (fun it => (snd it < length base)%nat) items ->
  exists a r',
    AedBalanced.tier_loop n items base r = Ok (a, r') /\
    length a = length base /\
    Zsum a = Zsum base + (r - r') /\
    r' = Z.max 0 (r - caps_of n items) /\
    (forall lo, Forall (fun x => lo <= x) base -> Forall (fun x => lo <= x) a).
Proof.
  intros Hr Hval. revert base r Hr Hval.
  induction items as [|[i idx] items IH]; intros base r Hr Hval; simpl.
  - exists base, r. unfold caps_of; simpl. repeat split; auto; lia.
  - pose proof (caps_of_nonneg n items) as Hrest.
    pose proof (tier_cap_pos n (i + 1)) as Hcap.
    assert (caps_of n ((i, idx) :: items) = AedBalanced.tier_cap n (i + 1) + caps_of n items)
      as Hcaps by reflexivity.
    destruct (r <=? 0) eqn:E.
    + apply Z.leb_le in E. exists base, r. repeat split; auto; lia.
    + apply Z.leb_gt in E. inversion Hval as [|? ? Hidx Hval']; subst. simpl in Hidx.
      rewrite extra_aeds_min.
      destruct (iadd_ok base idx (Z.min r (AedBalanced.tier_cap n (i + 1))) Hidx)
        as (a' & -> & Hlen' & Hsum' & Hall').
      simpl.
      destruct (IH a' (r - Z.min r (AedBalanced.tier_cap n (i + 1)))) as (a & r' & -> & Hl & Hs & Hr' & Hall).
      { lia. }
      { rewrite Hlen'. exact Hval'. }
      exists a, r'. split; [reflexivity|]. split; [lia|]. split; [lia|]. split; [lia|].
      intros lo Hb. apply Hall, Hall'; [lia|exact Hb].
Qed.

Lemma enumerate_caps (n : nat) (l : list nat) :
  caps_of n (AedBalanced.enumerate l) =
  Zsum (map (fun i => AedBalanced.tier_cap n (i + 1)) (seq 0 (length l))).
Proof.
  unfold caps_of, AedBalanced.enumerate.
  rewrite <- (map_fst_combine_seq l 0%nat) at 2.
  rewrite map_map. reflexivity.
Qed.

Lemma enumerate_valid (l : list nat) (m : nat) :
  Forall (fun idx => (idx < m)%nat) l ->
  Forall (fun it => (snd it < m)%nat) (AedBalanced.enumerate l).
Proof.
  unfold AedBalanced.enumerate. intros H. generalize 0%nat.
  induction H as [|x l Hx _ IH]; intros s; simpl; constructor; auto.
Qed.

(** Sums and differences within the range of [int64] do not wrap. *)
Lemma int64_small (z : Z) : - 2 ^ 63 <= z < 2 ^ 63 -> int64 z = z.
Proof.
  intros Hz. unfold int64.
  assert (2 ^ 64 = 2 * 2 ^ 63) as -> by reflexivity.
  rewrite Z.mod_small by lia. lia.
Qed.

(** The tiered variant hands out the budget up to the capacity of its
    tiers. *)
Lemma balanced_total (subzone_data : list subzone) :
  let n := length subzone_data in
  let total_aeds := Zsum (map AED_count subzone_data) in
  Z.of_nat n <= total_aeds -> total_aeds < 2 ^ 63 ->
  exists a,
    AedBalanced.allocation subzone_data = Ok a /\
    length a = n /\
    Forall (fun x => 1 <= x) a /\
    Zsum a = Z.min total_aeds (Z.of_nat n + AedBalanced.tier_capacity n).
Proof.
  intros n total_aeds HB Hfit.
  assert (0 < 2 ^ 63) as Hpow by reflexivity.
  unfold AedBalanced.allocation, AedBalanced.allocation_by. fold n. fold total_aeds.
  rewrite (int64_small total_aeds) by lia.
  rewrite (int64_small (total_aeds - Z.of_nat n)) by lia.
  assert (Forall (fun x => 1 <= x) (repeat 1 n)) as Hbase.
  { clear. induction n; simpl; constructor; auto; lia. }
  assert (0 <= AedBalanced.tier_capacity n) as Hcap.
  { unfold AedBalanced.tier_capacity. apply Zsum_nonneg, Forall_map, Forall_forall.
    intros i _. pose proof (tier_cap_pos n (i + 1)). lia. }
  destruct (0 <? total_aeds - Z.of_nat n) eqn:E.
  - apply Z.ltb_lt in E.
    set (order := Pd.values (Pd.reversed (Pd.argsort (Pd.of_values (priority_scores subzone_data))))).
    assert (length order = n) as Hlen.
    { unfold order; simpl. rewrite length_rev, argsort_length.
      unfold priority_scores. apply length_map. }
    destruct (tier_loop_ok n (AedBalanced.enumerate order) (repeat 1 n) (total_aeds - Z.of_nat n))
      as (a & r' & -> & Hl & Hs & Hr' & Hall).
    { lia. }
    { apply enumerate_valid. rewrite repeat_length. apply Forall_forall.
      intros idx Hin. apply list_elem_of_In in Hin. unfold order in Hin; simpl in Hin.
      apply in_rev, argsort_bound in Hin. unfold priority_scores in Hin.
      rewrite length_map in Hin. exact Hin. }
    simpl. exists a. split; [reflexivity|].
    rewrite repeat_length in Hl. split; [exact Hl|]. split; [apply Hall, Hbase|].
    rewrite enumerate_caps, Hlen in Hr'. fold (AedBalanced.tier_capacity n) in Hr'.
    rewrite Zsum_repeat in Hs. lia.
  - apply Z.ltb_ge in E. exists (repeat 1 n). split; [reflexivity|].
    split; [apply repeat_length|]. split; [exact Hbase|].
    rewrite Zsum_repeat. lia.
Qed.

Lemma Forall_ge_weaken (a : list Z) :
  Forall (fun x => 1 <= x) a -> Forall (fun x => 0 <= x) a.
Proof. intros H. eapply Forall_impl; [exact H|]. intros; simpl in *; lia. Qed.

(** * Device allocation: totals *)

(** C1 (as amended).  For a frame with at least one subzone and
    non-negative priority scores: the proportional variant
    [final_aed_allocation], run with any budget [B] not below the number of
    subzones, returns non-negative integers that sum to [B]; the tiered
    variant [balanced_aed_allocation], whose budget is the sum of the
    [AED_count] column, returns, when that sum is below 2^63 (so that the
    [int64] sum of line 43 does not wrap around), non-negative integers
    that sum to the smaller of that budget and [n] plus the capacity of its
    tiers, so to the budget exactly when the units left after the base
    allocation fit in the tiers. *)
Theorem C1_allocation_totals (total_aeds : Z) (subzone_data : list subzone) :
  subzone_data <> [] ->
  Forall (fun s => (0 <= priority_score s)%Q) subzone_data ->
  (Z.of_nat (length subzone_data) <= total_aeds ->
   exists a,
     AedFinal.final_aed_allocation_with total_aeds subzone_data = Ok a /\
     length a = length subzone_data /\
     Forall (fun x => 0 <= x) a /\
     Zsum a = total_aeds) /\
  (Z.of_nat (length subzone_data) <= Zsum (map AED_count subzone_data) ->
   Zsum (map AED_count subzone_data) < 2 ^ 63 ->
   exists a e,
     AedBalanced.balanced_aed_allocation subzone_data = Ok (a, e) /\
     length a = length subzone_data /\
     Forall (fun x => 0 <= x) a /\
     Zsum a = Z.min (Zsum (map AED_count subzone_data))
                (Z.of_nat (length subzone_data)
                 + AedBalanced.tier_capacity (length subzone_data))).
Proof.
  intros Hne Hscores. split.
  - intros HB. unfold AedFinal.final_aed_allocation_with.
    destruct (allocate_total total_aeds (priority_scores subzone_data)) as (a & Ha & Hl & Hge & Hs).
    + destruct subzone_data; [congruence|discriminate].
    + unfold priority_scores. rewrite length_map. exact HB.
    + unfold priority_scores. apply Forall_map. exact Hscores.
    + exists a. split; [exact Ha|]. unfold priority_scores in Hl. rewrite length_map in Hl.
      split; [exact Hl|]. split; [apply Forall_ge_weaken, Hge|exact Hs].
  - intros HB Hfit.
    destruct (balanced_total subzone_data HB Hfit) as (a & Ha & Hl & Hge & Hs).
    unfold AedBalanced.balanced_aed_allocation. rewrite Ha. simpl.
    destruct a as [|x a]; [destruct subzone_data; [congruence|discriminate]|].
    eexists _, _. split; [reflexivity|].
    split; [exact Hl|]. split; [apply Forall_ge_weaken, Hge|exact Hs].
Qed.

Lemma C1_allocation_totals_witness :
  (exists a,
     AedFinal.final_aed_allocation_with 6 scenario_A = Ok a /\
     length a = 3%nat /\ Forall (fun x => 0 <= x) a /\ Zsum a = 6) /\
  (exists a e,
     AedBalanced.balanced_aed_allocation scenario_A = Ok (a, e) /\
     length a = 3%nat /\ Forall (fun x => 0 <= x) a /\
     Zsum a = Z.min 6 (3 + AedBalanced.tier_capacity 3)).
Proof.
  assert (scenario_A <> []) as Hne by discriminate.
  assert (Forall (fun s => (0 <= priority_score s)%Q) scenario_A) as Hsc.
  { repeat constructor; vm_compute; discriminate. }
  destruct (C1_allocation_totals 6 scenario_A Hne Hsc) as [Hf Hb].
  split; [apply Hf|apply Hb]; try (vm_compute; discriminate); reflexivity.
Defined.

(** One subzone holding five devices: the tiered variant returns [2]. *)
Lemma C1_tiered_counterexample :
  let d := [mkSubzone 5 (1 # 2) 1 0 0] in
  Z.of_nat (length d) <= Zsum (map AED_count d) /\
  exists a e,
    AedBalanced.balanced_aed_allocation d = Ok (a, e) /\
    Zsum a <> Zsum (map AED_count d).
Proof.
  split; [vm_compute; discriminate|].
  eexists _, _. split; [vm_compute; reflexivity|]. vm_compute. discriminate.
Qed.

(** * Scenario A *)

(** C2 (as amended).  On Scenario A (priority scores 0.1, 0.5, 0.9 and a
    budget of 6) the base allocation plus the truncated proportional shares
    [0, 1, 1] is [1, 2, 2]; one unit is left for the remainder pass, and the
    vector returned is [1, 2, 2] with that unit added to one subzone, of
    sum 6. *)
Theorem C2_scenario_A_allocation :
  AedFinal.proportional_allocation 3 (Qsum (priority_scores scenario_A))
    (priority_scores scenario_A) = [0; 1; 1] /\
  AedFinal.after_proportional 6 (priority_scores scenario_A) = [1; 2; 2] /\
  exists a k v,
    AedFinal.final_aed_allocation_with 6 scenario_A = Ok a /\
    [1; 2; 2] !! k = Some v /\
    a = <[k := v + 1]> [1; 2; 2] /\
    Zsum a = 6.
Proof.
  split; [vm_compute; reflexivity|]. split; [vm_compute; reflexivity|].
  exists [2; 2; 2], 0%nat, 1. repeat split; vm_compute; reflexivity.
Qed.

(** The vector [1, 1, 4] is not what the allocation returns on Scenario A. *)
Lemma C2_scenario_A_counterexample :
  AedFinal.final_aed_allocation_with 6 scenario_A <> Ok [1; 1; 4].
Proof. vm_compute. discriminate. Qed.

(** In binary64 arithmetic the three shares of Scenario A lie in [0, 1),
    [1, 2) and [1, 2): [int] gives [0, 1, 1] there as well. *)
#[warnings="-inexact-float"]
Lemma scenario_A_binary64_shares :
  let priority_sum := PrimFloat.add (PrimFloat.add 0.1%float 0.5%float) 0.9%float in
  let share p := AedFinal.binary64_share 3%float p priority_sum in
  (PrimFloat.leb 0%float (share 0.1%float) && PrimFloat.ltb (share 0.1%float) 1%float = true) /\
  (PrimFloat.leb 1%float (share 0.5%float) && PrimFloat.ltb (share 0.5%float) 2%float = true) /\
  (PrimFloat.leb 1%float (share 0.9%float) && PrimFloat.ltb (share 0.9%float) 2%float = true).
Proof. repeat split; vm_compute; reflexivity. Qed.

Lemma get_loc_rev_seq (n k : nat) :
  (k < n)%nat -> Pd.get_loc (rev (seq 0 n)) k = Some (n - 1 - k)%nat.
Proof.
  induction n as [|n IH]; intros Hk; [lia|].
  rewrite seq_S, rev_app_distr. simpl.
  destruct (Nat.eqb n k) eqn:E.
  - apply Nat.eqb_eq in E. subst. f_equal. lia.
  - apply Nat.eqb_neq in E. rewrite IH by lia. simpl. f_equal. lia.
Qed.

(** Line 115 reads the order Series by label: label [k] of the reversed
    Series holds the [k]-th position in increasing order of score. *)
Lemma priority_indices_by_label (scores : list Q) (k : nat) :
  (k < length scores)%nat ->
  Ok <$> (Np.argsort scores !! k) =
  Some (Pd.getitem (Pd.reversed (Pd.argsort (Pd.of_values scores))) k).
Proof.
  intros Hk. unfold Pd.getitem, Pd.reversed, Pd.argsort, Pd.of_values; simpl.
  rewrite get_loc_rev_seq by exact Hk.
  rewrite rev_alt.
  change (rev_append (Np.argsort scores) []) with (reverse (Np.argsort scores)).
  rewrite reverse_lookup by (rewrite argsort_length; lia).
  rewrite argsort_length.
  replace (length scores - S (length scores - 1 - k))%nat with k by lia.
  destruct (Np.argsort scores !! k) as [idx|] eqn:E; [reflexivity|].
  apply lookup_ge_None in E. rewrite argsort_length in E. lia.
Qed.

(** The vector the model returns on Scenario A: the unit left after the
    proportional step goes to subzone 0. *)
Lemma scenario_A_returned :
  AedFinal.final_aed_allocation_with 6 scenario_A = Ok [2; 2; 2].
Proof. vm_compute. reflexivity. Qed.

(** * Matrices filled by loops *)

Lemma matrix_get_set {A} (m : list (list A)) (i j a b : nat) (v : A) :
  Matrix.get (Matrix.set m i j v) a b =
  if decide (a = i /\ b = j) then (fun _ => v) <$> Matrix.get m a b
  else Matrix.get m a b.
Proof.
  unfold Matrix.get, Matrix.set.
  destruct (decide (a = i)) as [->|Hai].
  - rewrite list_lookup_alter_eq. destruct (m !! i) as [row|]; simpl.
    + destruct (decide (b = j)) as [->|Hbj].
      * rewrite decide_True by auto.
        destruct (row !! j) as [x|] eqn:E; simpl.
        -- apply list_lookup_insert_eq. eapply lookup_lt_Some, E.
        -- apply lookup_ge_None. rewrite length_insert. apply lookup_ge_None, E.
      * rewrite decide_False by tauto. apply list_lookup_insert_ne. congruence.
    + destruct (decide _); reflexivity.
  - rewrite decide_False by tauto. rewrite list_lookup_alter_ne by congruence. reflexivity.
Qed.

Lemma matrix_steps_get {A} (body : nat -> nat -> option A) (ps : list (nat * nat))
    (m : list (list A)) (a b : nat) (x : A) :
  Matrix.get m a b = Some x ->
  Matrix.get (fold_left (matrix_step body) ps m) a b =
  Some (if bool_decide ((a, b) ∈ ps) then default x (body a b) else x).
Proof.
  revert m x. induction ps as [|[i j] ps IH]; intros m x Hx; simpl fold_left.
  - rewrite bool_decide_eq_false_2 by apply not_elem_of_nil. exact Hx.
  - unfold matrix_step at 2; simpl fst; simpl snd.
    destruct (decide (a = i /\ b = j)) as [[-> ->]|Hne].
    + rewrite (bool_decide_eq_true_2 ((i, j) ∈ (i, j) :: ps)) by apply list_elem_of_here.
      destruct (body i j) as [v|] eqn:Eb; simpl.
      * rewrite (IH _ v).
        -- simpl. destruct (bool_decide _); reflexivity.
        -- rewrite matrix_get_set, decide_True by auto. rewrite Hx. reflexivity.
      * rewrite (IH _ x Hx). simpl. destruct (bool_decide _); reflexivity.
    + assert (Matrix.get (match body i j with
                          | Some v => Matrix.set m i j v
                          | None => m
                          end) a b = Some x) as Hx'.
      { destruct (body i j); [|exact Hx].
        rewrite matrix_get_set, decide_False by exact Hne. exact Hx. }
      rewrite (IH _ x Hx').
      f_equal. destruct (decide ((a, b) ∈ ps)) as [Hin|Hin].
      * rewrite !bool_decide_eq_true_2; [reflexivity| |exact Hin].
        apply list_elem_of_further, Hin.
      * rewrite !bool_decide_eq_false_2; [reflexivity| |exact Hin].
        intros H. apply elem_of_cons in H as [H|H]; [|tauto].
        inversion H; subst. tauto.
Qed.

Lemma inner_loop_steps {A} (k : nat) (body : nat -> nat -> option A) (i : nat)
    (m : list (list A)) :
  Matrix.inner_loop k body i m =
  fold_left (matrix_step body) (map (fun j => (i, j)) (seq 0 k)) m.
Proof.
  unfold Matrix.inner_loop. generalize (seq 0 k). intros js. revert m.
  induction js as [|j js IH]; intros m; simpl; [reflexivity|]. apply IH.
Qed.

Lemma fill_steps {A} (n k : nat) (init : A) (body : nat -> nat -> option A) :
  Matrix.fill n k init body =
  fold_left (matrix_step body)
    (flat_map (fun i => map (fun j => (i, j)) (seq 0 k)) (seq 0 n))
    (repeat (repeat init k) n).
Proof.
  unfold Matrix.fill. generalize (repeat (repeat init k) n). generalize (seq 0 n).
  intros rows. induction rows as [|i rows IH]; intros m; simpl; [reflexivity|].
  rewrite fold_left_app, <- inner_loop_steps. apply IH.
Qed.

Lemma matrix_get_repeat {A} (n k : nat) (init : A) (a b : nat) :
  (a < n)%nat -> (b < k)%nat -> Matrix.get (repeat (repeat init k) n) a b = Some init.
Proof.
  intros Ha Hb. unfold Matrix.get.
  assert (forall (X : Type) (x : X) m c, (c < m)%nat -> repeat x m !! c = Some x) as Hrep.
  { intros X x m. induction m as [|m IH]; intros [|c] Hc; simpl; try lia; auto.
    apply IH. lia. }
  rewrite (Hrep _ _ _ _ Ha). simpl. apply Hrep, Hb.
Qed.

(** After the loops, an entry holds the value the body assigns at its
    position, and the initial value where the body assigns none. *)
Lemma fill_get {A} (n k : nat) (init : A) (body : nat -> nat -> option A) (a b : nat) :
  (a < n)%nat -> (b < k)%nat ->
  Matrix.get (Matrix.fill n k init body) a b = Some (default init (body a b)).
Proof.
  intros Ha Hb. rewrite fill_steps.
  rewrite (matrix_steps_get body _ _ a b init (matrix_get_repeat n k init a b Ha Hb)).
  rewrite bool_decide_eq_true_2; [reflexivity|].
  apply list_elem_of_In, in_flat_map. exists a. split; [apply in_seq; lia|].
  apply in_map_iff. exists b. split; [reflexivity|apply in_seq; lia].
Qed.

(** * The coverage matrix *)

Lemma coverage_entry (geodesic : point -> point -> Q) (subzone_data : list subzone)
    (coverage_radius : Q) (i j : nat) :
  (i < length subzone_data)%nat -> (j < length subzone_data)%nat ->
  Matrix.get (create_coverage_matrix geodesic subzone_data coverage_radius) i j =
  Some (default 0 (coverage_body geodesic subzone_data coverage_radius i j)).
Proof. intros Hi Hj. unfold create_coverage_matrix. apply fill_get; assumption. Qed.

(** C3 (as amended).  For every subzone [i], every radius and all
    coordinates, the diagonal entry [(i, i)] of the coverage matrix is 0:
    the builder marks only pairs of distinct subzones.  An entry [(i, j)]
    with [i <> j] is 1 exactly when the distance between the two subzones
    is at most the radius. *)
Theorem C3_coverage_diagonal (geodesic : point -> point -> Q)
    (subzone_data : list subzone) (coverage_radius : Q) (i : nat) (si : subzone) :
  subzone_data !! i = Some si ->
  let matrix := create_coverage_matrix geodesic subzone_data coverage_radius in
  Matrix.get matrix i i = Some 0 /\
  covers matrix i i = false /\
  forall j sj, subzone_data !! j = Some sj -> i <> j ->
    covers matrix i j =
    Qle_bool (geodesic (subzone_point si) (subzone_point sj)) coverage_radius.
Proof.
  intros Hi matrix.
  assert (i < length subzone_data)%nat as Hlt by (eapply lookup_lt_Some, Hi).
  assert (Matrix.get matrix i i = Some 0) as Hd.
  { unfold matrix. rewrite coverage_entry by assumption.
    unfold coverage_body. rewrite bool_decide_eq_false_2 by tauto. reflexivity. }
  split; [exact Hd|]. split.
  - unfold covers. rewrite Hd. reflexivity.
  - intros j sj Hj Hne.
    assert (j < length subzone_data)%nat as Hjlt by (eapply lookup_lt_Some, Hj).
    unfold covers, matrix. rewrite coverage_entry by assumption.
    unfold coverage_body. rewrite bool_decide_eq_true_2 by exact Hne.
    rewrite Hi, Hj.
    destruct (Qle_bool _ _); reflexivity.
Qed.

Lemma C3_coverage_diagonal_witness :
  let matrix := create_coverage_matrix flat_distance two_subzones 200 in
  Matrix.get matrix 0 0 = Some 0 /\
  covers matrix 0 0 = false /\
  covers matrix 0 1 = true.
Proof.
  assert (two_subzones !! 0%nat = Some (mkSubzone 3 (1 # 2) 1 (13 # 10) (1038 # 10))) as H0
    by reflexivity.
  destruct (C3_coverage_diagonal flat_distance two_subzones 200 0 _ H0) as (Hd & Hc & Hoff).
  split; [exact Hd|]. split; [exact Hc|].
  rewrite (Hoff 1%nat (mkSubzone 1 (1 # 4) (1 # 2) (13001 # 10000) (1038 # 10)));
    [vm_compute; reflexivity|reflexivity|discriminate].
Defined.

(** A unit at subzone 0 is not recorded as covering subzone 0. *)
Lemma C3_coverage_diagonal_counterexample :
  covers (create_coverage_matrix flat_distance two_subzones 200) 0 0 <> true.
Proof. vm_compute. discriminate. Qed.

(** C10.  With a distance that is symmetric in its two endpoints, the
    coverage matrix is symmetric: the entries [(i, j)] and [(j, i)] are
    equal for every pair of subzones and every radius. *)
Theorem C10_coverage_symmetric (geodesic : point -> point -> Q)
    (subzone_data : list subzone) (coverage_radius : Q) (i j : nat) :
  (forall p q, (geodesic p q == geodesic q p)%Q) ->
  (i < length subzone_data)%nat -> (j < length subzone_data)%nat ->
  let matrix := create_coverage_matrix geodesic subzone_data coverage_radius in
  Matrix.get matrix i j = Matrix.get matrix j i /\
  covers matrix i j = covers matrix j i.
Proof.
  intros Hsym Hi Hj matrix.
  assert (Matrix.get matrix i j = Matrix.get matrix j i) as Heq.
  { unfold matrix. rewrite !coverage_entry by assumption. f_equal.
    unfold coverage_body.
    destruct (decide (i = j)) as [->|Hne]; [reflexivity|].
    rewrite !bool_decide_eq_true_2 by congruence.
    destruct (subzone_data !! i) as [si|], (subzone_data !! j) as [sj|]; try reflexivity.
    rewrite (Qleb_comp _ _ (Hsym (subzone_point si) (subzone_point sj)) _ _ (Qeq_refl _)).
    reflexivity. }
  split; [exact Heq|]. unfold covers. rewrite Heq. reflexivity.
Qed.

Lemma flat_distance_sym (p q : point) : (flat_distance p q == flat_distance q p)%Q.
Proof.
  unfold flat_distance.
  rewrite (Qabs_Qminus (fst p) (fst q)), (Qabs_Qminus (snd p) (snd q)). reflexivity.
Qed.

Lemma C10_coverage_symmetric_witness :
  let matrix := create_coverage_matrix flat_distance two_subzones 200 in
  Matrix.get matrix 0 1 = Matrix.get matrix 1 0 /\
  covers matrix 0 1 = covers matrix 1 0.
Proof.
  apply (C10_coverage_symmetric flat_distance two_subzones 200 0 1 flat_distance_sym);
    simpl; lia.
Defined.

(** * The deployment program and the solver status *)





(** * The assignment programs *)

Lemma filter_flat_map {A B} (p : B -> bool) (f : A -> list B) (l : list A) :
  List.filter p (flat_map f l) = flat_map (fun a => List.filter p (f a)) l.
Proof.
  induction l as [|a l IH]; simpl; [reflexivity|].
  rewrite List.filter_app, IH. reflexivity.
Qed.

Lemma filter_filter_comm {A} (p q : A -> bool) (l : list A) :
  List.filter p (List.filter q l) = List.filter q (List.filter p l).
Proof.
  induction l as [|a l IH]; simpl; [reflexivity|].
  destruct (p a) eqn:Ep, (q a) eqn:Eq; simpl; rewrite ?Ep, ?Eq, IH; reflexivity.
Qed.

Lemma length_filter_map {A B} (p : B -> bool) (f : A -> B) (l : list A) :
  length (List.filter p (map f l)) = length (List.filter (fun a => p (f a)) l).
Proof.
  induction l as [|a l IH]; simpl; [reflexivity|].
  destruct (p (f a)); simpl; rewrite IH; reflexivity.
Qed.

Lemma reachable_Some (dm : list (list (option Q))) (i j : nat) :
  reachable dm i j = true <-> exists d, finite_distance dm i j = Some d.
Proof.
  unfold reachable. rewrite bool_decide_eq_true. reflexivity.
Qed.

(** The rows of a frame selected by [fst = i], and the columns by
    [snd = j]. *)
Lemma row_of_pairs (r : nat -> bool) (i i' : nat) (js : list nat) :
  List.filter (fun ij => Nat.eqb (fst ij) i) (map (fun j => (i', j)) (List.filter r js)) =
  if Nat.eqb i' i then map (fun j => (i', j)) (List.filter r js) else [].
Proof.
  induction (List.filter r js) as [|j l IH]; simpl.
  - destruct (Nat.eqb i' i); reflexivity.
  - rewrite IH. destruct (Nat.eqb i' i); reflexivity.
Qed.

Ltac same_test :=
  match goal with
  | |- (if bool_decide ?P then _ else _) = (if bool_decide ?Q then _ else _) =>
      rewrite (bool_decide_ext P Q) by lia; reflexivity
  end.

Lemma valid_pairs_row (n m : nat) (dm : list (list (option Q))) (i : nat) :
  List.filter (fun ij => Nat.eqb (fst ij) i) (VolunteerSimple.valid_pairs n m dm) =
  if bool_decide (i < n)%nat then row_pairs m dm i else [].
Proof.
  unfold VolunteerSimple.valid_pairs. rewrite filter_flat_map.
  assert (forall s k,
    flat_map (fun a => List.filter (fun ij => Nat.eqb (fst ij) i)
                (map (fun j => (a, j)) (List.filter (fun j => reachable dm a j) (seq 0 m))))
      (seq s k) =
    if bool_decide (s <= i < s + k)%nat then row_pairs m dm i else []) as H.
  { intros s k. revert s. induction k as [|k IH]; intros s; simpl.
    - rewrite bool_decide_eq_false_2 by lia. reflexivity.
    - rewrite row_of_pairs, IH.
      destruct (Nat.eqb s i) eqn:E.
      + apply Nat.eqb_eq in E. subst s.
        rewrite (bool_decide_eq_false_2 (S i <= i < _)%nat) by lia.
        rewrite bool_decide_eq_true_2 by lia. rewrite app_nil_r. reflexivity.
      + apply Nat.eqb_neq in E. simpl. same_test. }
  rewrite H. same_test.
Qed.

Lemma col_of_row (r : nat -> bool) (i j : nat) (s k : nat) :
  List.filter (fun ij => Nat.eqb (snd ij) j) (map (fun j' => (i, j')) (List.filter r (seq s k))) =
  if bool_decide (s <= j < s + k)%nat && r j then [(i, j)] else [].
Proof.
  revert s. induction k as [|k IH]; intros s; simpl.
  - rewrite bool_decide_eq_false_2 by lia. reflexivity.
  - destruct (decide (s = j)) as [->|Hne].
    + assert (List.filter (fun ij => Nat.eqb (snd ij) j)
                (map (fun j' => (i, j')) (List.filter r (seq (S j) k))) = []) as Hrest.
      { rewrite IH, bool_decide_eq_false_2 by lia. reflexivity. }
      rewrite bool_decide_eq_true_2 by lia. simpl.
      destruct (r j); simpl; [rewrite Nat.eqb_refl|]; rewrite Hrest; reflexivity.
    + assert (forall l, List.filter (fun ij => Nat.eqb (snd ij) j)
                (map (fun j' => (i, j')) (if r s then s :: l else l)) =
              List.filter (fun ij => Nat.eqb (snd ij) j) (map (fun j' => (i, j')) l)) as Hskip.
      { intros l. destruct (r s); simpl; [|reflexivity].
        rewrite (proj2 (Nat.eqb_neq s j) Hne). reflexivity. }
      rewrite Hskip, IH.
      rewrite (bool_decide_ext (S s <= j < S s + k)%nat (s <= j < s + S k)%nat) by lia.
      reflexivity.
Qed.

Lemma valid_pairs_col (n m : nat) (dm : list (list (option Q))) (j : nat) :
  List.filter (fun ij => Nat.eqb (snd ij) j) (VolunteerSimple.valid_pairs n m dm) =
  if bool_decide (j < m)%nat then col_pairs n dm j else [].
Proof.
  unfold VolunteerSimple.valid_pairs, col_pairs. rewrite filter_flat_map.
  generalize (seq 0 n). intros rows.
  induction rows as [|i rows IH]; simpl.
  - destruct (bool_decide _); reflexivity.
  - rewrite col_of_row, IH.
    assert (bool_decide (0 <= j < 0 + m)%nat = bool_decide (j < m)%nat) as ->
      by (apply bool_decide_ext; lia).
    destruct (bool_decide (j < m)%nat); simpl; [|reflexivity].
    destruct (reachable dm i j); reflexivity.
Qed.

(** On binary values, counting the ones is summing. *)
Lemma ones_sum {V} (x : V -> Z) (l : list V) :
  (forall v, In v l -> x v = 0 \/ x v = 1) ->
  Z.of_nat (length (List.filter (fun v => x v =? 1) l)) = Lp.lpSum x l.
Proof.
  unfold Lp.lpSum. induction l as [|v l IH]; intros H; [reflexivity|].
  simpl map. simpl Zsum. simpl List.filter.
  rewrite <- IH by (intros w Hw; apply H; right; exact Hw).
  destruct (H v (or_introl eq_refl)) as [-> | ->]; simpl length; lia.
Qed.

Lemma chosen_row_count (n m : nat) (dm : list (list (option Q))) (x : nat * nat -> Z) (i : nat) :
  (forall v, In v (VolunteerSimple.valid_pairs n m dm) -> x v = 0 \/ x v = 1) ->
  (i < n)%nat ->
  Z.of_nat (length (List.filter (fun ij => Nat.eqb (fst ij) i) (chosen n m dm x))) =
  Lp.lpSum x (row_pairs m dm i).
Proof.
  intros Hbin Hi. unfold chosen.
  rewrite filter_filter_comm, valid_pairs_row, bool_decide_eq_true_2 by exact Hi.
  apply ones_sum. intros v Hv. apply Hbin.
  assert (In v (List.filter (fun ij => Nat.eqb (fst ij) i) (VolunteerSimple.valid_pairs n m dm))) as H.
  { rewrite valid_pairs_row, bool_decide_eq_true_2 by exact Hi. exact Hv. }
  apply List.filter_In in H. tauto.
Qed.

Lemma chosen_col_count (n m : nat) (dm : list (list (option Q))) (x : nat * nat -> Z) (j : nat) :
  (forall v, In v (VolunteerSimple.valid_pairs n m dm) -> x v = 0 \/ x v = 1) ->
  Z.of_nat (length (List.filter (fun ij => Nat.eqb (snd ij) j) (chosen n m dm x))) =
  if bool_decide (j < m)%nat then Lp.lpSum x (col_pairs n dm j) else 0.
Proof.
  intros Hbin. unfold chosen.
  rewrite filter_filter_comm, valid_pairs_col.
  destruct (bool_decide (j < m)%nat) eqn:E; [|reflexivity].
  apply ones_sum. intros v Hv. apply Hbin.
  assert (In v (List.filter (fun ij => Nat.eqb (snd ij) j) (VolunteerSimple.valid_pairs n m dm))) as H.
  { rewrite valid_pairs_col, E. exact Hv. }
  apply List.filter_In in H. tauto.
Qed.

Lemma valid_pairs_In (n m : nat) (dm : list (list (option Q))) (i j : nat) :
  In (i, j) (VolunteerSimple.valid_pairs n m dm) <->
  (i < n)%nat /\ (j < m)%nat /\ reachable dm i j = true.
Proof.
  unfold VolunteerSimple.valid_pairs. rewrite in_flat_map. split.
  - intros (i' & Hi' & Hin). apply in_map_iff in Hin as (j' & Heq & Hj').
    inversion Heq; subst. apply List.filter_In in Hj' as [Hj' Hr].
    apply in_seq in Hi'. apply in_seq in Hj'. repeat split; [lia|lia|exact Hr].
  - intros (Hi & Hj & Hr). exists i. split; [apply in_seq; lia|].
    apply in_map_iff. exists j. split; [reflexivity|].
    apply List.filter_In. split; [apply in_seq; lia|exact Hr].
Qed.

Lemma latest_keys (subzone_data : list subzone) (volunteer_data : list volunteer)
    (dm : list (list (option Q))) (x : nat * nat -> Z) :
  map key (VolunteerLatest.extract subzone_data volunteer_data dm x) =
  chosen (length subzone_data) (length volunteer_data) dm x.
Proof.
  unfold VolunteerLatest.extract, chosen, VolunteerSimple.valid_pairs.
  rewrite filter_flat_map.
  assert (forall rows, Forall (fun i => (i < length subzone_data)%nat) rows ->
    map key
      (flat_map (fun i =>
         flat_map (fun j =>
           match subzone_data !! i, volunteer_data !! j, finite_distance dm i j with
           | Some s, Some v, Some d =>
               if x (i, j) =? 1
               then [mkAssignment i j d (response_time v) (priority_score s)]
               else []
           | _, _, _ => []
           end) (seq 0 (length volunteer_data))) rows) =
    flat_map (fun i =>
      List.filter (fun ij => x ij =? 1)
        (map (fun j => (i, j))
           (List.filter (fun j => reachable dm i j) (seq 0 (length volunteer_data))))) rows) as H.
  { induction 1 as [|i rows Hi _ IH]; simpl; [reflexivity|].
    rewrite map_app, IH. f_equal.
    destruct (lookup_lt_is_Some_2 subzone_data i Hi) as [s Hs]. rewrite Hs.
    assert (Forall (fun j => (j < length volunteer_data)%nat) (seq 0 (length volunteer_data))) as Hjs.
    { apply Forall_forall. intros j Hj. apply list_elem_of_In, in_seq in Hj. lia. }
    revert Hjs. generalize (seq 0 (length volunteer_data)). intros js.
    induction 1 as [|j js Hj _ IHj]; simpl; [reflexivity|].
    rewrite map_app, IHj.
    destruct (lookup_lt_is_Some_2 volunteer_data j Hj) as [v Hv]. rewrite Hv.
    unfold reachable. destruct (finite_distance dm i j) as [d|]; simpl.
    - destruct (x (i, j) =? 1); reflexivity.
    - reflexivity. }
  apply H. apply Forall_forall. intros i Hi. apply list_elem_of_In, in_seq in Hi. lia.
Qed.

Lemma simple_keys (subzone_data : list subzone) (volunteer_data : list volunteer)
    (dm : list (list (option Q))) (x : nat * nat -> Z) :
  map key (VolunteerSimple.extract subzone_data volunteer_data dm x) =
  chosen (length subzone_data) (length volunteer_data) dm x.
Proof.
  unfold VolunteerSimple.extract, chosen.
  assert (Forall (fun ij => (fst ij < length subzone_data)%nat /\
                            (snd ij < length volunteer_data)%nat /\
                            reachable dm (fst ij) (snd ij) = true)
            (VolunteerSimple.valid_pairs (length subzone_data) (length volunteer_data) dm)) as H.
  { apply Forall_forall. intros [i j] Hin. apply list_elem_of_In, valid_pairs_In in Hin. exact Hin. }
  induction H as [|[i j] l (Hi & Hj & Hr) _ IH]; simpl in *; [reflexivity|].
  rewrite map_app, IH.
  destruct (lookup_lt_is_Some_2 subzone_data i Hi) as [s ->].
  destruct (lookup_lt_is_Some_2 volunteer_data j Hj) as [v ->].
  apply reachable_Some in Hr as [d ->].
  destruct (x (i, j) =? 1); reflexivity.
Qed.

Lemma assigned_to_subzone_keys (i : nat) (l : list assignment) :
  assigned_to_subzone i l =
  length (List.filter (fun ij => Nat.eqb (fst ij) i) (map key l)).
Proof. unfold assigned_to_subzone. rewrite length_filter_map. reflexivity. Qed.

Lemma assigned_of_volunteer_keys (j : nat) (l : list assignment) :
  assigned_of_volunteer j l =
  length (List.filter (fun ij => Nat.eqb (snd ij) j) (map key l)).
Proof. unfold assigned_of_volunteer. rewrite length_filter_map. reflexivity. Qed.

(** What feasibility gives in the program of volunteer_analysis_latest.py. *)
Lemma latest_feasible (subzone_data : list subzone) (volunteer_data : list volunteer)
    (dm : list (list (option Q))) (x : nat * nat -> Z) :
  let n := length subzone_data in
  let m := length volunteer_data in
  Lp.feasible (VolunteerLatest.assignment_problem subzone_data volunteer_data dm) x ->
  (forall v, In v (VolunteerSimple.valid_pairs n m dm) -> x v = 0 \/ x v = 1) /\
  (forall j, (j < m)%nat -> Lp.lpSum x (col_pairs n dm j) <= 1) /\
  (forall i, (i < n)%nat -> Lp.lpSum x (row_pairs m dm i) <= 3).
Proof.
  intros n m [Hcat Hcons]. simpl in Hcat, Hcons.
  apply Forall_app in Hcons as [Hvol Hsub]. split; [|split].
  - intros [i j] Hv. apply valid_pairs_In in Hv as (Hi & Hj & _).
    apply Hcat, in_flat_map. exists i. split; [apply in_seq; lia|].
    apply in_map_iff. exists j. split; [reflexivity|apply in_seq; fold m; lia].
  - intros j Hj. rewrite Forall_forall in Hvol.
    apply (Hvol (Lp.mkConstraint (col_pairs n dm j) Lp.LpConstraintLE 1)).
    apply list_elem_of_In, in_map_iff. exists j. split; [reflexivity|apply in_seq; fold m; lia].
  - intros i Hi. rewrite Forall_forall in Hsub.
    apply (Hsub (Lp.mkConstraint (row_pairs m dm i) Lp.LpConstraintLE 3)).
    apply list_elem_of_In, in_map_iff. exists i. split; [reflexivity|apply in_seq; fold n; lia].
Qed.

Lemma reachable_available (geodesic : point -> point -> Q) (subzone_data : list subzone)
    (volunteer_data : list volunteer) (max_distance : Q) (i j : nat) :
  (i < length subzone_data)%nat -> (j < length volunteer_data)%nat ->
  reachable (create_distance_matrix geodesic subzone_data volunteer_data max_distance) i j = true ->
  exists v, volunteer_data !! j = Some v /\ availability v = 1.
Proof.
  intros Hi Hj Hr. apply reachable_Some in Hr as [d Hd].
  unfold finite_distance, create_distance_matrix in Hd.
  rewrite fill_get in Hd by assumption. simpl in Hd.
  unfold distance_body in Hd.
  destruct (subzone_data !! i) as [s|]; [|discriminate].
  destruct (volunteer_data !! j) as [v|]; [|discriminate].
  destruct (availability v =? 1) eqn:E; [|discriminate].
  exists v. split; [reflexivity|apply Z.eqb_eq, E].
Qed.

(** What feasibility gives in the program of the simple script, on the
    distance matrix its [main] builds. *)
Lemma simple_feasible (geodesic : point -> point -> Q) (subzone_data : list subzone)
    (volunteer_data : list volunteer) (max_distance : Q) (x : nat * nat -> Z) :
  let n := length subzone_data in
  let m := length volunteer_data in
  let dm := create_distance_matrix geodesic subzone_data volunteer_data max_distance in
  Lp.feasible (VolunteerSimple.assignment_problem subzone_data volunteer_data dm) x ->
  (forall v, In v (VolunteerSimple.valid_pairs n m dm) -> x v = 0 \/ x v = 1) /\
  (forall j, (j < m)%nat -> Lp.lpSum x (col_pairs n dm j) <= 1).
Proof.
  intros n m dm [Hcat Hcons]. simpl in Hcat, Hcons. split; [exact Hcat|].
  intros j Hj.
  destruct (col_pairs n dm j) as [|p ps] eqn:Ecol; [unfold Lp.lpSum; simpl; lia|].
  assert (exists i, (i < n)%nat /\ reachable dm i j = true) as (i & Hi & Hr).
  { assert (In p (col_pairs n dm j)) as Hp by (rewrite Ecol; left; reflexivity).
    unfold col_pairs in Hp. apply in_map_iff in Hp as (i & _ & Hin).
    apply List.filter_In in Hin as [Hin Hr]. apply in_seq in Hin.
    exists i. split; [lia|exact Hr]. }
  destruct (reachable_available geodesic subzone_data volunteer_data max_distance i j Hi Hj Hr)
    as (v & Hv & Hav).
  rewrite Forall_forall in Hcons.
  rewrite <- Ecol.
  apply (Hcons (Lp.mkConstraint (col_pairs n dm j) Lp.LpConstraintLE 1)).
  apply list_elem_of_In, in_flat_map. exists j. split; [apply in_seq; fold m; lia|].
  rewrite Hv, Hav. simpl. fold n. fold dm. fold (col_pairs n dm j).
  rewrite Ecol. left. reflexivity.
Qed.

(** C7.  In both assignment scripts, on the distance matrix built by
    [create_distance_matrix], a feasible solution of the program sends every
    responder [j] to at most one subzone. *)
Theorem C7_responder_at_most_once (geodesic : point -> point -> Q)
    (solve : Lp.problem (nat * nat) -> Lp.outcome (nat * nat))
    (subzone_data : list subzone) (volunteer_data : list volunteer)
    (max_distance : Q) (j : nat) :
  let dm := create_distance_matrix geodesic subzone_data volunteer_data max_distance in
  let latest := VolunteerLatest.assignment_problem subzone_data volunteer_data dm in
  let simple := VolunteerSimple.assignment_problem subzone_data volunteer_data dm in
  (Lp.feasible latest (Lp.value (solve latest)) ->
   (assigned_of_volunteer j
      (VolunteerLatest.optimize_volunteer_assignment solve subzone_data volunteer_data dm)
    <= 1)%nat) /\
  ((Lp.status (solve simple) = 1 -> Lp.feasible simple (Lp.value (solve simple))) ->
   forall assignments,
     VolunteerSimple.optimize_volunteer_assignment solve subzone_data volunteer_data dm
       = Some assignments ->
     (assigned_of_volunteer j assignments <= 1)%nat).
Proof.
  intros dm latest simple. split.
  - intros Hf. apply latest_feasible in Hf as (Hbin & Hcol & _).
    unfold VolunteerLatest.optimize_volunteer_assignment. fold latest.
    rewrite assigned_of_volunteer_keys, latest_keys.
    pose proof (chosen_col_count _ _ dm _ j Hbin) as Hc.
    destruct (decide (j < length volunteer_data)%nat) as [Hj|Hj].
    + rewrite bool_decide_eq_true_2 in Hc by exact Hj.
      apply Nat2Z.inj_le. rewrite Hc. exact (Hcol j Hj).
    + rewrite bool_decide_eq_false_2 in Hc by exact Hj.
      apply Nat2Z.inj_le. rewrite Hc. discriminate.
  - intros Hsound assignments.
    unfold VolunteerSimple.optimize_volunteer_assignment. fold simple.
    destruct (Lp.status (solve simple) =? 1) eqn:E; [|discriminate].
    intros [= <-]. apply Z.eqb_eq in E.
    apply Hsound, simple_feasible in E as (Hbin & Hcol).
    rewrite assigned_of_volunteer_keys, simple_keys.
    pose proof (chosen_col_count _ _ dm _ j Hbin) as Hc.
    destruct (decide (j < length volunteer_data)%nat) as [Hj|Hj].
    + rewrite bool_decide_eq_true_2 in Hc by exact Hj.
      apply Nat2Z.inj_le. rewrite Hc. exact (Hcol j Hj).
    + rewrite bool_decide_eq_false_2 in Hc by exact Hj.
      apply Nat2Z.inj_le. rewrite Hc. discriminate.
Qed.

Ltac binary_cases H :=
  vm_compute in H;
  repeat match type of H with
         | _ \/ _ => destruct H as [H|H]
         end;
  try contradiction; subst; simpl; auto.

Lemma C7_responder_at_most_once_witness :
  let dm := create_distance_matrix flat_distance two_subzones two_volunteers 1000 in
  (assigned_of_volunteer 0
     (VolunteerLatest.optimize_volunteer_assignment solver_diagonal
        two_subzones two_volunteers dm) <= 1)%nat /\
  (forall assignments,
     VolunteerSimple.optimize_volunteer_assignment solver_diagonal
       two_subzones two_volunteers dm = Some assignments ->
     (assigned_of_volunteer 0 assignments <= 1)%nat).
Proof.
  destruct (C7_responder_at_most_once flat_distance solver_diagonal
              two_subzones two_volunteers 1000 0) as [Hlatest Hsimple].
  split.
  - apply Hlatest. split.
    + intros v Hv. binary_cases Hv.
    + repeat constructor; vm_compute; discriminate.
  - apply Hsimple. intros _. split.
    + intros v Hv. binary_cases Hv.
    + repeat constructor; vm_compute; discriminate.
Defined.

Lemma chosen_row_outside (n m : nat) (dm : list (list (option Q))) (x : nat * nat -> Z) (i : nat) :
  ~ (i < n)%nat ->
  length (List.filter (fun ij => Nat.eqb (fst ij) i) (chosen n m dm x)) = 0%nat.
Proof.
  intros Hi. unfold chosen.
  rewrite filter_filter_comm, valid_pairs_row, bool_decide_eq_false_2 by exact Hi.
  reflexivity.
Qed.

(** C4 (as amended).  In volunteer_analysis_latest.py a feasible solution of
    the program gives every subzone [i] at most 3 responders.  (The program
    of optimized_volunteer_assignment_simple.py has no constraint per
    subzone.) *)
Theorem C4_subzone_capacity (geodesic : point -> point -> Q)
    (solve : Lp.problem (nat * nat) -> Lp.outcome (nat * nat))
    (subzone_data : list subzone) (volunteer_data : list volunteer)
    (max_distance : Q) (i : nat) :
  let dm := create_distance_matrix geodesic subzone_data volunteer_data max_distance in
  let latest := VolunteerLatest.assignment_problem subzone_data volunteer_data dm in
  Lp.feasible latest (Lp.value (solve latest)) ->
  (assigned_to_subzone i
     (VolunteerLatest.optimize_volunteer_assignment solve subzone_data volunteer_data dm)
   <= 3)%nat.
Proof.
  intros dm latest Hf. apply latest_feasible in Hf as (Hbin & _ & Hrow).
  unfold VolunteerLatest.optimize_volunteer_assignment. fold latest.
  rewrite assigned_to_subzone_keys, latest_keys.
  destruct (decide (i < length subzone_data)%nat) as [Hi|Hi].
  - apply Nat2Z.inj_le. rewrite (chosen_row_count _ _ dm _ i Hbin Hi).
    exact (Hrow i Hi).
  - rewrite chosen_row_outside by exact Hi. apply Nat.le_0_l.
Qed.

Lemma C4_subzone_capacity_witness :
  (assigned_to_subzone 0
     (VolunteerLatest.optimize_volunteer_assignment solver_diagonal
        two_subzones two_volunteers
        (create_distance_matrix flat_distance two_subzones two_volunteers 1000))
   <= 3)%nat.
Proof.
  apply (C4_subzone_capacity flat_distance solver_diagonal two_subzones two_volunteers 1000 0).
  split.
  - intros v Hv. binary_cases Hv.
  - repeat constructor; vm_compute; discriminate.
Defined.

(** One subzone and four responders within reach: in the program of the
    simple script the solution that takes all four is optimal, and every
    optimal solution makes the script return four responders for the one
    subzone. *)
Lemma C4_simple_counterexample :
  let dm := create_distance_matrix flat_distance one_subzone four_volunteers 1000 in
  let prob := VolunteerSimple.assignment_problem one_subzone four_volunteers dm in
  Lp.optimal prob (Lp.value (solver_all prob)) /\
  forall solve,
    Lp.status (solve prob) = 1 ->
    Lp.optimal prob (Lp.value (solve prob)) ->
    exists assignments,
      VolunteerSimple.optimize_volunteer_assignment solve one_subzone four_volunteers dm
        = Some assignments /\
      assigned_to_subzone 0 assignments = 4%nat.
Proof.
  intros dm prob.
  assert (Lp.objective prob =
          [((0, 0), 1 # 4); ((0, 1), 1 # 6); ((0, 2), 1 # 8); ((0, 3), 1 # 10)]%nat%Q) as Hobj
    by (vm_compute; reflexivity).
  assert (Lp.variables prob = [(0, 0); (0, 1); (0, 2); (0, 3)]%nat) as Hvars
    by (vm_compute; reflexivity).
  assert (forall y, Lp.feasible prob y ->
            (y (0%nat, 0%nat) = 0 \/ y (0%nat, 0%nat) = 1) /\ (y (0%nat, 1%nat) = 0 \/ y (0%nat, 1%nat) = 1) /\
            (y (0%nat, 2%nat) = 0 \/ y (0%nat, 2%nat) = 1) /\ (y (0%nat, 3%nat) = 0 \/ y (0%nat, 3%nat) = 1)) as Hbin.
  { intros y [Hcat _]. rewrite Hvars in Hcat.
    repeat split; apply Hcat; simpl; tauto. }
  assert (Lp.feasible prob (fun _ => 1)) as Hall.
  { split.
    - intros v _. right. reflexivity.
    - repeat constructor; vm_compute; discriminate. }
  assert (forall y, Lp.objective_value prob y ==
            inject_Z (y (0%nat, 0%nat)) * (1 # 4) + (inject_Z (y (0%nat, 1%nat)) * (1 # 6)
            + (inject_Z (y (0%nat, 2%nat)) * (1 # 8)
               + (inject_Z (y (0%nat, 3%nat)) * (1 # 10) + 0))))%Q
    as Hval.
  { intros y. unfold Lp.objective_value. rewrite Hobj. reflexivity. }
  split.
  - split; [exact Hall|].
    intros y Hy. rewrite !Hval. simpl Lp.value.
    destruct (Hbin y Hy) as ([-> | ->] & [-> | ->] & [-> | ->] & [-> | ->]);
      vm_compute; discriminate.
  - intros solve Hst [Hfeas Hmax].
    specialize (Hmax _ Hall). rewrite !Hval in Hmax.
    destruct (Hbin _ Hfeas) as ([H0 | H0] & [H1 | H1] & [H2 | H2] & [H3 | H3]);
      rewrite H0, H1, H2, H3 in Hmax;
      try (exfalso; vm_compute in Hmax; apply Hmax; reflexivity).
    unfold VolunteerSimple.optimize_volunteer_assignment. fold prob.
    rewrite Hst. simpl Z.eqb. cbv iota.
    eexists. split; [reflexivity|].
    rewrite assigned_to_subzone_keys, simple_keys. unfold chosen.
    assert (VolunteerSimple.valid_pairs (length one_subzone) (length four_volunteers) dm
            = [(0, 0); (0, 1); (0, 2); (0, 3)]%nat) as -> by (vm_compute; reflexivity).
    simpl. rewrite H0, H1, H2, H3. reflexivity.
Qed.

(** * Normalisation of the risk scores *)

Lemma fmin_repeat (q : Q) (n : nat) : F.min (repeat (Fin q) (S n)) = Fin q.
Proof.
  induction n as [|n IH]; [reflexivity|].
  change (F.min (repeat (Fin q) (S (S n))))
    with (F.min2 (Fin q) (F.min (repeat (Fin q) (S n)))).
  rewrite IH. unfold F.min2; simpl. destruct (Qle_bool q q); reflexivity.
Qed.

Lemma fmax_repeat (q : Q) (n : nat) : F.max (repeat (Fin q) (S n)) = Fin q.
Proof.
  induction n as [|n IH]; [reflexivity|].
  change (F.max (repeat (Fin q) (S (S n))))
    with (F.max2 (Fin q) (F.max (repeat (Fin q) (S n)))).
  rewrite IH. unfold F.max2; simpl. destruct (Qle_bool q q); reflexivity.
Qed.

Lemma zero_over_zero (q : Q) : F.div (F.sub (Fin q) (Fin q)) (F.sub (Fin q) (Fin q)) = NaN.
Proof.
  simpl. assert (Qeq_bool (q + - q) 0 = true) as -> by (apply Qeq_bool_iff; ring).
  unfold F.sign. assert ((q + - q ?= 0)%Q = Eq) as ->; [|reflexivity].
  apply Qeq_alt. ring.
Qed.

(** When all scores are the same number, every normalised score is NaN. *)
Lemma min_max_scaled_constant (q : Q) (n : nat) :
  F.min_max_scaled (repeat (Fin q) (S n)) = repeat NaN (S n).
Proof.
  unfold F.min_max_scaled. rewrite fmin_repeat, fmax_repeat.
  generalize (S n). intros k. induction k as [|k IH]; [reflexivity|].
  cbn [repeat map]. rewrite IH, zero_over_zero. reflexivity.
Qed.

(** C6, the degenerate case on the code: three subzones with the same raw
    risk score get NaN, not 0, from both normalisation sites. *)
Theorem C6_equal_scores_give_nan :
  load_data_normalized_risk_score [Fin 5; Fin 5; Fin 5] = [NaN; NaN; NaN] /\
  predict_risk_scores_normalized [Fin 5; Fin 5; Fin 5] = [NaN; NaN; NaN].
Proof.
  split; apply (min_max_scaled_constant 5 2).
Qed.


Lemma fmax_finite (l : list Q) :
  l <> [] ->
  exists M, F.max (map Fin l) = Fin M /\ In M l /\ Forall (fun x => (x <= M)%Q) l.
Proof.
  induction l as [|a l IH]; [congruence|]. intros _.
  destruct l as [|b l].
  - exists a. split; [reflexivity|]. split; [left; reflexivity|].
    constructor; [apply Qle_refl|constructor].
  - destruct IH as (M & HM & Hin & Hall); [discriminate|].
    change (F.max (map Fin (a :: b :: l)))
      with (F.max2 (Fin a) (F.max (map Fin (b :: l)))).
    rewrite HM. unfold F.max2; simpl.
    destruct (Qle_bool a M) eqn:E.
    + apply Qle_bool_iff in E. exists M. split; [reflexivity|].
      split; [right; exact Hin|]. constructor; [exact E|exact Hall].
    + exists a. split; [reflexivity|]. split; [left; reflexivity|].
      assert (M <= a)%Q as Hle.
      { destruct (Qlt_le_dec M a) as [Hlt|Hle]; [lra|].
        apply Qle_bool_iff in Hle. congruence. }
      constructor; [apply Qle_refl|].
      eapply Forall_impl; [exact Hall|]. intros x Hx; simpl in *. lra.
Qed.


(** * Feature preparation *)

Lemma bind_Ok {A B} (m : result A) (k : A -> result B) (b : B) :
  (mbind k m) = Ok b -> exists a, m = Ok a /\ k a = Ok b.
Proof. destruct m as [a|e]; simpl; [eauto|discriminate]. Qed.

Lemma bind_Raise {A B} (m : result A) (k : A -> result B) (e : exn) :
  (mbind k m) = Raise e -> m = Raise e \/ exists a, m = Ok a /\ k a = Raise e.
Proof. destruct m as [a|e']; simpl; [eauto|]. intros [= ->]. left. reflexivity. Qed.

Lemma get_Ok (df : DataFrame) (k : string) (c : column) :
  Frame.get df k = Ok c -> columns df !! k = Some c.
Proof. unfold Frame.get. destruct (columns df !! k); [congruence|discriminate]. Qed.

Lemma get_None (df : DataFrame) (k : string) :
  columns df !! k = None -> Frame.get df k = Raise (KeyError k).
Proof. unfold Frame.get. intros ->. reflexivity. Qed.

Lemma get_num_Ok (df : DataFrame) (k : string) (v : list fval) :
  Frame.get_num df k = Ok v -> columns df !! k = Some (NumCol v).
Proof.
  unfold Frame.get_num. intros H. apply bind_Ok in H as (c & Hc & H).
  apply get_Ok in Hc. destruct c; [congruence|discriminate].
Qed.

Lemma get_raises (df : DataFrame) (k : string) (e : exn) :
  Frame.get df k = Raise e -> library_exception e.
Proof.
  unfold Frame.get. destruct (columns df !! k); [discriminate|].
  intros [= <-]. left. reflexivity.
Qed.

Lemma get_num_raises (df : DataFrame) (k : string) (e : exn) :
  Frame.get_num df k = Raise e -> library_exception e.
Proof.
  unfold Frame.get_num. intros H. apply bind_Raise in H as [H|(c & _ & H)].
  - eapply get_raises, H.
  - destruct c; [discriminate|]. injection H as <-. right. left. reflexivity.
Qed.

Lemma astype_int_raises (v : list fval) (e : exn) :
  astype_int v = Raise e -> library_exception e.
Proof.
  unfold astype_int. induction v as [|x v IH]; simpl; [discriminate|].
  intros H. apply bind_Raise in H as [H|(a & _ & H)].
  - destruct x; try discriminate; injection H as <-; right; right; reflexivity.
  - apply bind_Raise in H as [H|(l & _ & H)]; [apply IH, H|discriminate].
Qed.

Lemma select_raises (df : DataFrame) (names : list string) (e : exn) :
  Frame.select df names = Raise e -> library_exception e.
Proof.
  induction names as [|k names IH]; simpl; [discriminate|].
  intros H. apply bind_Raise in H as [H|(c & _ & H)]; [eapply get_raises, H|].
  apply bind_Raise in H as [H|(cs & _ & H)]; [apply IH, H|discriminate].
Qed.

Lemma select_absent (df : DataFrame) (names : list string) (c : string) :
  In c names -> columns df !! c = None ->
  exists k, Frame.select df names = Raise (KeyError k).
Proof.
  intros Hin Hc. induction names as [|k names IH]; [destruct Hin|]. simpl.
  destruct (Frame.get df k) as [col|e] eqn:E; simpl.
  - destruct Hin as [->|Hin].
    + apply get_Ok in E. congruence.
    + destruct (IH Hin) as (k' & ->). exists k'. reflexivity.
  - unfold Frame.get in E. destruct (columns df !! k); [discriminate|].
    injection E as <-. exists k. reflexivity.
Qed.

Tactic Notation "invert_ok" hyp(H) "as" ident(a) ident(E) :=
  apply bind_Ok in H as (a & E & H).

Ltac other_key := rewrite ?lookup_insert_ne by discriminate.

Lemma create_mobility_features_Ok (od_matrix : list (list Z)) (df df' : DataFrame) :
  RiskModel.create_mobility_features od_matrix df = Ok df' ->
  is_Some (columns df !! "Total_Total") /\
  forall c, In c raw_input_columns -> columns df' !! c = columns df !! c.
Proof.
  unfold RiskModel.create_mobility_features. intros H.
  invert_ok H as top Etop. invert_ok H as population Epop. apply get_num_Ok in Epop.
  injection H as <-. split; [eauto|].
  intros c Hc. unfold Frame.set_num, Frame.set; simpl.
  simpl in Hc. destruct Hc as [<-|[<-|[<-|[<-|[<-|[]]]]]]; other_key; reflexivity.
Qed.

Lemma create_paper_features_Ok (noise : list Q) (random_factor : list Z)
    (df df' : DataFrame) :
  RiskModel.create_paper_features noise random_factor df = Ok df' ->
  (forall c, In c ["Total_Total"; "elderly_ratio"; "low_income_ratio"; "hdb_ratio"] ->
             is_Some (columns df !! c)) /\
  columns df' !! "subzone_code" = columns df !! "subzone_code".
Proof.
  unfold RiskModel.create_paper_features. intros H.
  invert_ok H as P EP. apply get_num_Ok in EP.
  invert_ok H as E EE. apply get_num_Ok in EE.
  invert_ok H as L EL. apply get_num_Ok in EL.
  invert_ok H as HDB EHDB. apply get_num_Ok in EHDB.
  invert_ok H as counts Ecounts. invert_ok H as RE ERE.
  invert_ok H as TM ETM. invert_ok H as MI EMI.
  injection H as <-.
  unfold Frame.set_num, Frame.set in *; simpl in *.
  revert EE EL EHDB. other_key. intros EE EL EHDB.
  split.
  - intros c [<-|[<-|[<-|[<-|[]]]]]; eauto.
  - other_key. reflexivity.
Qed.

Lemma zero_fill_lookup (missing : list string) (df : DataFrame) (c : string) :
  columns (fold_left (fun df feature =>
                        Frame.set_num df feature (repeat F.zero (n_rows df)))
             missing df) !! c =
  if bool_decide (c ∈ missing) then Some (NumCol (repeat F.zero (n_rows df)))
  else columns df !! c.
Proof.
  revert df. induction missing as [|k missing IH]; intros df; cbn [fold_left].
  - rewrite bool_decide_eq_false_2 by apply not_elem_of_nil. reflexivity.
  - rewrite IH. cbn [Frame.set_num Frame.set n_rows columns].
    destruct (decide (c ∈ missing)) as [Hin|Hin].
    + rewrite !bool_decide_eq_true_2; [reflexivity| |exact Hin].
      apply list_elem_of_further, Hin.
    + rewrite (bool_decide_eq_false_2 (c ∈ missing)) by exact Hin.
      destruct (decide (k = c)) as [->|Hne].
      * rewrite bool_decide_eq_true_2 by apply list_elem_of_here.
        apply lookup_insert_eq.
      * rewrite bool_decide_eq_false_2.
        -- apply lookup_insert_ne, Hne.
        -- intros H. apply elem_of_cons in H as [H|H]; [congruence|tauto].
Qed.

Lemma has_false (df : DataFrame) (c : string) :
  columns df !! c = None -> Frame.has df c = false.
Proof.
  intros H. unfold Frame.has. rewrite H. apply bool_decide_eq_false_2.
  intros [? ?]; discriminate.
Qed.

Lemma check_features_other (df : DataFrame) (c : string) :
  ~ In c RiskModel.feature_columns ->
  columns (fst (RiskModel.check_features df)) !! c = columns df !! c.
Proof.
  intros Hc. unfold RiskModel.check_features.
  destruct (List.filter (fun c => negb (Frame.has df c)) RiskModel.feature_columns)
    as [|k missing] eqn:E; [reflexivity|].
  cbn [fst]. rewrite zero_fill_lookup, bool_decide_eq_false_2; [reflexivity|].
  intros H. apply list_elem_of_In in H. rewrite <- E in H.
  apply List.filter_In in H. tauto.
Qed.

Lemma prepare_features_raw_columns (od_matrix : list (list Z)) (noise : list Q)
    (random_factor : list Z) (df : DataFrame) (r : RiskModel.prepared) :
  RiskModel.prepare_features od_matrix noise random_factor df = Ok r ->
  forall c, In c raw_input_columns -> is_Some (columns df !! c).
Proof.
  unfold RiskModel.prepare_features. intros H.
  invert_ok H as df1 E1. invert_ok H as df2 E2.
  apply create_mobility_features_Ok in E1 as [_ Hsame].
  apply create_paper_features_Ok in E2 as [Hfour Hcode].
  destruct (RiskModel.check_features df2) as [df3 available] eqn:Echeck.
  invert_ok H as feats Efeats. invert_ok H as tgt Etgt. invert_ok H as codes Ecodes.
  apply get_Ok in Ecodes.
  assert (df3 = fst (RiskModel.check_features df2)) as -> by (rewrite Echeck; reflexivity).
  rewrite check_features_other in Ecodes.
  2:{ simpl. intros H'. repeat (destruct H' as [H'|H']; [discriminate|]). exact H'. }
  rewrite Hcode in Ecodes.
  intros c Hc. rewrite <- (Hsame c Hc).
  simpl in Hc. destruct Hc as [<-|[<-|[<-|[<-|[<-|[]]]]]];
    try (apply Hfour; simpl; tauto).
  rewrite Ecodes. eauto.
Qed.

Lemma prepare_features_raises (od_matrix : list (list Z)) (noise : list Q)
    (random_factor : list Z) (df : DataFrame) (e : exn) :
  RiskModel.prepare_features od_matrix noise random_factor df = Raise e ->
  library_exception e.
Proof.
  unfold RiskModel.prepare_features. intros H.
  apply bind_Raise in H as [H|(df1 & _ & H)].
  { unfold RiskModel.create_mobility_features in H.
    apply bind_Raise in H as [H|(top & _ & H)].
    - destruct (zip_with _ _ _); [|discriminate]. injection H as <-. right. right. reflexivity.
    - apply bind_Raise in H as [H|(p & _ & H)]; [eapply get_num_raises, H|discriminate]. }
  apply bind_Raise in H as [H|(df2 & _ & H)].
  { unfold RiskModel.create_paper_features in H.
    repeat (apply bind_Raise in H as [H|(? & _ & H)];
            [first [eapply get_num_raises, H | eapply astype_int_raises, H]|]).
    discriminate. }
  destruct (RiskModel.check_features df2) as [df3 available].
  apply bind_Raise in H as [H|(feats & _ & H)]; [eapply select_raises, H|].
  apply bind_Raise in H as [H|(tgt & _ & H)]; [eapply get_raises, H|].
  apply bind_Raise in H as [H|(codes & _ & H)]; [eapply get_raises, H|discriminate].
Qed.

Lemma load_and_prepare_data_raises (noise : list Q) (data : DataFrame) (e : exn) :
  RiskModelArea.load_and_prepare_data noise data = Raise e -> library_exception e.
Proof.
  assert (forall X k e, RiskModelArea.num_of X k = Raise e -> library_exception e) as Hnum.
  { intros X k e'. unfold RiskModelArea.num_of.
    destruct (list_find _ X) as [[? [? [?|?]]]|]; try discriminate;
      intros [= <-]; simpl; tauto. }
  unfold RiskModelArea.load_and_prepare_data. intros H.
  apply bind_Raise in H as [H|(p & _ & H)]; [eapply get_num_raises, H|].
  apply bind_Raise in H as [H|(sel & _ & H)]; [eapply select_raises, H|].
  repeat (apply bind_Raise in H as [H|(? & _ & H)]; [eapply Hnum, H|]).
  discriminate.
Qed.

Lemma load_and_prepare_data_absent (noise : list Q) (data : DataFrame) (c : string) :
  In c RiskModelArea.features -> c <> "area_weight" -> columns data !! c = None ->
  exists e, RiskModelArea.load_and_prepare_data noise data = Raise e /\ library_exception e.
Proof.
  intros Hin Hne Hc.
  destruct (RiskModelArea.load_and_prepare_data noise data) as [r|e] eqn:E.
  2:{ exists e. split; [reflexivity|]. eapply load_and_prepare_data_raises, E. }
  exfalso. unfold RiskModelArea.load_and_prepare_data in E.
  invert_ok E as population Epop. invert_ok E as selected Esel.
  destruct (select_absent
              (Frame.set_num (Frame.set_num data "population_density" population)
                 "area_weight" (map (fun p => F.div p (F.max population)) population))
              RiskModelArea.features c Hin) as (k & Hk).
  - unfold Frame.set_num, Frame.set; simpl.
    rewrite lookup_insert_ne by congruence.
    rewrite lookup_insert_ne; [exact Hc|].
    simpl in Hin. repeat (destruct Hin as [<-|Hin]; [discriminate|]). destruct Hin.
  - rewrite Hk in Esel. discriminate.
Qed.

Lemma filter_all {A} (p : A -> bool) (l : list A) :
  (forall a, In a l -> p a = true) ->
  List.filter p l = l /\ List.filter (fun a => negb (p a)) l = [].
Proof.
  induction l as [|a l IH]; intros H; [split; reflexivity|]. simpl.
  rewrite (H a) by (left; reflexivity). simpl.
  destruct IH as [-> ->]; [|split; reflexivity].
  intros b Hb. apply H. right. exact Hb.
Qed.

Lemma select_Ok (df : DataFrame) (names : list string) (cs : list (string * column)) :
  Frame.select df names = Ok cs ->
  map fst cs = names /\ Forall (fun nc => columns df !! fst nc = Some (snd nc)) cs.
Proof.
  revert cs. induction names as [|k names IH]; intros cs H; simpl in H.
  - injection H as <-. split; [reflexivity|constructor].
  - invert_ok H as c Ec. invert_ok H as rest Erest. injection H as <-.
    apply get_Ok in Ec. destruct (IH rest Erest) as [Hn Hc]. simpl.
    split; [rewrite Hn; reflexivity|]. constructor; [exact Ec|exact Hc].
Qed.

(** What [create_paper_features] leaves in the frame. *)
Lemma create_paper_features_columns (noise : list Q) (random_factor : list Z)
    (df df' : DataFrame) :
  RiskModel.create_paper_features noise random_factor df = Ok df' ->
  exists P E L HDB counts RE TM MI ohca_rate,
    columns df !! "Total_Total" = Some (NumCol P) /\
    columns df !! "elderly_ratio" = Some (NumCol E) /\
    astype_int (zip_with F.add (scale (1 # 10000) (zip_with F.mul P E))
                  (map F.of_Z random_factor)) = Ok counts /\
    columns df' =
      <["MI_i" := NumCol MI]> (<["TM_i" := NumCol TM]> (<["RE_i" := NumCol RE]> (
      <["ohca_rate" := NumCol ohca_rate]> (
      <["ohca_count" := NumCol (clip_high (Fin 1000) (clip_low F.zero (map F.of_Z counts)))]> (
      <["ED_i" := NumCol (zip_with F.mul E P)]> (
      <["V_i" := NumCol (zip_with F.add (scale (7 # 10) L) (scale (3 # 10) HDB))]> (
      <["HDB_i" := NumCol HDB]> (
      <["H_i" := NumCol (clip_low F.zero
                           (zip_with F.add (scale (1 # 1000) (zip_with F.mul P E))
                              (map Fin noise)))]> (
      <["L_i" := NumCol L]> (<["E_i" := NumCol E]> (<["P_i" := NumCol P]>
        (columns df)))))))))))).
Proof.
  unfold RiskModel.create_paper_features. intros H.
  invert_ok H as P EP. apply get_num_Ok in EP.
  invert_ok H as E EE. apply get_num_Ok in EE.
  invert_ok H as L EL. invert_ok H as HDB EHDB.
  invert_ok H as counts Ecounts. invert_ok H as RE ERE.
  invert_ok H as TM ETM. invert_ok H as MI EMI.
  injection H as <-.
  unfold Frame.set_num, Frame.set in EE. cbn [columns] in EE.
  rewrite lookup_insert_ne in EE by discriminate.
  exists P, E, L, HDB, counts, RE, TM, MI. eexists.
  split; [exact EP|]. split; [exact EE|]. split; [exact Ecounts|].
  unfold Frame.set_num, Frame.set. cbn [columns]. reflexivity.
Qed.

Lemma paper_features_present (noise : list Q) (random_factor : list Z)
    (df df' : DataFrame) :
  RiskModel.create_paper_features noise random_factor df = Ok df' ->
  forall c, In c RiskModel.feature_columns -> Frame.has df' c = true.
Proof.
  intros H c Hc. apply create_paper_features_columns in H
    as (P & E & L & HDB & counts & RE & TM & MI & rate & _ & _ & _ & Hcols).
  unfold Frame.has. rewrite Hcols. apply bool_decide_eq_true_2.
  simpl in Hc.
  repeat (destruct Hc as [<-|Hc];
          [other_key; rewrite lookup_insert_eq; eauto|]).
  destruct Hc.
Qed.

Lemma check_features_complete (df : DataFrame) :
  (forall c, In c RiskModel.feature_columns -> Frame.has df c = true) ->
  RiskModel.check_features df = (df, RiskModel.feature_columns).
Proof.
  intros H. unfold RiskModel.check_features.
  destruct (filter_all (Frame.has df) RiskModel.feature_columns H) as [-> ->].
  reflexivity.
Qed.

(** ** Which exception an absent column gives *)

Lemma get_Raise (df : DataFrame) (k : string) (e : exn) :
  Frame.get df k = Raise e -> columns df !! k = None /\ e = KeyError k.
Proof.
  unfold Frame.get. destruct (columns df !! k); [discriminate|].
  intros [= <-]. split; reflexivity.
Qed.

Lemma get_num_None (df : DataFrame) (k : string) :
  columns df !! k = None -> Frame.get_num df k = Raise (KeyError k).
Proof. intros H. unfold Frame.get_num, Frame.get. rewrite H. reflexivity. Qed.

Lemma get_num_Some (df : DataFrame) (k : string) (v : list fval) :
  columns df !! k = Some (NumCol v) -> Frame.get_num df k = Ok v.
Proof. intros H. unfold Frame.get_num, Frame.get. rewrite H. reflexivity. Qed.

Lemma get_num_set_ne (df : DataFrame) (k k' : string) (v : list fval) :
  k <> k' -> Frame.get_num (Frame.set_num df k' v) k = Frame.get_num df k.
Proof.
  intros H. unfold Frame.get_num, Frame.get, Frame.set_num, Frame.set. cbn [columns].
  rewrite lookup_insert_ne by congruence. reflexivity.
Qed.

Lemma get_num_set_eq (df : DataFrame) (k : string) (v : list fval) :
  Frame.get_num (Frame.set_num df k v) k = Ok v.
Proof.
  unfold Frame.get_num, Frame.get, Frame.set_num, Frame.set. cbn [columns].
  rewrite lookup_insert_eq. reflexivity.
Qed.

Lemma select_Raise (df : DataFrame) (names : list string) (e : exn) :
  Frame.select df names = Raise e ->
  exists k, In k names /\ columns df !! k = None /\ e = KeyError k.
Proof.
  induction names as [|k names IH]; simpl; [discriminate|].
  intros H. apply bind_Raise in H as [H|(c & _ & H)].
  - apply get_Raise in H as [Hk ->]. exists k. auto.
  - apply bind_Raise in H as [H|(cs & _ & H)]; [|discriminate].
    destruct (IH H) as (k' & Hin & Hk' & ->). exists k'. auto.
Qed.

Lemma select_present (df : DataFrame) (names : list string) :
  (forall c, In c names -> Frame.has df c = true) ->
  exists cs, Frame.select df names = Ok cs.
Proof.
  intros H. destruct (Frame.select df names) as [cs|e] eqn:E; [eauto|].
  apply select_Raise in E as (k & Hin & Hk & _).
  specialize (H k Hin). rewrite (has_false df k Hk) in H. discriminate.
Qed.

(** Arithmetic on columns of finite numbers gives finite numbers, and
    [astype(int)] accepts them. *)
Lemma zip_mul_finite (a b : list Q) :
  zip_with F.mul (map Fin a) (map Fin b) = map Fin (zip_with Qmult a b).
Proof. revert b. induction a as [|x a IH]; intros [|y b]; simpl; f_equal; auto. Qed.

Lemma zip_add_finite (a b : list Q) :
  zip_with F.add (map Fin a) (map Fin b) = map Fin (zip_with Qplus a b).
Proof. revert b. induction a as [|x a IH]; intros [|y b]; simpl; f_equal; auto. Qed.

Lemma scale_finite (k : Q) (a : list Q) :
  scale k (map Fin a) = map Fin (map (Qmult k) a).
Proof. unfold scale. induction a as [|x a IH]; simpl; f_equal; auto. Qed.

Lemma of_Z_finite (zs : list Z) : map F.of_Z zs = map Fin (map inject_Z zs).
Proof. rewrite map_map. reflexivity. Qed.

Lemma astype_int_finite (qs : list Q) : astype_int (map Fin qs) = Ok (map py_int qs).
Proof.
  unfold astype_int. induction qs as [|q qs IH]; simpl; [reflexivity|].
  rewrite IH. reflexivity.
Qed.

(** On a frame with at least one row whose numeric columns hold finite
    numbers, [create_mobility_features] completes and leaves the columns of
    the input file as they are, unless [Total_Total] is absent. *)
Lemma create_mobility_features_clean (od_matrix : list (list Z)) (df : DataFrame) :
  od_matrix <> [] -> n_rows df <> 0%nat -> finite_numeric df "Total_Total" ->
  (exists df1,
     RiskModel.create_mobility_features od_matrix df = Ok df1 /\
     (forall c, In c raw_input_columns -> columns df1 !! c = columns df !! c) /\
     (forall c, In c ["risk_exposure"; "total_mobility"; "mobility_intensity"] ->
        exists v, columns df1 !! c = Some (NumCol v))) \/
  (RiskModel.create_mobility_features od_matrix df = Raise (KeyError "Total_Total") /\
   columns df !! "Total_Total" = None).
Proof.
  intros Hod Hn Hfin. unfold RiskModel.create_mobility_features.
  destruct od_matrix as [|row od]; [congruence|].
  destruct (n_rows df) as [|n]; [congruence|].
  cbn [imap map seq zip_with mbind result_bind].
  destruct (columns df !! "Total_Total") as [col|] eqn:E.
  - destruct (Hfin col E) as (qs & ->). left.
    rewrite (get_num_Some _ _ _ E). cbn [mbind result_bind].
    eexists. split; [reflexivity|]. unfold Frame.set_num, Frame.set. cbn [columns].
    split.
    + intros c Hc. simpl in Hc.
      destruct Hc as [<-|[<-|[<-|[<-|[<-|[]]]]]]; other_key; reflexivity.
    + intros c [<-|[<-|[<-|[]]]]; other_key; rewrite lookup_insert_eq; eauto.
  - right. rewrite (get_num_None _ _ E). split; reflexivity.
Qed.

(** On such a frame [create_paper_features] completes, unless a column it
    reads is absent: then it ends with the [KeyError] of that column. *)
Lemma create_paper_features_clean (noise : list Q) (random_factor : list Z)
    (df : DataFrame) :
  (forall c, In c numeric_input_columns -> finite_numeric df c) ->
  (forall c, In c ["risk_exposure"; "total_mobility"; "mobility_intensity"] ->
     exists v, columns df !! c = Some (NumCol v)) ->
  (exists df2, RiskModel.create_paper_features noise random_factor df = Ok df2) \/
  (exists k, In k numeric_input_columns /\ columns df !! k = None /\
     RiskModel.create_paper_features noise random_factor df = Raise (KeyError k)).
Proof.
  intros Hfin Hmob. unfold RiskModel.create_paper_features.
  destruct (columns df !! "Total_Total") as [col|] eqn:EP.
  2:{ right. exists "Total_Total". rewrite (get_num_None _ _ EP).
      split; [simpl; tauto|]. split; [exact EP|reflexivity]. }
  destruct (Hfin "Total_Total" (or_introl eq_refl) col EP) as (P & ->).
  rewrite (get_num_Some _ _ _ EP). cbn [mbind result_bind].
  rewrite !get_num_set_ne by discriminate.
  destruct (columns df !! "elderly_ratio") as [col|] eqn:EE.
  2:{ right. exists "elderly_ratio". rewrite (get_num_None _ _ EE).
      split; [simpl; tauto|]. split; [exact EE|reflexivity]. }
  destruct (Hfin "elderly_ratio" (or_intror (or_introl eq_refl)) col EE) as (E & ->).
  rewrite (get_num_Some _ _ _ EE). cbn [mbind result_bind].
  rewrite !get_num_set_ne by discriminate.
  destruct (columns df !! "low_income_ratio") as [col|] eqn:EL.
  2:{ right. exists "low_income_ratio". rewrite (get_num_None _ _ EL).
      split; [simpl; tauto|]. split; [exact EL|reflexivity]. }
  destruct (Hfin "low_income_ratio" (or_intror (or_intror (or_introl eq_refl))) col EL)
    as (L & ->).
  rewrite (get_num_Some _ _ _ EL). cbn [mbind result_bind].
  rewrite !get_num_set_ne by discriminate.
  destruct (columns df !! "hdb_ratio") as [col|] eqn:EH.
  2:{ right. exists "hdb_ratio". rewrite (get_num_None _ _ EH).
      split; [simpl; tauto|]. split; [exact EH|reflexivity]. }
  destruct (Hfin "hdb_ratio" (or_intror (or_intror (or_intror (or_introl eq_refl)))) col EH)
    as (HDB & ->).
  rewrite (get_num_Some _ _ _ EH). cbn [mbind result_bind].
  cbv zeta.
  rewrite !zip_mul_finite, !scale_finite, !of_Z_finite, !zip_add_finite, astype_int_finite.
  cbn [mbind result_bind].
  rewrite !get_num_set_ne by discriminate.
  destruct (Hmob "risk_exposure") as (RE & ERE); [simpl; tauto|].
  rewrite (get_num_Some _ _ _ ERE). cbn [mbind result_bind].
  rewrite !get_num_set_ne by discriminate.
  destruct (Hmob "total_mobility") as (TM & ETM); [simpl; tauto|].
  rewrite (get_num_Some _ _ _ ETM). cbn [mbind result_bind].
  rewrite !get_num_set_ne by discriminate.
  destruct (Hmob "mobility_intensity") as (MI & EMI); [simpl; tauto|].
  rewrite (get_num_Some _ _ _ EMI). cbn [mbind result_bind].
  left. eexists. reflexivity.
Qed.

(** On a frame that has at least one row and finite numbers in its numeric
    columns, [prepare_features] completes or ends with the [KeyError] of a
    column of the input file that the frame lacks. *)
Lemma prepare_features_clean (od_matrix : list (list Z)) (noise : list Q)
    (random_factor : list Z) (df : DataFrame) :
  od_matrix <> [] -> n_rows df <> 0%nat ->
  (forall c, In c numeric_input_columns -> finite_numeric df c) ->
  (exists p, RiskModel.prepare_features od_matrix noise random_factor df = Ok p) \/
  (exists k, In k raw_input_columns /\ columns df !! k = None /\
     RiskModel.prepare_features od_matrix noise random_factor df = Raise (KeyError k)).
Proof.
  intros Hod Hn Hfin. unfold RiskModel.prepare_features.
  destruct (create_mobility_features_clean od_matrix df Hod Hn)
    as [(df1 & -> & Hsame & Hmob)|[-> Habs]].
  { apply Hfin. simpl; tauto. }
  2:{ right. exists "Total_Total". split; [simpl; tauto|]. split; [exact Habs|reflexivity]. }
  cbn [mbind result_bind].
  assert (forall c, In c numeric_input_columns -> finite_numeric df1 c) as Hfin1.
  { intros c Hc col Hcol. apply (Hfin c Hc). rewrite <- Hsame; [exact Hcol|].
    simpl in Hc |- *. tauto. }
  destruct (create_paper_features_clean noise random_factor df1 Hfin1 Hmob)
    as [(df2 & E2)|(k & Hk & Habs & ->)].
  2:{ right. exists k. split; [simpl in Hk |- *; tauto|]. split; [|reflexivity].
      rewrite <- Hsame; [exact Habs|]. simpl in Hk |- *. tauto. }
  rewrite E2. cbn [mbind result_bind].
  pose proof (paper_features_present _ _ _ _ E2) as Hall.
  rewrite (check_features_complete df2 Hall).
  destruct (select_present df2 RiskModel.feature_columns Hall) as (feats & ->).
  cbn [mbind result_bind].
  pose proof E2 as Hcols. apply create_paper_features_columns in Hcols
    as (P & E & L & HDB & counts & RE & TM & MI & rate & _ & _ & _ & Hcols).
  assert (exists tgt, Frame.get df2 "ohca_count" = Ok tgt) as (tgt & ->).
  { unfold Frame.get. rewrite Hcols. other_key. rewrite lookup_insert_eq. eauto. }
  cbn [mbind result_bind].
  apply create_paper_features_Ok in E2 as [_ Hcode].
  assert (Frame.get df2 "subzone_code" =
          match columns df !! "subzone_code" with
          | Some codes => Ok codes
          | None => Raise (KeyError "subzone_code")
          end) as ->.
  { unfold Frame.get. rewrite Hcode, (Hsame "subzone_code") by (simpl; tauto). reflexivity. }
  destruct (columns df !! "subzone_code") as [codes|] eqn:Ec.
  - left. eexists. reflexivity.
  - right. exists "subzone_code". split; [simpl; tauto|]. split; [exact Ec|reflexivity].
Qed.

(** [load_and_prepare_data] on a frame that lacks one of its feature
    columns, and whose [Total_Total] is not a column of strings, ends with
    the [KeyError] of a feature column the frame lacks. *)
Lemma load_and_prepare_data_KeyError (noise : list Q) (data : DataFrame) (c : string) :
  In c RiskModelArea.features -> c <> "area_weight" -> columns data !! c = None ->
  (forall v, columns data !! "Total_Total" <> Some (StrCol v)) ->
  exists k, In k RiskModelArea.features /\ columns data !! k = None /\
    RiskModelArea.load_and_prepare_data noise data = Raise (KeyError k).
Proof.
  intros Hin Hne Hc Hstr. unfold RiskModelArea.load_and_prepare_data.
  destruct (columns data !! "Total_Total") as [[population|v]|] eqn:EP.
  - rewrite (get_num_Some _ _ _ EP). cbn [mbind result_bind].
    set (data2 := Frame.set_num (Frame.set_num data "population_density" population)
                    "area_weight" (map (fun p => F.div p (F.max population)) population)).
    destruct (Frame.select data2 RiskModelArea.features) as [selected|e] eqn:Esel.
    + exfalso. destruct (select_absent data2 RiskModelArea.features c Hin) as (k & Hk).
      * unfold data2, Frame.set_num, Frame.set; simpl.
        rewrite lookup_insert_ne by congruence.
        rewrite lookup_insert_ne; [exact Hc|].
        simpl in Hin. repeat (destruct Hin as [<-|Hin]; [discriminate|]). destruct Hin.
      * rewrite Hk in Esel. discriminate.
    + apply select_Raise in Esel as (k & Hk & Habs & ->).
      exists k. split; [exact Hk|]. split; [|reflexivity].
      unfold data2, Frame.set_num, Frame.set in Habs; simpl in Habs.
      apply lookup_insert_None in Habs as [Habs _].
      apply lookup_insert_None in Habs as [Habs _]. exact Habs.
  - exfalso. apply (Hstr v). reflexivity.
  - exists "Total_Total". rewrite (get_num_None _ _ EP).
    split; [simpl; tauto|]. split; [exact EP|reflexivity].
Qed.

(** C8 (as amended).  Feature preparation has no [DataError]: on a frame
    that lacks a column of the input file it reads, [prepare_features] ends
    with an exception of pandas or numpy and returns nothing, and on a frame
    that is well-formed otherwise (at least one row, finite numbers in the
    numeric columns it has) that exception is the [KeyError] of a column the
    frame lacks; [load_and_prepare_data] on a frame that lacks one of its
    feature columns likewise ends with an exception, the [KeyError] of a
    feature column the frame lacks when [Total_Total] is not a column of
    strings.  The check of the feature list inside [prepare_features]
    raises nothing: after [create_paper_features] the ten features are all
    there, and the check returns the frame as it is with the full list. *)
Theorem C8_absent_columns :
  (forall od_matrix noise random_factor df c,
     In c raw_input_columns -> columns df !! c = None ->
     (exists e, RiskModel.prepare_features od_matrix noise random_factor df = Raise e /\
                library_exception e) /\
     (od_matrix <> [] -> n_rows df <> 0%nat ->
      (forall c', In c' numeric_input_columns -> finite_numeric df c') ->
      exists k, In k raw_input_columns /\ columns df !! k = None /\
        RiskModel.prepare_features od_matrix noise random_factor df = Raise (KeyError k))) /\
  (forall noise data c,
     In c RiskModelArea.features -> c <> "area_weight" -> columns data !! c = None ->
     (exists e, RiskModelArea.load_and_prepare_data noise data = Raise e /\
                library_exception e) /\
     ((forall v, columns data !! "Total_Total" <> Some (StrCol v)) ->
      exists k, In k RiskModelArea.features /\ columns data !! k = None /\
        RiskModelArea.load_and_prepare_data noise data = Raise (KeyError k))) /\
  (forall noise random_factor df df',
     RiskModel.create_paper_features noise random_factor df = Ok df' ->
     RiskModel.check_features df' = (df', RiskModel.feature_columns)).
Proof.
  split; [|split].
  - intros od_matrix noise random_factor df c Hin Hc. split.
    + destruct (RiskModel.prepare_features od_matrix noise random_factor df) as [r|e] eqn:E.
      * destruct (prepare_features_raw_columns _ _ _ _ _ E c Hin) as [col Hcol]. congruence.
      * exists e. split; [reflexivity|]. eapply prepare_features_raises, E.
    + intros Hod Hn Hfin.
      destruct (prepare_features_clean od_matrix noise random_factor df Hod Hn Hfin)
        as [(p & E)|H]; [|exact H].
      destruct (prepare_features_raw_columns _ _ _ _ _ E c Hin) as [col Hcol]. congruence.
  - intros noise data c Hin Hne Hc. split.
    + apply (load_and_prepare_data_absent noise data c Hin Hne Hc).
    + apply (load_and_prepare_data_KeyError noise data c Hin Hne Hc).
  - intros noise random_factor df df' E.
    apply check_features_complete, (paper_features_present _ _ _ _ E).
Qed.

Lemma C8_absent_columns_witness :
  (exists k, In k raw_input_columns /\ columns frame_without_hdb !! k = None /\
     RiskModel.prepare_features od_draw [0; 0]%Q [5; 4] frame_without_hdb
       = Raise (KeyError k)) /\
  (exists k, In k RiskModelArea.features /\ columns frame_without_hdb !! k = None /\
     RiskModelArea.load_and_prepare_data [0; 0]%Q frame_without_hdb = Raise (KeyError k)).
Proof.
  destruct C8_absent_columns as (Hprep & Hload & _).
  split.
  - destruct (Hprep od_draw [0; 0]%Q [5; 4] frame_without_hdb "hdb_ratio") as [_ Hkey];
      [simpl; tauto|vm_compute; reflexivity|].
    apply Hkey; [discriminate|discriminate|].
    intros c' [<-|[<-|[<-|[<-|[]]]]] col Hcol; vm_compute in Hcol;
      try discriminate Hcol; injection Hcol as <-.
    + exists [1000; 2000]%Q. reflexivity.
    + exists [1 # 10; 2 # 10]%Q. reflexivity.
    + exists [3 # 10; 1 # 10]%Q. reflexivity.
  - destruct (Hload [0; 0]%Q frame_without_hdb "hdb_ratio") as [_ Hkey];
      [simpl; tauto|discriminate|vm_compute; reflexivity|].
    apply Hkey. intros v Hv. vm_compute in Hv. discriminate Hv.
Defined.

(** A frame without [hdb_ratio] ends both preparation functions with a
    [KeyError], which is not a [DataError]. *)
Lemma C8_absent_columns_counterexample :
  columns frame_without_hdb !! "hdb_ratio" = None /\
  raised_class (RiskModel.prepare_features od_draw [0; 0]%Q [5; 4] frame_without_hdb)
    = Some "KeyError" /\
  raised_class (RiskModelArea.load_and_prepare_data [0; 0]%Q frame_without_hdb)
    = Some "KeyError" /\
  "KeyError" <> "DataError".
Proof.
  repeat split; try (vm_compute; reflexivity). discriminate.
Qed.


(** * Further properties of the device allocations *)

Lemma lookup_map {A B} (f : A -> B) (l : list A) (i : nat) :
  map f l !! i = f <$> l !! i.
Proof.
  revert i. induction l as [|x l IH]; intros [|i]; simpl; auto.
Qed.

Lemma lookup_repeat {A} (x : A) (n i : nat) :
  (i < n)%nat -> repeat x n !! i = Some x.
Proof.
  revert i. induction n as [|n IH]; intros [|i] Hi; simpl; try lia; auto.
  apply IH. lia.
Qed.

Lemma iadd_lookup (a a' : list Z) (idx : nat) (k : Z) (j : nat) :
  Np.iadd a idx k = Ok a' ->
  a' !! j = (fun v => if decide (j = idx) then v + k else v) <$> a !! j.
Proof.
  unfold Np.iadd. destruct (a !! idx) as [v|] eqn:E; [|discriminate].
  intros [= <-]. destruct (decide (j = idx)) as [->|Hne].
  - rewrite E. simpl. apply list_lookup_insert_eq. eapply lookup_lt_Some, E.
  - rewrite list_lookup_insert_ne by congruence.
    destruct (a !! j); reflexivity.
Qed.

(** Line 115 reads the order Series by label: label [k] of the reversed
    Series holds the [k]-th position of the sort output. *)
Lemma order_by_label (order : list nat) (k idx : nat) :
  order !! k = Some idx ->
  Pd.getitem (Pd.reversed (Pd.of_values order)) k = Ok idx.
Proof.
  intros Hk. pose proof (lookup_lt_Some _ _ _ Hk) as Hlt.
  unfold Pd.getitem, Pd.reversed, Pd.of_values; simpl.
  rewrite get_loc_rev_seq by exact Hlt.
  rewrite rev_alt. change (rev_append order []) with (reverse order).
  rewrite reverse_lookup by lia.
  replace (length order - S (length order - 1 - k))%nat with k by lia.
  rewrite Hk. reflexivity.
Qed.

Lemma distribute_step (priority_indices : Pd.Series nat) (k : nat) (rest : list nat)
    (base : list Z) :
  Pd.len priority_indices <> 0%nat ->
  AedFinal.distribute priority_indices (k :: rest) base =
  (idx ← Pd.getitem priority_indices (k `mod` Pd.len priority_indices)%nat;
   a ← Np.iadd base idx 1;
   AedFinal.distribute priority_indices rest a).
Proof.
  intros H. cbn [AedFinal.distribute].
  destruct (Pd.len priority_indices) eqn:E; [congruence|reflexivity].
Qed.

(** The rounds of the remainder pass, position by position: a subzone
    gains one unit for every round that reads its position. *)
Lemma remainder_rounds (order : list nat) (rounds : list nat) (base : list Z) :
  order <> [] -> Forall (fun idx => (idx < length base)%nat) order ->
  exists a,
    AedFinal.distribute (Pd.reversed (Pd.of_values order)) rounds base = Ok a /\
    length a = length base /\
    forall i,
      a !! i = (fun v => v + Z.of_nat (hits order (length order) i rounds)) <$> base !! i.
Proof.
  intros Hne Hval. revert base Hval.
  induction rounds as [|k rounds IH]; intros base Hval.
  - exists base. split; [reflexivity|]. split; [reflexivity|].
    intros i. unfold hits; simpl. destruct (base !! i); simpl; f_equal; lia.
  - assert (Pd.len (Pd.reversed (Pd.of_values order)) = length order) as Hlen
      by (unfold Pd.len; simpl; apply length_rev).
    assert (k `mod` length order < length order)%nat as Hk.
    { apply Nat.mod_upper_bound. destruct order; [congruence|discriminate]. }
    destruct (lookup_lt_is_Some_2 order _ Hk) as [idx Hidx].
    assert (idx < length base)%nat as Hlt.
    { rewrite Forall_forall in Hval. apply Hval, list_elem_of_lookup. eauto. }
    destruct (iadd_ok base idx 1 Hlt) as (a1 & E1 & Hlen1 & _).
    destruct (IH a1) as (a & Ha & Hl & Hlook); [rewrite Hlen1; exact Hval|].
    exists a. split; [|split; [lia|]].
    + rewrite distribute_step by (rewrite Hlen; lia). rewrite Hlen.
      rewrite (order_by_label order _ idx Hidx). simpl. rewrite E1. simpl. exact Ha.
    + intros i. rewrite Hlook, (iadd_lookup _ _ _ _ i E1).
      unfold hits. simpl List.filter. rewrite Hidx.
      destruct (base !! i) as [v|]; [|reflexivity]. simpl. f_equal.
      destruct (decide (i = idx)) as [->|Hneq].
      * rewrite bool_decide_eq_true_2 by reflexivity. simpl length. lia.
      * rewrite bool_decide_eq_false_2 by congruence. lia.
Qed.

(** The allocation of the proportional variant is the remainder pass run
    on the order and the shares of this file. *)
Lemma allocate_remainder_pass (total_aeds : Z) (scores : list Q) :
  AedFinal.allocate total_aeds scores =
  AedFinal.remainder_pass total_aeds (Np.argsort scores)
    (AedFinal.after_proportional total_aeds scores).
Proof.
  unfold AedFinal.allocate, AedFinal.remainder_pass, Pd.argsort, Pd.of_values.
  simpl. rewrite argsort_length. reflexivity.
Qed.

Lemma permutation_positions (order : list nat) (n : nat) :
  Permutation order (seq 0 n) ->
  length order = n /\ NoDup order /\ Forall (fun idx => (idx < n)%nat) order.
Proof.
  intros Hperm. split; [|split].
  - rewrite (Permutation_length Hperm). apply length_seq.
  - rewrite Hperm. apply NoDup_seq.
  - apply Forall_forall. intros idx Hin. apply list_elem_of_In in Hin.
    apply (Permutation_in _ Hperm), in_seq in Hin. lia.
Qed.

(** X1.  The remainder pass of [final_aed_allocation] (lines 106-116), for
    whatever order [np.argsort] gave the subzones and whatever the vector
    after the proportional step is: it completes, and round [k] adds one
    unit to the subzone at position [k mod n] of the sort output, that is
    in increasing order of score, because [priority_indices[k % n]] looks
    [k % n] up among the labels of the reversed Series. *)
Theorem remainder_pass_entries (total_aeds : Z) (order : list nat)
    (base_allocation : list Z) :
  base_allocation <> [] ->
  Permutation order (seq 0 (length base_allocation)) ->
  let n := length base_allocation in
  let left := Z.to_nat (total_aeds - Zsum base_allocation) in
  exists a,
    AedFinal.remainder_pass total_aeds order base_allocation = Ok a /\
    length a = n /\
    forall i,
      a !! i = (fun v => v + Z.of_nat (hits order n i (seq 0 left))) <$> base_allocation !! i.
Proof.
  intros Hne Hperm n left.
  destruct (permutation_positions order n Hperm) as (Hlen & _ & Hval).
  assert (order <> []) as Hne'.
  { intros ->. simpl in Hlen. unfold n in Hlen. destruct base_allocation; [congruence|discriminate]. }
  unfold AedFinal.remainder_pass.
  destruct (0 <? total_aeds - Zsum base_allocation) eqn:E.
  - destruct (remainder_rounds order (seq 0 left) base_allocation Hne' Hval)
      as (a & Ha & Hl & Hlook).
    exists a. split; [exact Ha|]. split; [exact Hl|].
    intros i. rewrite Hlook, Hlen. reflexivity.
  - apply Z.ltb_ge in E. exists base_allocation. split; [reflexivity|]. split; [reflexivity|].
    intros i. replace left with 0%nat by (unfold left; lia).
    unfold hits; simpl. destruct (base_allocation !! i); simpl; f_equal; lia.
Qed.

Lemma remainder_pass_entries_witness :
  exists a,
    AedFinal.remainder_pass 6 [2; 0; 1]%nat [1; 2; 2] = Ok a /\
    a !! 2%nat = Some (2 + 1) /\ a !! 0%nat = Some (1 + 0).
Proof.
  destruct (remainder_pass_entries 6 [2; 0; 1]%nat [1; 2; 2]) as (a & Ha & _ & Hlook).
  - discriminate.
  - simpl. apply (Permutation_cons_app [0; 1]%nat [] 2%nat). reflexivity.
  - exists a. split; [exact Ha|]. split; [exact (Hlook 2%nat)|exact (Hlook 0%nat)].
Defined.

(** X2.  [final_aed_allocation] gives every subzone at least one device
    (line 76), when the budget is not below the number of subzones and the
    scores are not negative. *)
Theorem final_allocation_at_least_one (total_aeds : Z) (subzone_data : list subzone) :
  subzone_data <> [] ->
  Forall (fun s => (0 <= priority_score s)%Q) subzone_data ->
  Z.of_nat (length subzone_data) <= total_aeds ->
  exists a,
    AedFinal.final_aed_allocation_with total_aeds subzone_data = Ok a /\
    Forall (fun x => 1 <= x) a.
Proof.
  intros Hne Hscores HB. unfold AedFinal.final_aed_allocation_with.
  destruct (allocate_total total_aeds (priority_scores subzone_data)) as (a & Ha & _ & Hge & _).
  - destruct subzone_data; [congruence|discriminate].
  - unfold priority_scores. rewrite length_map. exact HB.
  - unfold priority_scores. apply Forall_map. exact Hscores.
  - exists a. split; assumption.
Qed.

Lemma final_allocation_at_least_one_witness :
  exists a,
    AedFinal.final_aed_allocation_with 6 scenario_A = Ok a /\
    Forall (fun x => 1 <= x) a.
Proof.
  apply (final_allocation_at_least_one 6 scenario_A).
  - discriminate.
  - repeat constructor; vm_compute; discriminate.
  - vm_compute; discriminate.
Defined.

(** X3.  An empty frame with a positive budget ends [final_aed_allocation]
    with a [ZeroDivisionError], at [i % len(priority_indices)] of line 115;
    so does the script's own budget of 6613. *)
Theorem final_allocation_empty_frame (total_aeds : Z) :
  0 < total_aeds ->
  AedFinal.final_aed_allocation_with total_aeds [] = Raise ZeroDivisionError.
Proof.
  intros HB. unfold AedFinal.final_aed_allocation_with, AedFinal.allocate,
    AedFinal.after_proportional; simpl.
  rewrite !Z.sub_0_r.
  destruct (0 <? total_aeds) eqn:E; [|apply Z.ltb_ge in E; lia].
  destruct (Z.to_nat total_aeds) as [|m] eqn:Em; [lia|]. reflexivity.
Qed.

Lemma final_allocation_empty_frame_witness :
  AedFinal.final_aed_allocation [] = Raise ZeroDivisionError.
Proof.
  apply (final_allocation_empty_frame AedFinal.total_aeds). reflexivity.
Defined.

Lemma py_int_neg_bounds (q : Q) :
  (q <= 0)%Q -> (q <= inject_Z (py_int q))%Q /\ py_int q <= 0.
Proof.
  intros Hq. unfold py_int. destruct (Qle_bool 0 q) eqn:E.
  - apply Qle_bool_iff in E. assert (q == 0)%Q as H0 by lra.
    rewrite (Qfloor_comp _ _ H0). change (Qfloor 0) with 0.
    change (inject_Z 0) with 0%Q. split; [exact Hq|lia].
  - pose proof (Qfloor_le (- q)) as Hfl.
    assert (0 <= Qfloor (- q)) as Hnn.
    { change 0 with (Qfloor 0). apply Qfloor_resp_le. lra. }
    split; [|lia]. rewrite inject_Z_opp. lra.
Qed.

Lemma py_int_mono (a b : Q) : (a <= b)%Q -> py_int a <= py_int b.
Proof.
  intros Hab.
  destruct (Qlt_le_dec a 0) as [Ha|Ha], (Qlt_le_dec b 0) as [Hb|Hb].
  - unfold py_int.
    assert (Qle_bool 0 a = false) as ->.
    { destruct (Qle_bool 0 a) eqn:E; [apply Qle_bool_iff in E; lra|reflexivity]. }
    assert (Qle_bool 0 b = false) as ->.
    { destruct (Qle_bool 0 b) eqn:E; [apply Qle_bool_iff in E; lra|reflexivity]. }
    assert (Qfloor (- b) <= Qfloor (- a)) by (apply Qfloor_resp_le; lra). lia.
  - pose proof (py_int_neg_bounds a) as [_ H1]; [lra|].
    pose proof (py_int_bounds b Hb) as [H2 _]. lia.
  - lra.
  - rewrite (py_int_floor a Ha), (py_int_floor b Hb). apply Qfloor_resp_le, Hab.
Qed.

Lemma Qsum_zero (scores : list Q) :
  Forall (fun p => (p == 0)%Q) scores -> (Qsum scores == 0)%Q.
Proof. induction 1 as [|p l Hp _ IH]; simpl; [reflexivity|]. rewrite Hp, IH. reflexivity. Qed.

Lemma after_proportional_zero (total_aeds : Z) (scores : list Q) :
  Forall (fun p => (p == 0)%Q) scores ->
  AedFinal.after_proportional total_aeds scores = repeat 1 (length scores).
Proof.
  intros H. unfold AedFinal.after_proportional, AedFinal.proportional_allocation.
  pose proof (Qsum_zero scores H) as HS.
  destruct (Qlt_le_dec 0 (Qsum scores)) as [Hlt|_]; [lra|].
  clear. induction scores as [|p l IH]; simpl; [reflexivity|]. f_equal. exact IH.
Qed.

(** Rounds 0 .. r-1 taken modulo [n]: position [i] is read [r / n] times,
    and once more when [i < r mod n]. *)
Lemma hits_round_robin (n i r : nat) :
  (i < n)%nat ->
  hits (seq 0 n) n i (seq 0 r) = (r / n + (if (i <? r mod n)%nat then 1 else 0))%nat.
Proof.
  intros Hi. assert (n <> 0)%nat as Hn by lia. unfold hits.
  induction r as [|r IH].
  - simpl. rewrite Nat.Div0.div_0_l, Nat.Div0.mod_0_l.
    destruct (i <? 0)%nat eqn:E; [apply Nat.ltb_lt in E; lia|reflexivity].
  - rewrite seq_S, List.filter_app, length_app, IH. simpl List.filter.
    pose proof (Nat.div_mod_eq r n) as Hr.
    pose proof (Nat.mod_upper_bound r n Hn) as Hm.
    rewrite lookup_seq_lt by exact Hm. simpl.
    destruct (decide (S (r mod n) = n)) as [Hwrap|Hwrap].
    + assert (S r = (r / n + 1) * n + 0)%nat as Hs by nia.
      assert (S r / n = r / n + 1)%nat as ->
        by (symmetry; apply (Nat.div_unique (S r) n (r / n + 1)%nat 0%nat); [lia|nia]).
      assert (S r mod n = 0)%nat as ->
        by (symmetry; apply (Nat.mod_unique (S r) n (r / n + 1)%nat 0%nat); [lia|nia]).
      destruct (decide ((r mod n)%nat = i)) as [Heq|Hne].
      * rewrite bool_decide_eq_true_2 by congruence.
        destruct (i <? r mod n)%nat eqn:E1; [apply Nat.ltb_lt in E1; lia|].
        simpl. destruct (i <? 0)%nat eqn:E2; [apply Nat.ltb_lt in E2; lia|]. lia.
      * rewrite bool_decide_eq_false_2 by congruence.
        destruct (i <? r mod n)%nat eqn:E1; [|apply Nat.ltb_ge in E1; lia].
        simpl. destruct (i <? 0)%nat eqn:E2; [apply Nat.ltb_lt in E2; lia|]. lia.
    + assert (S r / n = r / n)%nat as ->
        by (symmetry; apply (Nat.div_unique (S r) n (r / n)%nat (S (r mod n))); [lia|nia]).
      assert (S r mod n = S (r mod n))%nat as ->
        by (symmetry; apply (Nat.mod_unique (S r) n (r / n)%nat (S (r mod n))); [lia|nia]).
      destruct (decide ((r mod n)%nat = i)) as [Heq|Hne].
      * rewrite bool_decide_eq_true_2 by congruence.
        destruct (i <? r mod n)%nat eqn:E1; [apply Nat.ltb_lt in E1; lia|].
        destruct (i <? S (r mod n))%nat eqn:E2; [|apply Nat.ltb_ge in E2; lia].
        simpl. lia.
      * rewrite bool_decide_eq_false_2 by congruence.
        destruct (Nat.ltb_spec i (r mod n)) as [E1|E1],
                 (Nat.ltb_spec i (S (r mod n))) as [E2|E2]; simpl; lia.
Qed.

(** With an order without repetition, a subzone is read in a round
    exactly when the round reads its place in the order. *)
Lemma hits_position (order : list nat) (n pos i : nat) (rounds : list nat) :
  NoDup order -> length order = n -> order !! pos = Some i ->
  hits order n i rounds = hits (seq 0 n) n pos rounds.
Proof.
  intros Hnd Hlen Hpos. pose proof (lookup_lt_Some _ _ _ Hpos) as Hlt.
  assert (n <> 0)%nat as Hn by lia.
  unfold hits. f_equal. apply List.filter_ext. intros k.
  pose proof (Nat.mod_upper_bound k n Hn) as Hk.
  rewrite lookup_seq_lt by exact Hk. simpl.
  destruct (decide ((k `mod` n)%nat = pos)) as [Heq|Hneq].
  - rewrite !bool_decide_eq_true_2; [reflexivity|congruence|rewrite Heq; exact Hpos].
  - rewrite !bool_decide_eq_false_2; [reflexivity|congruence|].
    intros Hk'. apply Hneq. eapply NoDup_lookup; eassumption.
Qed.

(** X5.  [final_aed_allocation] when every priority score is zero: the
    shares are all 0 and the remainder pass spreads the budget evenly, in
    whatever order [np.argsort] returned the (all equal) scores; the
    subzone at place [pos] of that order gets [1 + (B - n) / n] units, and
    one more when [pos < (B - n) mod n]. *)
Theorem final_allocation_zero_scores (total_aeds : Z)
    (subzone_data : list subzone) (order : list nat) (pos i : nat) :
  Forall (fun s => (priority_score s == 0)%Q) subzone_data ->
  Z.of_nat (length subzone_data) <= total_aeds ->
  Permutation order (seq 0 (length subzone_data)) ->
  order !! pos = Some i ->
  let n := Z.of_nat (length subzone_data) in
  exists a,
    AedFinal.remainder_pass total_aeds order
      (AedFinal.after_proportional total_aeds (priority_scores subzone_data)) = Ok a /\
    a !! i = Some (1 + (total_aeds - n) / n
                   + (if Z.of_nat pos <? (total_aeds - n) mod n then 1 else 0)).
Proof.
  intros Hzero HB Hperm Hpos n.
  set (scores := priority_scores subzone_data).
  assert (length scores = length subzone_data) as Hlen
    by (unfold scores, priority_scores; apply length_map).
  assert (Forall (fun p => (p == 0)%Q) scores) as Hall
    by (unfold scores, priority_scores; apply Forall_map; exact Hzero).
  destruct (permutation_positions order _ Hperm) as (Hlo & Hnd & Hval).
  pose proof (lookup_lt_Some _ _ _ Hpos) as Hposlt. rewrite Hlo in Hposlt.
  assert (i < length subzone_data)%nat as Hi.
  { rewrite Forall_forall in Hval. apply Hval, list_elem_of_lookup. eauto. }
  rewrite (after_proportional_zero total_aeds scores Hall), Hlen.
  destruct (remainder_pass_entries total_aeds order (repeat 1 (length subzone_data)))
    as (a & Ha & _ & Hlook).
  { destruct (length subzone_data); [lia|discriminate]. }
  { rewrite repeat_length. exact Hperm. }
  exists a. split; [exact Ha|].
  rewrite Hlook, repeat_length, lookup_repeat by exact Hi. simpl.
  rewrite Zsum_repeat, Z.mul_1_l. fold n.
  rewrite (hits_position order _ pos i _ Hnd Hlo Hpos).
  rewrite hits_round_robin by exact Hposlt.
  set (r := Z.to_nat (total_aeds - n)).
  assert (total_aeds - n = Z.of_nat r) as Hr by (unfold r, n in *; lia).
  rewrite Hr. unfold n.
  rewrite <- Nat2Z.inj_div, <- Nat2Z.inj_mod.
  f_equal. rewrite Nat2Z.inj_add.
  destruct (pos <? r mod length subzone_data)%nat eqn:E1.
  - apply Nat.ltb_lt in E1.
    destruct (Z.of_nat pos <? Z.of_nat (r mod length subzone_data)) eqn:E2;
      [lia|apply Z.ltb_ge in E2; lia].
  - apply Nat.ltb_ge in E1.
    destruct (Z.of_nat pos <? Z.of_nat (r mod length subzone_data)) eqn:E2;
      [apply Z.ltb_lt in E2; lia|lia].
Qed.

Lemma final_allocation_zero_scores_witness :
  exists a,
    AedFinal.remainder_pass 11 [2; 0; 1]%nat
      (AedFinal.after_proportional 11 (priority_scores three_zero_scores)) = Ok a /\
    a !! 0%nat = Some (1 + (11 - 3) / 3 + (if 1 <? (11 - 3) mod 3 then 1 else 0)).
Proof.
  apply (final_allocation_zero_scores 11 three_zero_scores [2; 0; 1]%nat 1 0).
  - repeat constructor.
  - vm_compute; discriminate.
  - simpl. apply (Permutation_cons_app [0; 1]%nat [] 2%nat). reflexivity.
  - reflexivity.
Defined.

Lemma share_nonpos (r : Z) (S p : Q) :
  r <= 0 -> (0 < S)%Q -> (0 <= p)%Q -> (inject_Z r * (p / S) <= 0)%Q.
Proof.
  intros Hr HS Hp.
  assert (0 <= p / S)%Q as Hd by (apply Qle_shift_div_l; [exact HS|lra]).
  assert (inject_Z r <= 0)%Q as Hr'.
  { change 0%Q with (inject_Z 0). rewrite <- Zle_Qle. exact Hr. }
  assert (0 <= (- inject_Z r) * (p / S))%Q as H
    by (apply Qmult_le_0_compat; [lra|exact Hd]).
  assert ((- inject_Z r) * (p / S) == - (inject_Z r * (p / S)))%Q as Heq by ring.
  rewrite Heq in H. lra.
Qed.

Lemma shares_sum_nonpos (r : Z) (S : Q) (l : list Q) :
  r <= 0 -> (0 < S)%Q -> Forall (fun p => (0 <= p)%Q) l ->
  (inject_Z r * (Qsum l / S)
   <= inject_Z (Zsum (map (fun p => py_int (inject_Z r * (p / S))) l)))%Q /\
  Forall (fun x => x <= 0) (map (fun p => py_int (inject_Z r * (p / S))) l).
Proof.
  intros Hr HS. induction 1 as [|p l Hp _ [IHsum IHall]]; simpl.
  - split; [|constructor]. unfold Qdiv. rewrite Qmult_0_l, Qmult_0_r. apply Qle_refl.
  - destruct (py_int_neg_bounds _ (share_nonpos r S p Hr HS Hp)) as [Hlo Hhi].
    split; [|constructor; assumption].
    rewrite inject_Z_plus.
    assert ((inject_Z r * ((p + Qsum l) / S) ==
             inject_Z r * (p / S) + inject_Z r * (Qsum l / S))%Q) as ->.
    { field. lra. }
    lra.
Qed.

(** X6.  [final_aed_allocation] with a budget below the number of
    subzones: nothing cuts the vector down to the budget; it completes with
    one entry per subzone, the entries are at most 1 (and can be negative)
    and their sum is at least the budget. *)
Theorem final_allocation_small_budget (total_aeds : Z) (subzone_data : list subzone) :
  Forall (fun s => (0 <= priority_score s)%Q) subzone_data ->
  total_aeds < Z.of_nat (length subzone_data) ->
  exists a,
    AedFinal.final_aed_allocation_with total_aeds subzone_data = Ok a /\
    length a = length subzone_data /\
    Forall (fun x => x <= 1) a /\
    total_aeds <= Zsum a.
Proof.
  intros Hscores HB.
  set (scores := priority_scores subzone_data).
  assert (length scores = length subzone_data) as Hlen
    by (unfold scores, priority_scores; apply length_map).
  assert (Forall (fun p => (0 <= p)%Q) scores) as Hall
    by (unfold scores, priority_scores; apply Forall_map; exact Hscores).
  set (r := total_aeds - Z.of_nat (length scores)).
  assert (r <= 0) as Hr by (unfold r; lia).
  assert (Forall (fun x => x <= 0)
            (AedFinal.proportional_allocation r (Qsum scores) scores) /\
          r <= Zsum (AedFinal.proportional_allocation r (Qsum scores) scores)) as [Hle Hsum].
  { unfold AedFinal.proportional_allocation.
    destruct (Qlt_le_dec 0 (Qsum scores)) as [HS|HS].
    - destruct (shares_sum_nonpos r (Qsum scores) scores Hr HS Hall) as [Hs Ha].
      split; [exact Ha|].
      assert ((inject_Z r * (Qsum scores / Qsum scores) == inject_Z r)%Q) as Heq
        by (field; lra).
      rewrite Heq, <- Zle_Qle in Hs. exact Hs.
    - split.
      + apply Forall_map, Forall_forall. intros; simpl; lia.
      + assert (Zsum (map (fun _ : Q => 0) scores) = 0) as ->; [|exact Hr].
        clear. induction scores; simpl; lia. }
  assert (Forall (fun x => x <= 1) (AedFinal.after_proportional total_aeds scores)) as Hone.
  { unfold AedFinal.after_proportional. fold r.
    pose proof (proportional_allocation_length r (Qsum scores) scores) as Hl.
    revert Hle Hl. generalize (AedFinal.proportional_allocation r (Qsum scores) scores).
    generalize (length scores). clear.
    intros n l Hle. revert n. induction Hle as [|x l Hx _ IH]; intros [|n] Hl;
      simpl in *; try discriminate; constructor; [lia|apply IH; lia]. }
  assert (total_aeds <= Zsum (AedFinal.after_proportional total_aeds scores)) as Htot.
  { unfold AedFinal.after_proportional. fold r.
    rewrite Zsum_zip_add
      by (rewrite repeat_length, proportional_allocation_length; reflexivity).
    rewrite Zsum_repeat. unfold r in *. lia. }
  exists (AedFinal.after_proportional total_aeds scores).
  split; [|split; [|split; assumption]].
  2:{ unfold AedFinal.after_proportional.
      rewrite length_zip_with, repeat_length, proportional_allocation_length. lia. }
  unfold AedFinal.final_aed_allocation_with, AedFinal.allocate. fold scores.
  destruct (0 <? total_aeds - Zsum (AedFinal.after_proportional total_aeds scores)) eqn:E;
    [apply Z.ltb_lt in E; lia|reflexivity].
Qed.

Lemma final_allocation_small_budget_witness :
  exists a,
    AedFinal.final_aed_allocation_with 0 one_scored_subzone = Ok a /\
    length a = 3%nat /\
    Forall (fun x => x <= 1) a /\
    0 <= Zsum a.
Proof.
  apply (final_allocation_small_budget 0 one_scored_subzone).
  - repeat constructor; vm_compute; discriminate.
  - vm_compute; reflexivity.
Defined.

Lemma base_plus_lookup {A} (g : A -> Z) (l : list A) (i : nat) :
  zip_with Z.add (repeat 1 (length l)) (map g l) !! i = (fun p => 1 + g p) <$> l !! i.
Proof.
  revert i. induction l as [|x l IH]; intros [|i]; simpl; auto.
Qed.

(** X7.  The proportional step of [final_aed_allocation] is monotone: with
    a budget not below the number of subzones, a subzone whose priority
    score is not smaller holds at least as many units after lines 80-104. *)
Theorem proportional_step_monotone (total_aeds : Z) (subzone_data : list subzone)
    (i j : nat) (si sj : subzone) :
  Z.of_nat (length subzone_data) <= total_aeds ->
  subzone_data !! i = Some si -> subzone_data !! j = Some sj ->
  (priority_score si <= priority_score sj)%Q ->
  exists vi vj,
    AedFinal.after_proportional total_aeds (priority_scores subzone_data) !! i = Some vi /\
    AedFinal.after_proportional total_aeds (priority_scores subzone_data) !! j = Some vj /\
    vi <= vj.
Proof.
  intros HB Hi Hj Hle.
  unfold AedFinal.after_proportional, AedFinal.proportional_allocation.
  assert (0 <= total_aeds - Z.of_nat (length (priority_scores subzone_data))) as Hr
    by (unfold priority_scores; rewrite length_map; lia).
  set (r := total_aeds - Z.of_nat (length (priority_scores subzone_data))) in *.
  set (S := Qsum (priority_scores subzone_data)).
  rewrite !base_plus_lookup. unfold priority_scores. rewrite !lookup_map, Hi, Hj.
  simpl. eexists _, _. split; [reflexivity|]. split; [reflexivity|].
  destruct (Qlt_le_dec 0 S) as [HS|HS]; [|lia].
  assert (py_int (inject_Z r * (priority_score si / S))
          <= py_int (inject_Z r * (priority_score sj / S))); [|lia].
  apply py_int_mono.
  assert (0 <= inject_Z r)%Q as Hr'.
  { change 0%Q with (inject_Z 0). rewrite <- Zle_Qle. exact Hr. }
  assert (priority_score si / S <= priority_score sj / S)%Q as Hd.
  { apply Qle_shift_div_l; [exact HS|].
    assert (priority_score si / S * S == priority_score si)%Q as -> by (field; lra).
    exact Hle. }
  assert (0 <= inject_Z r * (priority_score sj / S - priority_score si / S))%Q as H
    by (apply Qmult_le_0_compat; [exact Hr'|lra]).
  assert (inject_Z r * (priority_score sj / S - priority_score si / S)
          == inject_Z r * (priority_score sj / S) - inject_Z r * (priority_score si / S))%Q
    as Heq by ring.
  rewrite Heq in H. lra.
Qed.

Lemma proportional_step_monotone_witness :
  exists vi vj,
    AedFinal.after_proportional 6 (priority_scores scenario_A) !! 0%nat = Some vi /\
    AedFinal.after_proportional 6 (priority_scores scenario_A) !! 2%nat = Some vj /\
    vi <= vj.
Proof.
  apply (proportional_step_monotone 6 scenario_A 0 2
           (mkSubzone 2 (1 # 10) 1 0 0) (mkSubzone 2 (9 # 10) 1 0 0)).
  - vm_compute; discriminate.
  - reflexivity.
  - reflexivity.
  - vm_compute; discriminate.
Defined.

(** * Further properties of the tiered allocation *)















(** * Further properties of the matrices and the responder assignment *)

Lemma matrix_step_shape {A} (body : nat -> nat -> option A) (m : list (list A))
    (ij : nat * nat) (n k : nat) :
  length m = n /\ Forall (fun row => length row = k) m ->
  length (matrix_step body m ij) = n /\
  Forall (fun row => length row = k) (matrix_step body m ij).
Proof.
  intros [Hn Hk]. unfold matrix_step. destruct (body (fst ij) (snd ij)) as [v|]; [|tauto].
  unfold Matrix.set. split.
  - rewrite length_alter. exact Hn.
  - apply Forall_alter; [exact Hk|]. intros row _ Hrow. rewrite length_insert. exact Hrow.
Qed.

(** The loops keep the shape of the matrix they fill. *)
Lemma fill_shape {A} (n k : nat) (init : A) (body : nat -> nat -> option A) :
  length (Matrix.fill n k init body) = n /\
  Forall (fun row => length row = k) (Matrix.fill n k init body).
Proof.
  rewrite fill_steps.
  assert (length (repeat (repeat init k) n) = n /\
          Forall (fun row => length row = k) (repeat (repeat init k) n)) as H.
  { split; [apply repeat_length|].
    apply Forall_forall. intros row Hrow. apply list_elem_of_In, repeat_spec in Hrow.
    subst row. apply repeat_length. }
  revert H. generalize (repeat (repeat init k) n).
  generalize (flat_map (fun i => map (fun j => (i, j)) (seq 0 k)) (seq 0 n)).
  intros ps. induction ps as [|ij ps IH]; intros m H; simpl; [exact H|].
  apply IH, matrix_step_shape, H.
Qed.

Lemma fill_get_outside {A} (n k : nat) (init : A) (body : nat -> nat -> option A) (a b : nat) :
  ~ ((a < n)%nat /\ (b < k)%nat) -> Matrix.get (Matrix.fill n k init body) a b = None.
Proof.
  intros H. destruct (fill_shape n k init body) as [Hn Hk]. unfold Matrix.get.
  destruct (Matrix.fill n k init body !! a) as [row|] eqn:Ea; [|reflexivity]. simpl.
  assert (a < n)%nat by (rewrite <- Hn; eapply lookup_lt_Some, Ea).
  rewrite Forall_forall in Hk.
  assert (length row = k) as Hrow by (apply Hk, list_elem_of_lookup; eauto).
  apply lookup_ge_None. lia.
Qed.

(** An entry of the distance matrix is finite exactly for an available
    responder within the radius, and is then the distance. *)
Lemma distance_entry (geodesic : point -> point -> Q) (subzone_data : list subzone)
    (volunteer_data : list volunteer) (max_distance : Q) (i j : nat) (d : Q) :
  finite_distance (create_distance_matrix geodesic subzone_data volunteer_data max_distance) i j
    = Some d <->
  exists s v,
    subzone_data !! i = Some s /\ volunteer_data !! j = Some v /\ availability v = 1 /\
    d = geodesic (subzone_point s) (volunteer_point v) /\ (d <= max_distance)%Q.
Proof.
  unfold finite_distance, create_distance_matrix.
  destruct (decide ((i < length subzone_data)%nat /\ (j < length volunteer_data)%nat))
    as [[Hi Hj]|Hout].
  - rewrite fill_get by assumption. simpl. unfold distance_body.
    destruct (lookup_lt_is_Some_2 subzone_data i Hi) as [s Hs].
    destruct (lookup_lt_is_Some_2 volunteer_data j Hj) as [v Hv].
    rewrite Hs, Hv. split.
    + intros H. exists s, v.
      destruct (availability v =? 1) eqn:Ea; [|discriminate].
      destruct (Qle_bool _ _) eqn:Ed; [|discriminate].
      simpl in H. injection H as <-. apply Z.eqb_eq in Ea. apply Qle_bool_iff in Ed.
      repeat split; assumption.
    + intros (s' & v' & [= <-] & [= <-] & Ha & -> & Hd).
      apply Z.eqb_eq in Ha. apply Qle_bool_iff in Hd. rewrite Ha, Hd. reflexivity.
  - rewrite fill_get_outside by exact Hout. simpl. split; [discriminate|].
    intros (s & v & Hs & Hv & _). exfalso. apply Hout.
    split; eapply lookup_lt_Some; eassumption.
Qed.

(** X10.  The distance matrix of both assignment scripts has one row per
    subzone and one column per responder; the entry [(i, j)] is finite
    exactly when responder [j] is available and within [max_distance] of
    subzone [i], and then it is their distance. *)
Theorem distance_matrix_entries (geodesic : point -> point -> Q)
    (subzone_data : list subzone) (volunteer_data : list volunteer)
    (max_distance : Q) (i j : nat) (d : Q) :
  let dm := create_distance_matrix geodesic subzone_data volunteer_data max_distance in
  length dm = length subzone_data /\
  Forall (fun row => length row = length volunteer_data) dm /\
  (finite_distance dm i j = Some d <->
   exists s v,
     subzone_data !! i = Some s /\ volunteer_data !! j = Some v /\ availability v = 1 /\
     d = geodesic (subzone_point s) (volunteer_point v) /\ (d <= max_distance)%Q).
Proof.
  intros dm. unfold dm, create_distance_matrix.
  destruct (fill_shape (length subzone_data) (length volunteer_data) (@None Q)
              (distance_body geodesic subzone_data volunteer_data max_distance)) as [Hn Hk].
  split; [exact Hn|]. split; [exact Hk|]. apply distance_entry.
Qed.

Lemma latest_rows (subzone_data : list subzone) (volunteer_data : list volunteer)
    (dm : list (list (option Q))) (x : nat * nat -> Z) (a : assignment) :
  In a (VolunteerLatest.extract subzone_data volunteer_data dm x) ->
  exists s v,
    subzone_data !! a_subzone a = Some s /\ volunteer_data !! a_volunteer a = Some v /\
    finite_distance dm (a_subzone a) (a_volunteer a) = Some (a_distance a) /\
    a_response_time a = response_time v /\ x (a_subzone a, a_volunteer a) = 1.
Proof.
  unfold VolunteerLatest.extract. intros H.
  apply in_flat_map in H as (i & _ & H). apply in_flat_map in H as (j & _ & H).
  destruct (subzone_data !! i) as [s|] eqn:Es; [|destruct H].
  destruct (volunteer_data !! j) as [v|] eqn:Ev; [|destruct H].
  destruct (finite_distance dm i j) as [d|] eqn:Ed; [|destruct H].
  destruct (x (i, j) =? 1) eqn:Ex; [|destruct H].
  destruct H as [<-|[]]. simpl. exists s, v. apply Z.eqb_eq in Ex. auto.
Qed.

Lemma simple_rows (subzone_data : list subzone) (volunteer_data : list volunteer)
    (dm : list (list (option Q))) (x : nat * nat -> Z) (a : assignment) :
  In a (VolunteerSimple.extract subzone_data volunteer_data dm x) ->
  exists s v,
    subzone_data !! a_subzone a = Some s /\ volunteer_data !! a_volunteer a = Some v /\
    finite_distance dm (a_subzone a) (a_volunteer a) = Some (a_distance a) /\
    a_response_time a = response_time v /\ x (a_subzone a, a_volunteer a) = 1.
Proof.
  unfold VolunteerSimple.extract. intros H.
  apply in_flat_map in H as ([i j] & _ & H). simpl in H.
  destruct (subzone_data !! i) as [s|] eqn:Es; [|destruct H].
  destruct (volunteer_data !! j) as [v|] eqn:Ev; [|destruct H].
  destruct (finite_distance dm i j) as [d|] eqn:Ed; [|destruct H].
  destruct (x (i, j) =? 1) eqn:Ex; [|destruct H].
  destruct H as [<-|[]]. simpl. exists s, v. apply Z.eqb_eq in Ex. auto.
Qed.

Lemma rows_within_reach (geodesic : point -> point -> Q) (subzone_data : list subzone)
    (volunteer_data : list volunteer) (max_distance : Q) (a : assignment) :
  (exists s v,
     subzone_data !! a_subzone a = Some s /\ volunteer_data !! a_volunteer a = Some v /\
     finite_distance (create_distance_matrix geodesic subzone_data volunteer_data max_distance)
       (a_subzone a) (a_volunteer a) = Some (a_distance a) /\
     a_response_time a = response_time v) ->
  within_reach geodesic subzone_data volunteer_data max_distance a.
Proof.
  intros (s & v & Hs & Hv & Hd & Hr).
  apply distance_entry in Hd as (s' & v' & Hs' & Hv' & Ha & Hg & Hle).
  assert (s' = s) by congruence. assert (v' = v) by congruence. subst s' v'.
  exists s, v. repeat split; assumption.
Qed.

(** X11.  Whatever values the solver reports, every row of the assignment
    table of either script names a subzone and an AVAILABLE responder of
    the frames, carries the distance between the two, which is at most
    [max_distance], and the response time of that responder. *)
Theorem assignments_within_reach (geodesic : point -> point -> Q)
    (solve : Lp.problem (nat * nat) -> Lp.outcome (nat * nat))
    (subzone_data : list subzone) (volunteer_data : list volunteer) (max_distance : Q) :
  let dm := create_distance_matrix geodesic subzone_data volunteer_data max_distance in
  Forall (within_reach geodesic subzone_data volunteer_data max_distance)
    (VolunteerLatest.optimize_volunteer_assignment solve subzone_data volunteer_data dm) /\
  forall assignments,
    VolunteerSimple.optimize_volunteer_assignment solve subzone_data volunteer_data dm
      = Some assignments ->
    Forall (within_reach geodesic subzone_data volunteer_data max_distance) assignments.
Proof.
  intros dm. split.
  - apply Forall_forall. intros a Ha. apply list_elem_of_In in Ha.
    unfold VolunteerLatest.optimize_volunteer_assignment in Ha.
    apply latest_rows in Ha as (s & v & Hs & Hv & Hd & Hr & _).
    apply rows_within_reach. exists s, v. auto.
  - intros assignments. unfold VolunteerSimple.optimize_volunteer_assignment.
    destruct (Lp.status _ =? 1); [|discriminate]. intros [= <-].
    apply Forall_forall. intros a Ha. apply list_elem_of_In in Ha.
    apply simple_rows in Ha as (s & v & Hs & Hv & Hd & Hr & _).
    apply rows_within_reach. exists s, v. auto.
Qed.

Lemma assignments_within_reach_witness :
  let dm := create_distance_matrix flat_distance two_subzones two_volunteers 5 in
  Forall (within_reach flat_distance two_subzones two_volunteers 5)
    (VolunteerLatest.optimize_volunteer_assignment solver_all two_subzones two_volunteers dm) /\
  exists assignments,
    VolunteerSimple.optimize_volunteer_assignment solver_all two_subzones two_volunteers dm
      = Some assignments /\
    length assignments = 2%nat /\
    Forall (within_reach flat_distance two_subzones two_volunteers 5) assignments.
Proof.
  destruct (assignments_within_reach flat_distance solver_all two_subzones two_volunteers 5)
    as [Hlatest Hsimple].
  split; [exact Hlatest|]. eexists. split; [vm_compute; reflexivity|].
  split; [reflexivity|]. apply Hsimple. vm_compute. reflexivity.
Defined.

Lemma flat_map_nil {A B} (f : A -> list B) (l : list A) :
  (forall a, In a l -> f a = []) -> flat_map f l = [].
Proof.
  induction l as [|a l IH]; intros H; simpl; [reflexivity|].
  rewrite (H a) by (left; reflexivity). apply IH. intros b Hb. apply H. right. exact Hb.
Qed.

(** X12.  When no available responder is within [max_distance] of any
    subzone, the program of either script is empty (no term in the
    objective, no variable and no constraint in the simple script) and,
    whatever the solver reports, no responder is assigned. *)
Theorem nobody_within_reach (geodesic : point -> point -> Q)
    (solve : Lp.problem (nat * nat) -> Lp.outcome (nat * nat))
    (subzone_data : list subzone) (volunteer_data : list volunteer) (max_distance : Q) :
  (forall s v, In s subzone_data -> In v volunteer_data -> availability v = 1 ->
     (max_distance < geodesic (subzone_point s) (volunteer_point v))%Q) ->
  let dm := create_distance_matrix geodesic subzone_data volunteer_data max_distance in
  let latest := VolunteerLatest.assignment_problem subzone_data volunteer_data dm in
  let simple := VolunteerSimple.assignment_problem subzone_data volunteer_data dm in
  Lp.objective latest = [] /\
  VolunteerLatest.optimize_volunteer_assignment solve subzone_data volunteer_data dm = [] /\
  Lp.variables simple = [] /\ Lp.objective simple = [] /\ Lp.constraints simple = [] /\
  VolunteerSimple.optimize_volunteer_assignment solve subzone_data volunteer_data dm =
    (if Lp.status (solve simple) =? 1 then Some [] else None).
Proof.
  intros Hfar dm latest simple.
  assert (forall i j, finite_distance dm i j = None) as Hnone.
  { intros i j. destruct (finite_distance dm i j) as [d|] eqn:E; [|reflexivity].
    apply distance_entry in E as (s & v & Hs & Hv & Ha & -> & Hle).
    pose proof (Hfar s v) as H.
    assert (In s subzone_data) as Hs' by (apply list_elem_of_In, list_elem_of_lookup; eauto).
    assert (In v volunteer_data) as Hv' by (apply list_elem_of_In, list_elem_of_lookup; eauto).
    specialize (H Hs' Hv' Ha). lra. }
  assert (forall n m, VolunteerSimple.valid_pairs n m dm = []) as Hpairs.
  { intros n m. destruct (VolunteerSimple.valid_pairs n m dm) as [|[i j] l] eqn:E;
      [reflexivity|].
    assert (In (i, j) (VolunteerSimple.valid_pairs n m dm)) as Hin
      by (rewrite E; left; reflexivity).
    apply valid_pairs_In in Hin as (_ & _ & Hr). apply reachable_Some in Hr as [d Hd].
    rewrite Hnone in Hd. discriminate. }
  assert (forall x, VolunteerLatest.extract subzone_data volunteer_data dm x = []) as Hlatest.
  { intros x. destruct (VolunteerLatest.extract subzone_data volunteer_data dm x) as [|a l] eqn:E;
      [reflexivity|].
    assert (In a (VolunteerLatest.extract subzone_data volunteer_data dm x)) as Hin
      by (rewrite E; left; reflexivity).
    apply latest_rows in Hin as (s & v & _ & _ & Hd & _). rewrite Hnone in Hd. discriminate. }
  assert (forall n j, List.filter (fun i => reachable dm i j) (seq 0 n) = []) as Hcol.
  { intros n j. induction (seq 0 n) as [|i l IH]; [reflexivity|]. simpl.
    unfold reachable at 1. rewrite Hnone. rewrite bool_decide_eq_false_2; [exact IH|].
    intros [d Hd]. discriminate. }
  split; [|split; [|split; [|split; [|split]]]].
  - unfold latest, VolunteerLatest.assignment_problem. cbn [Lp.objective].
    apply flat_map_nil. intros i _. apply flat_map_nil. intros j _.
    rewrite Hnone. destruct (subzone_data !! i); reflexivity.
  - apply Hlatest.
  - unfold simple, VolunteerSimple.assignment_problem. cbn [Lp.variables]. apply Hpairs.
  - unfold simple, VolunteerSimple.assignment_problem. cbn [Lp.objective].
    rewrite Hpairs. reflexivity.
  - unfold simple, VolunteerSimple.assignment_problem. cbn [Lp.constraints].
    apply flat_map_nil. intros j _. rewrite Hcol.
    destruct (volunteer_data !! j) as [v|]; [|reflexivity].
    destruct (availability v =? 1); reflexivity.
  - unfold VolunteerSimple.optimize_volunteer_assignment. fold simple.
    unfold VolunteerSimple.extract. rewrite Hpairs. reflexivity.
Qed.

Lemma nobody_within_reach_witness :
  let dm := create_distance_matrix flat_distance two_subzones far_volunteers 1000 in
  VolunteerLatest.optimize_volunteer_assignment solver_all two_subzones far_volunteers dm = [] /\
  VolunteerSimple.optimize_volunteer_assignment solver_all two_subzones far_volunteers dm
    = Some [].
Proof.
  assert (forall s v, In s two_subzones -> In v far_volunteers -> availability v = 1 ->
            (1000 < flat_distance (subzone_point s) (volunteer_point v))%Q) as Hfar.
  { intros s v [<-|[<-|[]]] [<-|[<-|[]]] Ha; try discriminate Ha; vm_compute; reflexivity. }
  destruct (nobody_within_reach flat_distance solver_all two_subzones far_volunteers 1000 Hfar)
    as (_ & Hlatest & _ & _ & _ & Hsimple).
  split; [exact Hlatest|exact Hsimple].
Defined.

Lemma count_le_one_NoDup (l : list nat) :
  (forall j, (length (List.filter (fun k => Nat.eqb k j) l) <= 1)%nat) -> List.NoDup l.
Proof.
  induction l as [|a l IH]; intros H; constructor.
  - intros Hin. specialize (H a). simpl in H. rewrite Nat.eqb_refl in H. simpl in H.
    assert (In a (List.filter (fun k => Nat.eqb k a) l)) as Hf
      by (apply List.filter_In; split; [exact Hin|apply Nat.eqb_refl]).
    destruct (List.filter (fun k => Nat.eqb k a) l); [destruct Hf|simpl in H; lia].
  - apply IH. intros j. specialize (H j). simpl in H.
    destruct (Nat.eqb a j); simpl in H; lia.
Qed.

Lemma map_lookup_seq {A} (l : list A) :
  map (fun j => l !! j) (seq 0 (length l)) = map Some l.
Proof.
  induction l as [|a l IH]; [reflexivity|].
  simpl length. simpl seq. simpl map. f_equal.
  rewrite <- seq_shift, map_map. exact IH.
Qed.

Lemma available_positions (volunteer_data : list volunteer) :
  length (List.filter
            (fun j => match volunteer_data !! j with
                      | Some v => availability v =? 1
                      | None => false
                      end) (seq 0 (length volunteer_data))) =
  available_count volunteer_data.
Proof.
  unfold available_count.
  rewrite <- (length_filter_map
                (fun o : option volunteer =>
                   match o with Some v => availability v =? 1 | None => false end)
                (fun j => volunteer_data !! j)).
  rewrite map_lookup_seq, length_filter_map. reflexivity.
Qed.

(** A solution that sends every responder to at most one subzone assigns
    at most as many responders as are available. *)
Lemma chosen_le_available (geodesic : point -> point -> Q) (subzone_data : list subzone)
    (volunteer_data : list volunteer) (max_distance : Q) (x : nat * nat -> Z) :
  let n := length subzone_data in
  let m := length volunteer_data in
  let dm := create_distance_matrix geodesic subzone_data volunteer_data max_distance in
  (forall v, In v (VolunteerSimple.valid_pairs n m dm) -> x v = 0 \/ x v = 1) ->
  (forall j, (j < m)%nat -> Lp.lpSum x (col_pairs n dm j) <= 1) ->
  (length (chosen n m dm x) <= available_count volunteer_data)%nat.
Proof.
  intros n m dm Hbin Hcol.
  rewrite <- (length_map snd), <- available_positions.
  apply List.NoDup_incl_length.
  - apply count_le_one_NoDup. intros j. rewrite length_filter_map.
    pose proof (chosen_col_count n m dm x j Hbin) as Hc.
    destruct (decide (j < m)%nat) as [Hj|Hj].
    + rewrite bool_decide_eq_true_2 in Hc by exact Hj.
      apply Nat2Z.inj_le. rewrite Hc. exact (Hcol j Hj).
    + rewrite bool_decide_eq_false_2 in Hc by exact Hj.
      apply Nat2Z.inj_le. rewrite Hc. discriminate.
  - intros j Hin. apply in_map_iff in Hin as ([i j'] & Heq & Hin). simpl in Heq. subst j'.
    unfold chosen in Hin. apply List.filter_In in Hin as [Hin _].
    apply valid_pairs_In in Hin as (Hi & Hj & Hr).
    destruct (reachable_available geodesic subzone_data volunteer_data max_distance i j Hi Hj Hr)
      as (v & Hv & Ha).
    apply List.filter_In. split; [apply in_seq; fold m; lia|].
    rewrite Hv. apply Z.eqb_eq, Ha.
Qed.

(** A solution that gives every subzone at most 3 responders assigns at
    most 3 per subzone in total. *)
Lemma chosen_le_rows (n m : nat) (dm : list (list (option Q))) (x : nat * nat -> Z) :
  (forall v, In v (VolunteerSimple.valid_pairs n m dm) -> x v = 0 \/ x v = 1) ->
  (forall i, (i < n)%nat -> Lp.lpSum x (row_pairs m dm i) <= 3) ->
  (length (chosen n m dm x) <= 3 * n)%nat.
Proof.
  intros Hbin Hrow. unfold chosen, VolunteerSimple.valid_pairs. rewrite filter_flat_map.
  assert (forall rows, (forall i, In i rows -> (i < n)%nat) ->
            (length (flat_map (fun i => List.filter (fun ij => (x ij =? 1)%Z) (row_pairs m dm i)) rows)
             <= 3 * length rows)%nat) as H.
  { induction rows as [|i rows IH]; intros Hin; simpl; [lia|].
    rewrite length_app.
    assert (i < n)%nat as Hi by (apply Hin; left; reflexivity).
    assert (length (List.filter (fun ij => (x ij =? 1)%Z) (row_pairs m dm i)) <= 3)%nat.
    { apply Nat2Z.inj_le. rewrite ones_sum; [exact (Hrow i Hi)|].
      intros [a b] Hv. apply Hbin. unfold row_pairs in Hv.
      apply in_map_iff in Hv as (j & [= <- <-] & Hj).
      apply List.filter_In in Hj as [Hj Hr]. apply in_seq in Hj.
      apply valid_pairs_In. repeat split; [exact Hi|lia|exact Hr]. }
    assert (length (flat_map (fun i => List.filter (fun ij => (x ij =? 1)%Z) (row_pairs m dm i)) rows)
            <= 3 * length rows)%nat by (apply IH; intros k Hk; apply Hin; right; exact Hk).
    lia. }
  specialize (H (seq 0 n)). rewrite length_seq in H. apply H.
  intros i Hi. apply in_seq in Hi. lia.
Qed.

(** X13.  With a feasible solution, the assignment table of either script
    has at most as many rows as there are available responders; the table
    of volunteer_analysis_latest.py has also at most 3 times as many rows
    as the frame has subzones. *)
Theorem total_assignments_bound (geodesic : point -> point -> Q)
    (solve : Lp.problem (nat * nat) -> Lp.outcome (nat * nat))
    (subzone_data : list subzone) (volunteer_data : list volunteer) (max_distance : Q) :
  let dm := create_distance_matrix geodesic subzone_data volunteer_data max_distance in
  let latest := VolunteerLatest.assignment_problem subzone_data volunteer_data dm in
  let simple := VolunteerSimple.assignment_problem subzone_data volunteer_data dm in
  (Lp.feasible latest (Lp.value (solve latest)) ->
   let assignments :=
     VolunteerLatest.optimize_volunteer_assignment solve subzone_data volunteer_data dm in
   (length assignments <= available_count volunteer_data)%nat /\
   (length assignments <= 3 * length subzone_data)%nat) /\
  ((Lp.status (solve simple) = 1 -> Lp.feasible simple (Lp.value (solve simple))) ->
   forall assignments,
     VolunteerSimple.optimize_volunteer_assignment solve subzone_data volunteer_data dm
       = Some assignments ->
     (length assignments <= available_count volunteer_data)%nat).
Proof.
  intros dm latest simple. split.
  - intros Hf assignments. apply latest_feasible in Hf as (Hbin & Hcol & Hrow).
    unfold assignments, VolunteerLatest.optimize_volunteer_assignment. fold latest.
    rewrite <- (length_map key), latest_keys. split.
    + apply (chosen_le_available geodesic subzone_data volunteer_data max_distance _ Hbin Hcol).
    + apply (chosen_le_rows _ _ dm _ Hbin Hrow).
  - intros Hsound assignments.
    unfold VolunteerSimple.optimize_volunteer_assignment. fold simple.
    destruct (Lp.status (solve simple) =? 1) eqn:E; [|discriminate].
    intros [= <-]. apply Z.eqb_eq in E.
    apply Hsound, simple_feasible in E as (Hbin & Hcol).
    rewrite <- (length_map key), simple_keys.
    apply (chosen_le_available geodesic subzone_data volunteer_data max_distance _ Hbin Hcol).
Qed.

Lemma total_assignments_bound_witness :
  let dm := create_distance_matrix flat_distance two_subzones two_volunteers 1000 in
  (length (VolunteerLatest.optimize_volunteer_assignment solver_diagonal
             two_subzones two_volunteers dm) <= 2)%nat /\
  (forall assignments,
     VolunteerSimple.optimize_volunteer_assignment solver_diagonal
       two_subzones two_volunteers dm = Some assignments ->
     (length assignments <= 2)%nat).
Proof.
  destruct (total_assignments_bound flat_distance solver_diagonal
              two_subzones two_volunteers 1000) as [Hlatest Hsimple].
  split.
  - apply Hlatest. split.
    + intros v Hv. binary_cases Hv.
    + repeat constructor; vm_compute; discriminate.
  - apply Hsimple. intros _. split.
    + intros v Hv. binary_cases Hv.
    + repeat constructor; vm_compute; discriminate.
Defined.

(** * Further properties of the coverage matrix and the deployment *)

Lemma covers_entry (geodesic : point -> point -> Q) (subzone_data : list subzone)
    (coverage_radius : Q) (i j : nat) :
  covers (create_coverage_matrix geodesic subzone_data coverage_radius) i j = true <->
  i <> j /\
  exists si sj, subzone_data !! i = Some si /\ subzone_data !! j = Some sj /\
    (geodesic (subzone_point si) (subzone_point sj) <= coverage_radius)%Q.
Proof.
  unfold covers.
  destruct (decide ((i < length subzone_data)%nat /\ (j < length subzone_data)%nat))
    as [[Hi Hj]|Hout].
  - rewrite coverage_entry by assumption. unfold coverage_body.
    destruct (lookup_lt_is_Some_2 subzone_data i Hi) as [si Hsi].
    destruct (lookup_lt_is_Some_2 subzone_data j Hj) as [sj Hsj].
    rewrite Hsi, Hsj. destruct (decide (i = j)) as [->|Hne].
    + rewrite bool_decide_eq_false_2 by tauto. simpl. split; [discriminate|tauto].
    + rewrite bool_decide_eq_true_2 by exact Hne.
      destruct (Qle_bool _ _) eqn:E; simpl.
      * apply Qle_bool_iff in E. split; [|reflexivity]. intros _. split; [exact Hne|].
        exists si, sj. auto.
      * split; [discriminate|]. intros (_ & si' & sj' & [= <-] & [= <-] & Hle).
        apply Qle_bool_iff in Hle. congruence.
  - unfold create_coverage_matrix. rewrite fill_get_outside by exact Hout.
    split; [discriminate|]. intros (_ & si & sj & Hsi & Hsj & _). exfalso. apply Hout.
    split; eapply lookup_lt_Some; eassumption.
Qed.

(** X14.  The coverage matrix is square, one row and one column per
    subzone, and each of its entries is 0 or 1. *)
Theorem coverage_matrix_shape (geodesic : point -> point -> Q)
    (subzone_data : list subzone) (coverage_radius : Q) :
  let n := length subzone_data in
  let matrix := create_coverage_matrix geodesic subzone_data coverage_radius in
  length matrix = n /\
  Forall (fun row => length row = n) matrix /\
  forall i j, (i < n)%nat -> (j < n)%nat ->
    Matrix.get matrix i j = Some 0 \/ Matrix.get matrix i j = Some 1.
Proof.
  intros n matrix. unfold matrix, create_coverage_matrix. fold n.
  destruct (fill_shape n n 0 (coverage_body geodesic subzone_data coverage_radius)) as [Hn Hk].
  split; [exact Hn|]. split; [exact Hk|].
  intros i j Hi Hj. rewrite fill_get by assumption. unfold coverage_body.
  destruct (bool_decide (i <> j)); [|left; reflexivity].
  destruct (subzone_data !! i); [|left; reflexivity].
  destruct (subzone_data !! j); [|left; reflexivity].
  destruct (Qle_bool _ _); [right|left]; reflexivity.
Qed.

Lemma coverage_matrix_shape_witness :
  let matrix := create_coverage_matrix flat_distance two_subzones 200 in
  length matrix = 2%nat /\
  (Matrix.get matrix 0 1 = Some 0 \/ Matrix.get matrix 0 1 = Some 1).
Proof.
  destruct (coverage_matrix_shape flat_distance two_subzones 200) as (Hlen & _ & Hcells).
  split; [exact Hlen|]. apply Hcells; simpl; lia.
Defined.

Lemma deployment_effect_lookup (subzone_data : list subzone)
    (coverage_matrix : list (list Z)) (deployment : list Z) (i : nat) :
  deployment_effect subzone_data coverage_matrix deployment !! i =
  (fun s =>
     (inject_Z (Zsum (map (fun j => default 0%Z (deployment !! j))
                        (List.filter (covers coverage_matrix i)
                           (seq 0 (length subzone_data)))))
      * area_weight s * area_weight s)%Q) <$> subzone_data !! i.
Proof. unfold deployment_effect. rewrite list_lookup_imap. reflexivity. Qed.

(** X15.  The coverage effect reported for subzone [i] does not depend on
    the number of units deployed in subzone [i] itself: it counts the units
    of the other subzones within the radius only. *)
Theorem coverage_effect_ignores_own_units (geodesic : point -> point -> Q)
    (subzone_data : list subzone) (coverage_radius : Q) (deployment : list Z)
    (i : nat) (v : Z) :
  let matrix := create_coverage_matrix geodesic subzone_data coverage_radius in
  deployment_effect subzone_data matrix (<[i := v]> deployment) !! i =
  deployment_effect subzone_data matrix deployment !! i.
Proof.
  intros matrix. rewrite !deployment_effect_lookup.
  destruct (subzone_data !! i) as [s|]; [|reflexivity]. simpl. do 4 f_equal.
  f_equal. apply map_ext_in. intros j Hj. apply List.filter_In in Hj as [_ Hc].
  apply covers_entry in Hc as [Hne _].
  rewrite list_lookup_insert_ne by exact Hne. reflexivity.
Qed.

(** X16.  When no two distinct subzones are within the radius of each
    other (a single subzone, for one), the objective handed to the solver
    has no term and every coverage effect is 0, whatever is deployed. *)
Theorem isolated_subzones_no_coverage (geodesic : point -> point -> Q)
    (subzone_data : list subzone) (coverage_radius : Q) (total_aeds : Z)
    (deployment : list Z) :
  (forall i j si sj, i <> j -> subzone_data !! i = Some si -> subzone_data !! j = Some sj ->
     (coverage_radius < geodesic (subzone_point si) (subzone_point sj))%Q) ->
  let matrix := create_coverage_matrix geodesic subzone_data coverage_radius in
  Lp.objective (deployment_problem subzone_data matrix total_aeds) = [] /\
  length (deployment_effect subzone_data matrix deployment) = length subzone_data /\
  Forall (fun effect => (effect == 0)%Q) (deployment_effect subzone_data matrix deployment).
Proof.
  intros Hfar matrix.
  assert (forall i l, List.filter (covers matrix i) l = []) as Hnone.
  { intros i l. induction l as [|j l IH]; [reflexivity|]. simpl.
    destruct (covers matrix i j) eqn:E; [|exact IH].
    apply covers_entry in E as (Hne & si & sj & Hsi & Hsj & Hle).
    pose proof (Hfar i j si sj Hne Hsi Hsj). lra. }
  split; [|split].
  - unfold deployment_problem. cbn [Lp.objective]. apply flat_map_nil. intros i _.
    rewrite Hnone. destruct (subzone_data !! i); reflexivity.
  - unfold deployment_effect. apply length_imap.
  - apply Forall_forall. intros effect He. apply list_elem_of_lookup in He as [i He].
    rewrite deployment_effect_lookup, Hnone in He.
    destruct (subzone_data !! i) as [s|]; [|discriminate]. simpl in He.
    injection He as <-. change (inject_Z 0) with 0%Q. ring.
Qed.

Lemma isolated_subzones_no_coverage_witness :
  let matrix := create_coverage_matrix flat_distance one_subzone 200 in
  Lp.objective (deployment_problem one_subzone matrix 3) = [] /\
  length (deployment_effect one_subzone matrix [3]) = 1%nat /\
  Forall (fun effect => (effect == 0)%Q) (deployment_effect one_subzone matrix [3]).
Proof.
  apply (isolated_subzones_no_coverage flat_distance one_subzone 200 3 [3]).
  intros [|i] [|j] si sj Hne Hi Hj; try discriminate; congruence.
Defined.


(** * Further properties of feature preparation *)

(** X17.  When [prepare_features] completes, the features it stores are
    the ten columns of the feature list, in that order and as
    [create_paper_features] computed them, and the target is the column
    [ohca_count]: after [create_paper_features] none of the ten is absent,
    so the branch that fills an absent feature with 0 is never taken and
    the frame is the one [create_paper_features] returned. *)
Theorem prepare_features_uses_all_features (od_matrix : list (list Z)) (noise : list Q)
    (random_factor : list Z) (pop_df : DataFrame) (p : RiskModel.prepared) :
  RiskModel.prepare_features od_matrix noise random_factor pop_df = Ok p ->
  map fst (RiskModel.features p) = RiskModel.feature_columns /\
  Forall (fun nc => columns (RiskModel.frame p) !! fst nc = Some (snd nc))
    (RiskModel.features p) /\
  columns (RiskModel.frame p) !! "ohca_count" = Some (RiskModel.target p) /\
  columns (RiskModel.frame p) !! "subzone_code" = Some (RiskModel.subzone_codes p) /\
  exists df,
    RiskModel.create_mobility_features od_matrix pop_df = Ok df /\
    RiskModel.create_paper_features noise random_factor df = Ok (RiskModel.frame p).
Proof.
  unfold RiskModel.prepare_features. intros H.
  invert_ok H as df1 E1. invert_ok H as df2 E2.
  rewrite (check_features_complete df2 (paper_features_present _ _ _ _ E2)) in H.
  invert_ok H as feats Efeats. invert_ok H as tgt Etgt. invert_ok H as codes Ecodes.
  injection H as <-. cbn [RiskModel.features RiskModel.frame RiskModel.target
                           RiskModel.subzone_codes].
  apply select_Ok in Efeats as [Hnames Hcols]. apply get_Ok in Etgt. apply get_Ok in Ecodes.
  split; [exact Hnames|]. split; [exact Hcols|]. split; [exact Etgt|].
  split; [exact Ecodes|]. exists df1. split; assumption.
Qed.

Lemma prepare_features_uses_all_features_witness :
  exists p,
    RiskModel.prepare_features od_draw [0; 0]%Q [5; 4] frame_complete = Ok p /\
    map fst (RiskModel.features p) = RiskModel.feature_columns.
Proof.
  destruct (RiskModel.prepare_features od_draw [0; 0]%Q [5; 4] frame_complete)
    as [p|e] eqn:E.
  - exists p. split; [reflexivity|].
    apply (prepare_features_uses_all_features od_draw [0; 0]%Q [5; 4] frame_complete p E).
  - vm_compute in E. discriminate.
Defined.

Lemma clip_count (c : Z) :
  exists q, (fun x => if F.is_nan x then x else F.min2 (Fin 1000) x)
              ((fun x => if F.is_nan x then x else F.max2 F.zero x) (F.of_Z c)) = Fin q /\
            (q == inject_Z (Z.min 1000 (Z.max 0 c)))%Q.
Proof.
  unfold F.of_Z, F.zero, F.max2, F.min2, F.leb, F.is_nan.
  destruct (Qle_bool 0 (inject_Z c)) eqn:E0.
  - apply Qle_bool_iff in E0. assert (0 <= c) as Hc.
    { rewrite Zle_Qle. exact E0. }
    destruct (Qle_bool 1000 (inject_Z c)) eqn:E1.
    + apply Qle_bool_iff in E1. assert (1000 <= c) by (rewrite Zle_Qle; exact E1).
      eexists. split; [reflexivity|]. rewrite Z.max_r, Z.min_l by lia. reflexivity.
    + assert (c < 1000).
      { destruct (Z_lt_le_dec c 1000) as [Hlt|Hle]; [exact Hlt|].
        rewrite Zle_Qle in Hle. apply Qle_bool_iff in Hle.
        change (inject_Z 1000) with 1000%Q in Hle. congruence. }
      eexists. split; [reflexivity|]. rewrite Z.max_r, Z.min_r by lia. reflexivity.
  - assert (c < 0).
    { destruct (Z_lt_le_dec c 0) as [Hlt|Hle]; [exact Hlt|].
      rewrite Zle_Qle in Hle. apply Qle_bool_iff in Hle.
      change (inject_Z 0) with 0%Q in Hle. congruence. }
    assert (Qle_bool 1000 0 = false) as -> by reflexivity.
    eexists. split; [reflexivity|]. rewrite Z.max_l, Z.min_r by lia. reflexivity.
Qed.

(** X18.  When [create_paper_features] completes, every entry of the
    column [ohca_count] is a whole number between 0 and 1000, and every
    entry of [H_i] is NaN or not below 0. *)
Theorem paper_features_ranges (noise : list Q) (random_factor : list Z)
    (df df' : DataFrame) :
  RiskModel.create_paper_features noise random_factor df = Ok df' ->
  (exists ohca_count,
     columns df' !! "ohca_count" = Some (NumCol ohca_count) /\
     Forall (fun x => exists (c : Z) (q : Q),
                        x = Fin q /\ (q == inject_Z c)%Q /\ 0 <= c <= 1000) ohca_count) /\
  (exists H_i,
     columns df' !! "H_i" = Some (NumCol H_i) /\
     Forall (fun x => x = NaN \/ F.leb F.zero x = true) H_i).
Proof.
  intros H. apply create_paper_features_columns in H
    as (P & E & L & HDB & counts & RE & TM & MI & rate & _ & _ & _ & Hcols).
  rewrite Hcols. split.
  - eexists. split; [other_key; apply lookup_insert_eq|].
    unfold clip_high, clip_low. rewrite !map_map.
    apply Forall_forall. intros x Hx. apply list_elem_of_In, in_map_iff in Hx as (c & <- & _).
    destruct (clip_count c) as (q & Heq & Hq).
    exists (Z.min 1000 (Z.max 0 c)), q. split; [exact Heq|]. split; [exact Hq|lia].
  - eexists. split; [other_key; apply lookup_insert_eq|].
    unfold clip_low. apply Forall_forall. intros x Hx.
    apply list_elem_of_In, in_map_iff in Hx as (h & <- & _).
    destruct h as [q| | |]; simpl; auto.
    unfold F.max2, F.zero; simpl. right.
    destruct (Qle_bool 0 q) eqn:E0; [exact E0|reflexivity].
Qed.

Lemma paper_features_ranges_witness :
  exists df',
    RiskModel.create_paper_features [0; 0]%Q [5; 2000]
      (Frame.set_num (Frame.set_num (Frame.set_num frame_complete
         "risk_exposure" [Fin 1; Fin 2]) "total_mobility" [Fin 3; Fin 4])
         "mobility_intensity" [Fin 1; Fin 1]) = Ok df' /\
    exists ohca_count,
      columns df' !! "ohca_count" = Some (NumCol ohca_count) /\
      Forall (fun x => exists (c : Z) (q : Q),
                         x = Fin q /\ (q == inject_Z c)%Q /\ 0 <= c <= 1000) ohca_count.
Proof.
  destruct (RiskModel.create_paper_features [0; 0]%Q [5; 2000]
      (Frame.set_num (Frame.set_num (Frame.set_num frame_complete
         "risk_exposure" [Fin 1; Fin 2]) "total_mobility" [Fin 3; Fin 4])
         "mobility_intensity" [Fin 1; Fin 1])) as [df'|e] eqn:E.
  - exists df'. split; [reflexivity|].
    apply (paper_features_ranges _ _ _ df' E).
  - vm_compute in E. discriminate.
Defined.

(** * The total coverage effect and the objective of the deployment *)








(** * Further properties of the mobility features *)

Lemma fold_max_bounds (t : Z) (ts : list Z) :
  Forall (fun x => x <= fold_right Z.max t ts) (t :: ts).
Proof.
  induction ts as [|a ts IH]; simpl.
  - constructor; [lia|constructor].
  - inversion IH as [|? ? Ht Hts]; subst.
    constructor; [lia|]. constructor; [lia|].
    eapply Forall_impl; [exact Hts|]. intros x Hx; simpl in Hx. lia.
Qed.

Lemma zip_add_nonneg (a b : list Z) :
  Forall (fun x => 0 <= x) a -> Forall (fun x => 0 <= x) b ->
  Forall (fun x => 0 <= x) (zip_with Z.add a b).
Proof.
  intros Ha. revert b. induction Ha as [|x a Hx Ha IH]; intros b Hb; [constructor|].
  destruct Hb as [|y b Hy Hb]; simpl; [constructor|].
  constructor; [lia|apply IH, Hb].
Qed.

Lemma intensity_range (tm : list Z) (top : Z) :
  Forall (fun t => 0 <= t <= top) tm ->
  Forall nan_or_unit (map (fun t => F.div (F.of_Z t) (F.of_Z top)) tm).
Proof.
  intros H. apply Forall_map. eapply Forall_impl; [exact H|].
  intros t [Hlo Hhi]. unfold nan_or_unit, F.div, F.of_Z.
  destruct (Qeq_bool (inject_Z top) 0) eqn:E.
  - apply Qeq_bool_iff in E. assert (top = 0) as ->.
    { unfold Qeq in E. simpl in E. lia. }
    assert (t = 0) as -> by lia. left. reflexivity.
  - right. exists (inject_Z t / inject_Z top)%Q. split; [reflexivity|].
    assert (0 < top).
    { destruct (Z.eq_dec top 0) as [->|Hne]; [discriminate E|lia]. }
    assert (0 < inject_Z top)%Q by (change 0%Q with (inject_Z 0); rewrite <- Zlt_Qlt; lia).
    assert (0 <= inject_Z t)%Q by (change 0%Q with (inject_Z 0); rewrite <- Zle_Qle; lia).
    assert (inject_Z t <= inject_Z top)%Q by (rewrite <- Zle_Qle; lia).
    split.
    + apply Qle_shift_div_l; [assumption|]. lra.
    + apply Qle_shift_div_r; [assumption|]. lra.
Qed.

Lemma mobility_columns (od_matrix : list (list Z)) (df df' : DataFrame) :
  RiskModel.create_mobility_features od_matrix df = Ok df' ->
  let od := imap (fun i row => <[i := 0]> row) od_matrix in
  let total_mobility :=
    zip_with Z.add (map Zsum od)
      (map (fun j => Zsum (map (fun row => default 0 (row !! j)) od))
         (seq 0 (n_rows df))) in
  exists t ts,
    total_mobility = t :: ts /\
    columns df' !! "total_mobility" = Some (NumCol (map F.of_Z total_mobility)) /\
    columns df' !! "mobility_intensity" =
      Some (NumCol (map (fun x => F.div (F.of_Z x) (F.of_Z (fold_right Z.max t ts)))
                      total_mobility)).
Proof.
  intros H od total_mobility. unfold RiskModel.create_mobility_features in H.
  fold od in H. fold total_mobility in H.
  destruct total_mobility as [|t ts] eqn:Etm; [discriminate H|].
  cbn [mbind result_bind] in H.
  invert_ok H as population Epop. injection H as <-.
  exists t, ts. split; [reflexivity|].
  unfold Frame.set_num, Frame.set. cbn [columns].
  split; other_key; apply lookup_insert_eq.
Qed.

(** X20.  With flows that are not negative (they are Poisson draws), every
    entry of the column [mobility_intensity] that
    [create_mobility_features] builds is a number between 0 and 1, or
    NaN. *)
Theorem mobility_intensity_range (od_matrix : list (list Z)) (df df' : DataFrame) :
  RiskModel.create_mobility_features od_matrix df = Ok df' ->
  Forall (Forall (fun v => 0 <= v)) od_matrix ->
  exists mobility_intensity,
    columns df' !! "mobility_intensity" = Some (NumCol mobility_intensity) /\
    Forall nan_or_unit mobility_intensity.
Proof.
  intros H Hnn. apply mobility_columns in H as (t & ts & Etm & _ & Hmi).
  eexists. split; [exact Hmi|]. apply intensity_range.
  set (od := imap (fun i row => <[i := 0]> row) od_matrix) in *.
  assert (Forall (Forall (fun v => 0 <= v)) od) as Hod.
  { apply Forall_forall. intros row Hrow. apply list_elem_of_lookup in Hrow as [i Hi].
    unfold od in Hi. rewrite list_lookup_imap in Hi.
    destruct (od_matrix !! i) as [row0|] eqn:E0; [|discriminate]. injection Hi as <-.
    apply Forall_insert; [|lia].
    rewrite Forall_forall in Hnn. apply Hnn, list_elem_of_lookup. eauto. }
  assert (Forall (fun x => 0 <= x) (t :: ts)) as Hpos.
  { rewrite <- Etm. apply zip_add_nonneg.
    - apply Forall_map. eapply Forall_impl; [exact Hod|]. intros row. apply Zsum_nonneg.
    - apply Forall_map, Forall_forall. intros j _. apply Zsum_nonneg, Forall_map.
      eapply Forall_impl; [exact Hod|]. intros row Hrow. simpl.
      destruct (row !! j) as [v|] eqn:Ev; simpl; [|lia].
      rewrite Forall_forall in Hrow. apply Hrow, list_elem_of_lookup. eauto. }
  rewrite Etm. pose proof (fold_max_bounds t ts) as Hmax.
  apply Forall_forall. intros x Hx. rewrite Forall_forall in Hpos, Hmax.
  split; [apply Hpos, Hx|apply Hmax, Hx].
Qed.

Lemma mobility_intensity_range_witness :
  exists df' mobility_intensity,
    RiskModel.create_mobility_features od_draw frame_complete = Ok df' /\
    columns df' !! "mobility_intensity" = Some (NumCol mobility_intensity) /\
    Forall nan_or_unit mobility_intensity.
Proof.
  destruct (RiskModel.create_mobility_features od_draw frame_complete) as [df'|e] eqn:E.
  - destruct (mobility_intensity_range od_draw frame_complete df' E) as (mi & Hmi & Hall).
    + repeat constructor; lia.
    + exists df', mi. split; [reflexivity|]. split; assumption.
  - vm_compute in E. discriminate.
Defined.

(** X21.  The small frames: on an empty frame [create_mobility_features]
    stops with the ValueError of the maximum of an empty array, and so does
    [prepare_features]; on a frame of one subzone the only flow is the
    diagonal one, which is set to 0, so the total mobility is 0 and the
    mobility intensity is 0/0, that is NaN. *)
Theorem mobility_of_small_frames (noise : list Q) (random_factor : list Z)
    (df : DataFrame) (v : Z) (population : list fval) :
  RiskModel.create_mobility_features [] df =
    Raise (Exn "ValueError" "zero-size array to reduction operation maximum") /\
  RiskModel.prepare_features [] noise random_factor df =
    Raise (Exn "ValueError" "zero-size array to reduction operation maximum") /\
  (n_rows df = 1%nat -> columns df !! "Total_Total" = Some (NumCol population) ->
   exists df',
     RiskModel.create_mobility_features [[v]] df = Ok df' /\
     columns df' !! "total_mobility" = Some (NumCol [F.of_Z 0]) /\
     columns df' !! "mobility_intensity" = Some (NumCol [NaN])).
Proof.
  split; [reflexivity|]. split; [reflexivity|].
  intros Hn Hpop. unfold RiskModel.create_mobility_features. rewrite Hn.
  cbn [imap seq map zip_with Zsum fold_right]. cbn.
  unfold Frame.get_num, Frame.get. rewrite Hpop. cbn.
  eexists. split; [reflexivity|].
  unfold Frame.set_num, Frame.set. cbn [columns].
  split; other_key; rewrite lookup_insert_eq; reflexivity.
Qed.

Lemma mobility_of_small_frames_witness :
  exists df',
    RiskModel.create_mobility_features [[7]]
      (frame_of 1 [("Total_Total", NumCol [Fin 1000])]) = Ok df' /\
    columns df' !! "total_mobility" = Some (NumCol [F.of_Z 0]) /\
    columns df' !! "mobility_intensity" = Some (NumCol [NaN]).
Proof.
  destruct (mobility_of_small_frames [] [] (frame_of 1 [("Total_Total", NumCol [Fin 1000])])
              7 [Fin 1000]) as (_ & _ & H).
  apply H; [reflexivity|vm_compute; reflexivity].
Defined.

(** * Further properties of optimized_risk_model_with_area.py *)

Lemma fillna_no_nan (c : column) : no_nan (Frame.fillna F.zero c).
Proof.
  destruct c as [v|v]; simpl; [|exact I].
  apply Forall_map, Forall_forall. intros x _. simpl. destruct x; reflexivity.
Qed.

Lemma clipped_not_negative (v : fval) :
  not_negative (if F.is_nan v then v else F.max2 v F.zero).
Proof.
  unfold not_negative. destruct v as [q| | |]; simpl; auto.
  unfold F.max2, F.zero; simpl. right.
  destruct (Qle_bool q 0) eqn:E; simpl; [reflexivity|].
  destruct (Qlt_le_dec 0 q) as [Hlt|Hle].
  - apply Qle_bool_iff. lra.
  - apply Qle_bool_iff in Hle. congruence.
Qed.

Lemma load_and_prepare_data_Ok (noise : list Q) (data data' : DataFrame)
    (X : list (string * column)) (y : list fval) :
  RiskModelArea.load_and_prepare_data noise data = Ok (X, y, data') ->
  exists population selected risk_factors,
    columns data !! "Total_Total" = Some (NumCol population) /\
    data' = Frame.set_num (Frame.set_num data "population_density" population)
              "area_weight" (map (fun p => F.div p (F.max population)) population) /\
    Frame.select data' RiskModelArea.features = Ok selected /\
    X = map (fun nc => (fst nc, Frame.fillna F.zero (snd nc))) selected /\
    y = map (fun v => if F.is_nan v then v else F.max2 v F.zero)
          (zip_with F.add risk_factors (map Fin noise)).
Proof.
  unfold RiskModelArea.load_and_prepare_data. intros H.
  invert_ok H as population Epop. apply get_num_Ok in Epop.
  invert_ok H as selected Esel.
  invert_ok H as total Etotal. invert_ok H as elderly Eelderly.
  invert_ok H as low_income Elow. invert_ok H as hdb Ehdb. invert_ok H as area Earea.
  injection H as <- <- <-.
  exists population, selected. eexists.
  split; [exact Epop|]. split; [reflexivity|]. split; [exact Esel|].
  split; reflexivity.
Qed.

(** X22.  When [load_and_prepare_data] completes, the feature table [X]
    holds the seven features in the order of the list, none of its entries
    is NaN, and no entry of the target [y] is negative. *)
Theorem load_and_prepare_data_output (noise : list Q) (data data' : DataFrame)
    (X : list (string * column)) (y : list fval) :
  RiskModelArea.load_and_prepare_data noise data = Ok (X, y, data') ->
  map fst X = RiskModelArea.features /\
  Forall (fun nc => no_nan (snd nc)) X /\
  Forall not_negative y.
Proof.
  intros H. apply load_and_prepare_data_Ok in H
    as (population & selected & risk_factors & _ & _ & Hsel & -> & ->).
  apply select_Ok in Hsel as [Hnames _]. split; [|split].
  - rewrite map_map. simpl. exact Hnames.
  - apply Forall_map, Forall_forall. intros nc _. simpl. apply fillna_no_nan.
  - apply Forall_map, Forall_forall. intros v _. apply clipped_not_negative.
Qed.

Lemma load_and_prepare_data_output_witness :
  exists X y data',
    RiskModelArea.load_and_prepare_data [0; 0]%Q frame_complete = Ok (X, y, data') /\
    map fst X = RiskModelArea.features /\
    Forall not_negative y.
Proof.
  destruct (RiskModelArea.load_and_prepare_data [0; 0]%Q frame_complete)
    as [[[X y] data']|e] eqn:E.
  - exists X, y, data'. split; [reflexivity|].
    destruct (load_and_prepare_data_output [0; 0]%Q frame_complete data' X y E)
      as (Hnames & _ & Hy).
    split; assumption.
  - vm_compute in E. discriminate.
Defined.

(** X23.  With populations that are not negative and not all zero, the
    column [area_weight] that [load_and_prepare_data] adds is each
    population divided by the greatest one: every weight lies between 0
    and 1, and the most populated subzone has weight 1. *)
Theorem area_weight_unit_interval (noise : list Q) (data data' : DataFrame)
    (X : list (string * column)) (y : list fval) (populations : list Q) :
  RiskModelArea.load_and_prepare_data noise data = Ok (X, y, data') ->
  columns data !! "Total_Total" = Some (NumCol (map Fin populations)) ->
  Forall (fun q => (0 <= q)%Q) populations ->
  Exists (fun q => (0 < q)%Q) populations ->
  exists top,
    In top populations /\ (0 < top)%Q /\
    columns data' !! "area_weight"
      = Some (NumCol (map (fun q => Fin (q / top)) populations)) /\
    Forall (fun q => (0 <= q / top <= 1)%Q) populations /\
    (top / top == 1)%Q.
Proof.
  intros H Hpop Hnn Hpos. apply load_and_prepare_data_Ok in H
    as (population & selected & risk_factors & Hpop' & -> & _).
  assert (population = map Fin populations) as -> by congruence.
  assert (populations <> []) as Hne by (intros ->; inversion Hpos).
  destruct (fmax_finite populations Hne) as (top & Htop & Hin & Hall).
  assert (0 < top)%Q as Hgt.
  { apply Exists_exists in Hpos as (q & Hq & Hq0). rewrite Forall_forall in Hall.
    pose proof (Hall q Hq). lra. }
  assert (Qeq_bool top 0 = false) as Hnz.
  { destruct (Qeq_bool top 0) eqn:E; [|reflexivity]. apply Qeq_bool_iff in E. lra. }
  exists top. split; [exact Hin|]. split; [exact Hgt|]. split; [|split].
  - unfold Frame.set_num, Frame.set. cbn [columns]. rewrite lookup_insert_eq.
    rewrite Htop, map_map. do 2 f_equal. apply map_ext. intros q. simpl.
    rewrite Hnz. reflexivity.
  - rewrite Forall_forall in Hall, Hnn. apply Forall_forall. intros q Hq. split.
    + apply Qle_shift_div_l; [exact Hgt|]. pose proof (Hnn q Hq). lra.
    + apply Qle_shift_div_r; [exact Hgt|]. pose proof (Hall q Hq). lra.
  - field. lra.
Qed.

Lemma area_weight_unit_interval_witness :
  exists data' top,
    columns data' !! "area_weight"
      = Some (NumCol (map (fun q => Fin (q / top)) [1000; 2000]%Q)) /\
    Forall (fun q => (0 <= q / top <= 1)%Q) [1000; 2000]%Q.
Proof.
  destruct (RiskModelArea.load_and_prepare_data [0; 0]%Q frame_complete)
    as [[[X y] data']|e] eqn:E.
  - destruct (area_weight_unit_interval [0; 0]%Q frame_complete data' X y [1000; 2000]%Q E)
      as (top & _ & _ & Hw & Hall & _).
    + vm_compute. reflexivity.
    + repeat constructor; discriminate.
    + left. reflexivity.
    + exists data', top. split; assumption.
  - vm_compute in E. discriminate.
Defined.

(** * Further properties of the normalisation *)

Lemma fmin_skips_nan (l1 l2 : list fval) : F.min (l1 ++ NaN :: l2) = F.min (l1 ++ l2).
Proof. induction l1 as [|a l1 IH]; simpl; [reflexivity|]. rewrite IH. reflexivity. Qed.

Lemma fmax_skips_nan (l1 l2 : list fval) : F.max (l1 ++ NaN :: l2) = F.max (l1 ++ l2).
Proof. induction l1 as [|a l1 IH]; simpl; [reflexivity|]. rewrite IH. reflexivity. Qed.

(** X24.  A missing raw score stays missing and does not touch the others:
    normalising a column with a NaN entry gives NaN at that place and, at
    the other places, what normalising the column without the entry
    gives. *)
Theorem normalisation_skips_missing (l1 l2 : list fval) :
  exists r1 r2,
    length r1 = length l1 /\
    F.min_max_scaled (l1 ++ l2) = r1 ++ r2 /\
    load_data_normalized_risk_score (l1 ++ NaN :: l2) = r1 ++ NaN :: r2 /\
    predict_risk_scores_normalized (l1 ++ NaN :: l2) = r1 ++ NaN :: r2.
Proof.
  unfold load_data_normalized_risk_score, predict_risk_scores_normalized, F.min_max_scaled.
  rewrite fmin_skips_nan, fmax_skips_nan.
  set (f := fun x => F.div (F.sub x (F.min (l1 ++ l2)))
                       (F.sub (F.max (l1 ++ l2)) (F.min (l1 ++ l2)))).
  exists (map f l1), (map f l2).
  split; [apply length_map|]. rewrite !map_app. cbn [map].
  assert (f NaN = NaN) as -> by reflexivity.
  repeat split; reflexivity.
Qed.




(** * The grid of the risk heatmap *)

Lemma grid_position (g k r c : nat) :
  (c < g)%nat -> ((r = k / g /\ c = k mod g) <-> r * g + c = k)%nat.
Proof.
  intros Hc. split.
  - intros [-> ->]. rewrite Nat.mul_comm. symmetry. apply Nat.div_mod_eq.
  - intros <-. split.
    + apply (Nat.div_unique (r * g + c) g r c); [exact Hc|apply Nat.add_cancel_r, Nat.mul_comm].
    + apply (Nat.mod_unique (r * g + c) g r c); [exact Hc|apply Nat.add_cancel_r, Nat.mul_comm].
Qed.

Lemma grid_guard (n i : nat) :
  (i < n)%nat -> (i / Nat.sqrt_up n < Nat.sqrt_up n)%nat /\ (i mod Nat.sqrt_up n < Nat.sqrt_up n)%nat.
Proof.
  intros Hi. assert (0 < n)%nat as Hn by lia.
  pose proof (Nat.sqrt_up_spec n Hn) as [_ Hle]. simpl in Hle.
  assert (Nat.sqrt_up n <> 0)%nat as Hg.
  { intros E. rewrite E in Hle. simpl in Hle. lia. }
  split.
  - apply Nat.Div0.div_lt_upper_bound. lia.
  - apply Nat.mod_upper_bound, Hg.
Qed.

Lemma heatmap_rounds (risk_values : list fval) (k : nat) :
  let n := length risk_values in
  let g := Nat.sqrt_up n in
  (k <= n)%nat ->
  forall r c, (r < g)%nat -> (c < g)%nat ->
    Matrix.get (fold_left (heatmap_step risk_values g) (seq 0 k)
                  (repeat (repeat F.zero g) g)) r c =
    Some (if (r * g + c <? k)%nat then default F.zero (risk_values !! (r * g + c)%nat)
          else F.zero).
Proof.
  intros n g. induction k as [|k IH]; intros Hk r c Hr Hc.
  - simpl. rewrite matrix_get_repeat by assumption. reflexivity.
  - rewrite seq_S, fold_left_app. simpl fold_left.
    unfold heatmap_step at 1.
    destruct (grid_guard n k) as [Hrow Hcol]; [lia|]. fold g in Hrow, Hcol.
    rewrite (proj2 (Nat.ltb_lt _ _) Hrow), (proj2 (Nat.ltb_lt _ _) Hcol). simpl andb. cbv iota.
    destruct (lookup_lt_is_Some_2 risk_values k) as [v Hv]; [fold n; lia|].
    rewrite Hv, matrix_get_set, IH by (assumption || lia).
    destruct (decide (r = (k / g)%nat /\ c = (k mod g)%nat)) as [Hpos|Hpos].
    + apply grid_position in Hpos; [|exact Hc]. rewrite Hpos.
      rewrite (proj2 (Nat.ltb_lt k (S k))) by lia. rewrite Hv. reflexivity.
    + assert ((r * g + c)%nat <> k) as Hne.
      { intros E. apply Hpos, grid_position; assumption. }
      destruct (Nat.ltb_spec (r * g + c) k), (Nat.ltb_spec (r * g + c) (S k));
        try reflexivity; lia.
Qed.

(** X26.  [create_heatmap] lays every score out on the grid: the guard of
    the loop never fails, the score of subzone [i] is at row [i // g] and
    column [i % g], and the cells after the last subzone stay 0. *)
Theorem heatmap_grid_cells (risk_values : list fval) :
  let g := Nat.sqrt_up (length risk_values) in
  (forall i v, risk_values !! i = Some v ->
     (i / g < g)%nat /\ (i mod g < g)%nat /\
     Matrix.get (heatmap_grid risk_values) (i / g) (i mod g) = Some v) /\
  (forall r c, (r < g)%nat -> (c < g)%nat ->
     Matrix.get (heatmap_grid risk_values) r c =
     Some (default F.zero (risk_values !! (r * g + c)%nat))).
Proof.
  intros g.
  assert (forall r c, (r < g)%nat -> (c < g)%nat ->
            Matrix.get (heatmap_grid risk_values) r c =
            Some (default F.zero (risk_values !! (r * g + c)%nat))) as Hcells.
  { intros r c Hr Hc. unfold heatmap_grid. fold g.
    rewrite (heatmap_rounds risk_values (length risk_values)) by (assumption || lia).
    fold g. destruct (Nat.ltb_spec (r * g + c) (length risk_values)) as [Hlt|Hge];
      [reflexivity|].
    rewrite (proj2 (lookup_ge_None risk_values (r * g + c))) by lia. reflexivity. }
  split; [|exact Hcells].
  intros i v Hv. pose proof (lookup_lt_Some _ _ _ Hv) as Hi.
  destruct (grid_guard (length risk_values) i Hi) as [Hrow Hcol]. fold g in Hrow, Hcol.
  split; [exact Hrow|]. split; [exact Hcol|].
  rewrite Hcells by assumption.
  assert ((i / g * g + i mod g)%nat = i) as ->
    by (apply grid_position; [exact Hcol|split; reflexivity]).
  rewrite Hv. reflexivity.
Qed.

Lemma heatmap_grid_cells_witness :
  Matrix.get (heatmap_grid [Fin 1; Fin (1 # 2); Fin 0]) 1 0 = Some (Fin 0) /\
  Matrix.get (heatmap_grid [Fin 1; Fin (1 # 2); Fin 0]) 1 1 = Some F.zero.
Proof.
  destruct (heatmap_grid_cells [Fin 1; Fin (1 # 2); Fin 0]) as [Hplaced Hcells].
  split.
  - destruct (Hplaced 2%nat (Fin 0)) as (_ & _ & H); [reflexivity|exact H].
  - apply (Hcells 1%nat 1%nat); apply Nat.ltb_lt; reflexivity.
Defined.
